(** * ligolo-mp: the userspace network stack, its connection dispatch and the
    revocation record, embedded from the Go sources

    - [Crl]      : [internal/crl/entity.go], the [RevokedCertificate] record.
    - [Netstack] : the [netstack] package: [TunConn] and its kind tests,
                   [NetStack] with [NewStack], [SetConnPool], [new], [Destroy]
                   and the two forwarder callbacks registered by [new].
    - [Race]     : the forwarder callbacks and [SetConnPool] run as interleaved
                   threads over the shared [NetStack].

    Calls that leave the package (the gVisor engine, [unix.Close], [slog]) are
    recorded as events in a world that every operation threads through. *)

From Stdlib Require Import ZArith NArith List Ascii String Bool Lia.
From Stdlib Require Import Strings.Byte.
From stdpp Require Import base list gmap.

Local Open Scope Z_scope.

(* ===================================================================== *)
(** ** internal/crl *)
(* ===================================================================== *)

Module Crl.

(** [sha1.Size]: the length in bytes of a SHA-1 checksum. *)
Definition sha1_Size : nat := 20%nat.

(** [type RevokedCertificate struct].  [Thumbprint] is the fixed array
    [[sha1.Size]byte]; its length is the well-formedness condition [wf]. *)
Record RevokedCertificate := mkRevokedCertificate {
  Reason : string;
  Certificate : list byte;
  Thumbprint : list byte
}.

Definition wf (rc : RevokedCertificate) : Prop :=
  length (Thumbprint rc) = sha1_Size.

(** One lower-case hexadecimal digit, as the verb [%x] prints it. *)
Definition hex_digit (n : N) : ascii :=
  match n with
  | 0%N => "0" | 1%N => "1" | 2%N => "2" | 3%N => "3"
  | 4%N => "4" | 5%N => "5" | 6%N => "6" | 7%N => "7"
  | 8%N => "8" | 9%N => "9" | 10%N => "a" | 11%N => "b"
  | 12%N => "c" | 13%N => "d" | 14%N => "e" | _ => "f"
  end%char.

(** The value of a hexadecimal digit; [None] for any other character. *)
Definition hex_value (c : ascii) : option N :=
  let n := N_of_ascii c in
  if ((48 <=? n) && (n <=? 57))%N then Some (n - 48)%N
  else if ((97 <=? n) && (n <=? 102))%N then Some (n - 87)%N
  else None.

(** [fmt.Sprintf("%x", b)] on a byte array: two digits per byte, high nibble
    first, no separator. *)
Fixpoint sprintf_x (bs : list byte) : string :=
  match bs with
  | [] => EmptyString
  | b :: rest =>
      String (hex_digit (Byte.to_N b / 16))
        (String (hex_digit (Byte.to_N b mod 16)) (sprintf_x rest))
  end.

(** Reading a hexadecimal string back, two digits per byte. *)
Fixpoint parse_x (s : string) : option (list byte) :=
  match s with
  | EmptyString => Some []
  | String hi (String lo rest) =>
      match hex_value hi, hex_value lo, parse_x rest with
      | Some h, Some l, Some bs =>
          match Byte.of_N (h * 16 + l) with
          | Some b => Some (b :: bs)
          | None => None
          end
      | _, _, _ => None
      end
  | String _ EmptyString => None
  end.

(** [func (rc *RevokedCertificate) Hash() string] *)
Definition Hash (rc : RevokedCertificate) : string :=
  sprintf_x (Thumbprint rc).

(** [func (rc *RevokedCertificate) String() string] *)
Definition RevokedCertificate_String (rc : RevokedCertificate) : string :=
  ("Reason=" ++ Reason rc)%string.

End Crl.

(* ===================================================================== *)
(** ** netstack: data *)
(* ===================================================================== *)

Module Netstack.

(** Go's [error], kept as its message. *)
Definition error := string.

(** [tcpip.TransportProtocolNumber] and [tcpip.NetworkProtocolNumber] are
    [uint32]; the constants are those of the engine's [header] package (the
    IANA protocol numbers and the EtherTypes). *)
Definition TransportProtocolNumber := Z.
Definition NetworkProtocolNumber := Z.
Definition tcp_ProtocolNumber : TransportProtocolNumber := 6.
Definition udp_ProtocolNumber : TransportProtocolNumber := 17.
Definition icmp_ProtocolNumber4 : TransportProtocolNumber := 1.
Definition icmp_ProtocolNumber6 : TransportProtocolNumber := 58.
Definition ipv4_ProtocolNumber : NetworkProtocolNumber := 2048.
Definition ipv6_ProtocolNumber : NetworkProtocolNumber := 34525.

(** [stack.TransportEndpointID] *)
Record TransportEndpointID := mkEndpointID {
  LocalPort : Z;
  LocalAddress : list Z;
  RemotePort : Z;
  RemoteAddress : list Z
}.

(** Pointers into the engine: [*tcp.ForwarderRequest], [*udp.ForwarderRequest]
    and [stack.PacketBufferPtr] are addresses. *)
Definition ReqPtr := nat.
Definition PacketBufferPtr := nat.

(** What the engine hands to a forwarder callback: the request and what
    [request.ID()] answers. *)
Record ForwarderRequest := mkForwarderRequest {
  req_ptr : ReqPtr;
  req_ID : TransportEndpointID
}.

(** [type TCPConn struct], [type UDPConn struct], [type ICMPConn struct] *)
Record TCPConn := mkTCPConn {
  tcp_EndpointID : TransportEndpointID;
  tcp_Request : ReqPtr
}.
Record UDPConn := mkUDPConn {
  udp_EndpointID : TransportEndpointID;
  udp_Request : ReqPtr
}.
Record ICMPConn := mkICMPConn {
  icmp_Request : PacketBufferPtr
}.

(** The dynamic value of the [interface{}] field [Handler]. *)
Inductive Any :=
| AnyNil
| AnyTCPConn (c : TCPConn)
| AnyUDPConn (c : UDPConn)
| AnyICMPConn (c : ICMPConn).

(** [type TunConn struct] *)
Record TunConn := mkTunConn {
  Protocol : TransportProtocolNumber;
  Handler : Any
}.

#[global] Instance TransportEndpointID_eq_dec : EqDecision TransportEndpointID.
Proof. solve_decision. Defined.
#[global] Instance TCPConn_eq_dec : EqDecision TCPConn.
Proof. solve_decision. Defined.
#[global] Instance UDPConn_eq_dec : EqDecision UDPConn.
Proof. solve_decision. Defined.
#[global] Instance ICMPConn_eq_dec : EqDecision ICMPConn.
Proof. solve_decision. Defined.
#[global] Instance Any_eq_dec : EqDecision Any.
Proof. solve_decision. Defined.
#[global] Instance TunConn_eq_dec : EqDecision TunConn.
Proof. solve_decision. Defined.

(** [func (t TunConn) IsTCP() bool] and its two siblings. *)
Definition IsTCP (t : TunConn) : bool := Protocol t =? tcp_ProtocolNumber.
Definition IsUDP (t : TunConn) : bool := Protocol t =? udp_ProtocolNumber.
Definition IsICMP (t : TunConn) : bool := Protocol t =? icmp_ProtocolNumber4.

(** Modelled from the spec: the [ConnPool] type with [Add], [Closed] and
    [Close], which this package declares in a file that is not among the
    sources.  Section 4.4: [Add] fails with [PoolClosed] once the pool has been
    closed and otherwise makes the request available in first-in-first-out
    order; [Closed] is a state check; [Close] marks the pool closed. *)
Record ConnPool := mkConnPool {
  pool_closed : bool;
  pool_queue : list TunConn
}.

Definition PoolClosed : error := "pool closed"%string.

Definition ConnPool_Closed (p : ConnPool) : bool := pool_closed p.

Definition ConnPool_Add (c : TunConn) (p : ConnPool) : ConnPool * option error :=
  if pool_closed p then (p, Some PoolClosed)
  else (mkConnPool false (pool_queue p ++ [c]), None).

Definition ConnPool_Close (p : ConnPool) : ConnPool :=
  mkConnPool true (pool_queue p).

(** [*ConnPool]: an address in the heap of pools; [nil] is [None]. *)
Definition PoolPtr := nat.

(* --------------------------------------------------------------------- *)
(** *** The packet engine, as far as this package configures it *)

(** [tcpip.Subnet]: an address and a mask of the same length. *)
Record Subnet := mkSubnet {
  subnet_address : list Z;
  subnet_mask : list Z
}.

(** [header.IPv4EmptySubnet] is 0.0.0.0/0 and [header.IPv6EmptySubnet] ::/0. *)
Definition IPv4EmptySubnet : Subnet := mkSubnet (replicate 4 0) (replicate 4 0).
Definition IPv6EmptySubnet : Subnet := mkSubnet (replicate 16 0) (replicate 16 0).

(** [Subnet.Contains]: same length, and every byte of the address agrees with
    the subnet's under the mask. *)
Fixpoint masked_eq (addr sub mask : list Z) : bool :=
  match addr, sub, mask with
  | [], [], [] => true
  | a :: addr', s :: sub', m :: mask' =>
      (Z.land a m =? s) && masked_eq addr' sub' mask'
  | _, _, _ => false
  end.

Definition Subnet_Contains (sn : Subnet) (addr : list Z) : bool :=
  masked_eq addr (subnet_address sn) (subnet_mask sn).

(** [tcpip.Route], with the two fields the package sets. *)
Record Route := mkRoute {
  Destination : Subnet;
  NIC : Z
}.

(** The link endpoint [tun.Open] returns reads and writes the descriptor. *)
Record LinkEndpoint := mkLinkEndpoint {
  link_fd : Z
}.

(** A forwarder as built by [tcp.NewForwarder(s, rcvWnd, maxInFlight, h)] or
    [udp.NewForwarder(s, h)]; the callback [h] is [tcpHandler] or [udpHandler]
    below. *)
Inductive Forwarder :=
| TCPForwarder (rcvWnd maxInFlight : Z)
| UDPForwarder.

(** One NIC of the engine. *)
Record NICState := mkNIC {
  nic_link : LinkEndpoint;
  nic_promiscuous : bool;
  nic_spoofing : bool
}.

(** [stack.Stack]: the settings the package reads or writes. *)
Record Stack := mkStack {
  NetworkProtocols : list NetworkProtocolNumber;
  TransportProtocols : list TransportProtocolNumber;
  HandleLocal : bool;
  icmpLimit : Z;
  icmpBurst : Z;
  transportHandlers : gmap Z Forwarder;
  nics : gmap Z NICState;
  routeTable : list Route;
  forwarding : gmap Z bool;
  tcpSACKEnabled : bool;
  tcpAlwaysUseSynCookies : bool;
  destroyed : bool
}.

(** [stack.Options] *)
Record Options := mkOptions {
  opt_NetworkProtocols : list NetworkProtocolNumber;
  opt_TransportProtocols : list TransportProtocolNumber;
  opt_HandleLocal : bool
}.

(** [stack.New]: a fresh engine with the engine's own defaults (ICMP replies
    limited to 1000 a second with a burst of 50, selective acknowledgment on,
    no NIC, no route, nothing forwarded). *)
Definition stack_New (o : Options) : Stack :=
  mkStack (opt_NetworkProtocols o) (opt_TransportProtocols o) (opt_HandleLocal o)
          1000 50 ∅ ∅ [] ∅ true false false.

Definition SetICMPLimit (l : Z) (e : Stack) : Stack :=
  mkStack (NetworkProtocols e) (TransportProtocols e) (HandleLocal e)
          l (icmpBurst e) (transportHandlers e) (nics e) (routeTable e)
          (forwarding e) (tcpSACKEnabled e) (tcpAlwaysUseSynCookies e) (destroyed e).

Definition SetICMPBurst (b : Z) (e : Stack) : Stack :=
  mkStack (NetworkProtocols e) (TransportProtocols e) (HandleLocal e)
          (icmpLimit e) b (transportHandlers e) (nics e) (routeTable e)
          (forwarding e) (tcpSACKEnabled e) (tcpAlwaysUseSynCookies e) (destroyed e).

Definition SetTransportProtocolHandler (p : TransportProtocolNumber) (h : Forwarder)
    (e : Stack) : Stack :=
  mkStack (NetworkProtocols e) (TransportProtocols e) (HandleLocal e)
          (icmpLimit e) (icmpBurst e) (<[p:=h]> (transportHandlers e)) (nics e)
          (routeTable e) (forwarding e) (tcpSACKEnabled e)
          (tcpAlwaysUseSynCookies e) (destroyed e).

Definition with_nics (n : gmap Z NICState) (e : Stack) : Stack :=
  mkStack (NetworkProtocols e) (TransportProtocols e) (HandleLocal e)
          (icmpLimit e) (icmpBurst e) (transportHandlers e) n (routeTable e)
          (forwarding e) (tcpSACKEnabled e) (tcpAlwaysUseSynCookies e) (destroyed e).

(** [Stack.CreateNIC]: refused when the id is taken, or when the engine
    reports another failure [fault] for this link. *)
Definition CreateNIC (id : Z) (ep : LinkEndpoint) (fault : option error) (e : Stack)
    : Stack + error :=
  match fault with
  | Some msg => inr msg
  | None =>
      match nics e !! id with
      | Some _ => inr "duplicate nic id"%string
      | None => inl (with_nics (<[id := mkNIC ep false false]> (nics e)) e)
      end
  end.

Definition SetRouteTable (t : list Route) (e : Stack) : Stack :=
  mkStack (NetworkProtocols e) (TransportProtocols e) (HandleLocal e)
          (icmpLimit e) (icmpBurst e) (transportHandlers e) (nics e) t
          (forwarding e) (tcpSACKEnabled e) (tcpAlwaysUseSynCookies e) (destroyed e).

(** [Stack.SetForwardingDefaultAndAllNICs]: ignored for a network protocol the
    engine was not built with. *)
Definition SetForwardingDefaultAndAllNICs (p : NetworkProtocolNumber) (enable : bool)
    (e : Stack) : Stack :=
  if bool_decide (p ∈ NetworkProtocols e) then
    mkStack (NetworkProtocols e) (TransportProtocols e) (HandleLocal e)
            (icmpLimit e) (icmpBurst e) (transportHandlers e) (nics e)
            (routeTable e) (<[p:=enable]> (forwarding e)) (tcpSACKEnabled e)
            (tcpAlwaysUseSynCookies e) (destroyed e)
  else e.

(** The two TCP options the package sets through
    [Stack.SetTransportProtocolOption(tcp.ProtocolNumber, &opt)]. *)
Inductive TCPOption :=
| TCPSACKEnabled (v : bool)
| TCPAlwaysUseSynCookies (v : bool).

Definition SetTransportProtocolOption (p : TransportProtocolNumber) (o : TCPOption)
    (e : Stack) : Stack :=
  if bool_decide (p = tcp_ProtocolNumber ∧ p ∈ TransportProtocols e) then
    match o with
    | TCPSACKEnabled v =>
        mkStack (NetworkProtocols e) (TransportProtocols e) (HandleLocal e)
                (icmpLimit e) (icmpBurst e) (transportHandlers e) (nics e)
                (routeTable e) (forwarding e) v (tcpAlwaysUseSynCookies e)
                (destroyed e)
    | TCPAlwaysUseSynCookies v =>
        mkStack (NetworkProtocols e) (TransportProtocols e) (HandleLocal e)
                (icmpLimit e) (icmpBurst e) (transportHandlers e) (nics e)
                (routeTable e) (forwarding e) (tcpSACKEnabled e) v (destroyed e)
    end
  else e.

(** [Stack.SetPromiscuousMode] and [Stack.SetSpoofing]: ignored for an unknown
    NIC id (the package drops the error). *)
Definition SetPromiscuousMode (id : Z) (enable : bool) (e : Stack) : Stack :=
  match nics e !! id with
  | Some n => with_nics (<[id := mkNIC (nic_link n) enable (nic_spoofing n)]> (nics e)) e
  | None => e
  end.

Definition SetSpoofing (id : Z) (enable : bool) (e : Stack) : Stack :=
  match nics e !! id with
  | Some n => with_nics (<[id := mkNIC (nic_link n) (nic_promiscuous n) enable]> (nics e)) e
  | None => e
  end.

(** [Stack.Destroy] *)
Definition stack_Destroy (e : Stack) : Stack :=
  mkStack (NetworkProtocols e) (TransportProtocols e) (HandleLocal e)
          (icmpLimit e) (icmpBurst e) (transportHandlers e) (nics e) (routeTable e)
          (forwarding e) (tcpSACKEnabled e) (tcpAlwaysUseSynCookies e) true.

(* --------------------------------------------------------------------- *)
(** *** The world outside the package, and what a call may do to it *)

(** What the surroundings will answer.  [tun_devices] are the interface names
    [tun.Open] can attach to; the three faults are the failures the engine, the
    echo responder and [close(2)] report when asked; [closeChan_cap] is the
    capacity of the channel the echo responder hands back;
    [complete_single_use] says whether the engine panics when [Complete] is
    called on a request it has completed before. *)
Record Env := mkEnv {
  tun_devices : list string;
  createNIC_fault : option error;
  icmpResponder_fault : option error;
  closeChan_cap : nat;
  close_fault : option error;
  complete_single_use : bool
}.

(** A [chan bool] whose one reader is the echo responder. *)
Record Chan := mkChan {
  chan_cap : nat;
  chan_len : nat;
  chan_receiver : bool
}.

Definition ChanPtr := nat.

(** Calls that leave the package, in the order they are made. *)
Inductive Event :=
| EvTunOpen (name : string) (fd : Z)
| EvResponderStart (c : ChanPtr)
| EvResponderStop (c : ChanPtr)
| EvClose (fd : Z)
| EvStackDestroy
| EvComplete (r : ReqPtr) (sendReset : bool)
| EvSlogError (msg : string) (err : error).

#[global] Instance Event_eq_dec : EqDecision Event.
Proof. solve_decision. Defined.

Record World := mkWorld {
  env : Env;
  open_fds : list Z;
  pools : list ConnPool;
  chans : list Chan;
  trace : list Event
}.

Definition with_open_fds (f : list Z) (w : World) : World :=
  mkWorld (env w) f (pools w) (chans w) (trace w).
Definition with_pools (p : list ConnPool) (w : World) : World :=
  mkWorld (env w) (open_fds w) p (chans w) (trace w).
Definition with_chans (c : list Chan) (w : World) : World :=
  mkWorld (env w) (open_fds w) (pools w) c (trace w).
Definition with_trace (t : list Event) (w : World) : World :=
  mkWorld (env w) (open_fds w) (pools w) (chans w) t.

(** How a call ends: it returns, the goroutine waits for ever, or it panics. *)
Inductive Outcome (A : Type) :=
| Returns (a : A) (w : World)
| Blocks (w : World)
| Panics (w : World).
Arguments Returns {A} a w.
Arguments Blocks {A} w.
Arguments Panics {A} w.

Definition M (A : Type) : Type := World -> Outcome A.

Definition ret {A} (a : A) : M A := fun w => Returns a w.

Definition bind {A B} (c : M A) (k : A -> M B) : M B :=
  fun w =>
    match c w with
    | Returns a w' => k a w'
    | Blocks w' => Blocks w'
    | Panics w' => Panics w'
    end.

Notation "x <- c1 ;; c2" := (bind c1 (fun x => c2))
  (at level 100, c1 at next level, right associativity).
Notation "c1 ;; c2" := (bind c1 (fun _ => c2))
  (at level 100, right associativity).

Definition panic {A} : M A := fun w => Panics w.
Definition block {A} : M A := fun w => Blocks w.

Definition emit (e : Event) : M unit :=
  fun w => Returns tt (with_trace (trace w ++ [e]) w).

(** The world an outcome ends in. *)
Definition final {A} (o : Outcome A) : World :=
  match o with Returns _ w | Blocks w | Panics w => w end.

(** Whether [Complete] has been called on request [r] so far. *)
Definition completed (r : ReqPtr) (tr : list Event) : bool :=
  bool_decide (EvComplete r true ∈ tr ∨ EvComplete r false ∈ tr).

(** [tcp.ForwarderRequest.Complete(sendReset)] is the engine's: the call is
    recorded with its flag.  What the engine does with a request it has
    completed before is its own business; the world says whether it panics
    or lets the call through again. *)
Definition ForwarderRequest_Complete (r : ReqPtr) (sendReset : bool) : M unit :=
  fun w =>
    let w' := with_trace (trace w ++ [EvComplete r sendReset]) w in
    if complete_single_use (env w) && completed r (trace w) then Panics w'
    else Returns tt w'.

(** [slog.Error("Netstack encountered an error", slog.Any("error", err))] *)
Definition slog_Error (msg : string) (err : error) : M unit :=
  emit (EvSlogError msg err).

(** The lowest descriptor number that is not open, as [open(2)] picks it. *)
Fixpoint lowest_free (fds : list Z) (fuel : nat) (n : Z) : Z :=
  match fuel with
  | O => n
  | S k => if bool_decide (n ∈ fds) then lowest_free fds k (n + 1) else n
  end.

(** Modelled from the spec: [tun.Open], of the package's [tun] directory, which
    is not among the sources.  Section 6: [OpenInterface(name)] answers a link
    handle and a descriptor, or an error. *)
Definition tun_Open (name : string) : M ((LinkEndpoint * Z) + error) :=
  fun w =>
    if bool_decide (name ∈ tun_devices (env w)) then
      let fd := lowest_free (open_fds w) (length (open_fds w)) 0 in
      Returns (inl (mkLinkEndpoint fd, fd))
              (with_trace (trace w ++ [EvTunOpen name fd])
                 (with_open_fds (fd :: open_fds w) w))
    else Returns (inr "no such device"%string) w.

Definition EBADF : error := "bad file descriptor"%string.

(** [unix.Close]: [EBADF] for a descriptor that is not open; an open one is
    released, also when the kernel reports a failure while doing so. *)
Definition unix_Close (fd : Z) : M (option error) :=
  fun w =>
    let w' := with_trace (trace w ++ [EvClose fd]) w in
    if bool_decide (fd ∈ open_fds w) then
      Returns (close_fault (env w))
              (with_open_fds (filter (fun x => x ≠ fd) (open_fds w)) w')
    else Returns (Some EBADF) w'.

(** Modelled from the spec: [icmpResponder], declared in a file of the package
    that is not among the sources.  Section 4.3: a background task that answers
    echo requests and runs until it is signalled to stop; it hands back the
    channel the signal is sent on. *)
Definition icmpResponder : M (ChanPtr + error) :=
  fun w =>
    match icmpResponder_fault (env w) with
    | Some msg => Returns (inr msg) w
    | None =>
        let c := length (chans w) in
        Returns (inl c)
                (with_trace (trace w ++ [EvResponderStart c])
                   (with_chans (chans w ++ [mkChan (closeChan_cap (env w)) 0 true]) w))
    end.

(** [ch <- true]: a nil channel blocks for ever; a waiting receiver takes the
    value (the responder then stops); otherwise the value is buffered if there
    is room, and the sender blocks if there is none. *)
Definition chan_send (ch : option ChanPtr) : M unit :=
  fun w =>
    match ch with
    | None => Blocks w
    | Some c =>
        match chans w !! c with
        | None => Panics w
        | Some st =>
            if chan_receiver st then
              Returns tt
                (with_trace (trace w ++ [EvResponderStop c])
                   (with_chans (<[c := mkChan (chan_cap st) (chan_len st) false]> (chans w)) w))
            else if (chan_len st <? chan_cap st)%nat then
              Returns tt
                (with_chans (<[c := mkChan (chan_cap st) (S (chan_len st)) false]> (chans w)) w)
            else Blocks w
        end
    end.

(** [p.Closed()] and [p.Add(c)] through a pool pointer. *)
Definition pool_Closed (p : PoolPtr) : M bool :=
  fun w =>
    match pools w !! p with
    | Some cp => Returns (ConnPool_Closed cp) w
    | None => Panics w
    end.

Definition pool_Add (p : PoolPtr) (c : TunConn) : M (option error) :=
  fun w =>
    match pools w !! p with
    | Some cp =>
        let '(cp', err) := ConnPool_Add c cp in
        Returns err (with_pools (<[p := cp']> (pools w)) w)
    | None => Panics w
    end.

(* --------------------------------------------------------------------- *)
(** *** TunConn: accessors and Terminate *)

(** [t.Handler.(TCPConn)]: a type assertion, which panics on any other
    dynamic type. *)
Definition GetTCP (t : TunConn) : M TCPConn :=
  match Handler t with AnyTCPConn c => ret c | _ => panic end.

Definition GetUDP (t : TunConn) : M UDPConn :=
  match Handler t with AnyUDPConn c => ret c | _ => panic end.

Definition GetICMP (t : TunConn) : M ICMPConn :=
  match Handler t with AnyICMPConn c => ret c | _ => panic end.

(** [func (t TunConn) Terminate(reset bool)] *)
Definition Terminate (t : TunConn) (reset : bool) : M unit :=
  if IsTCP t then
    c <- GetTCP t ;;
    ForwarderRequest_Complete (tcp_Request c) reset
  else ret tt.

(** The calls to [Complete] on request [r] that ask for a reset. *)
Definition resets_of (r : ReqPtr) (tr : list Event) : nat :=
  length (filter (fun e => e = EvComplete r true) tr).

(* --------------------------------------------------------------------- *)
(** *** NetStack *)

(** [type NetStack struct].  [mu] is the embedded [sync.Mutex], [true] while
    it is held; a nil [stack] or [closeChan] is [None]; [pool] is a pointer. *)
Record NetStack := mkNetStack {
  pool : option PoolPtr;
  stack : option Stack;
  mu : bool;
  closeChan : option ChanPtr;
  fd : Z
}.

Definition with_pool (p : option PoolPtr) (s : NetStack) : NetStack :=
  mkNetStack p (stack s) (mu s) (closeChan s) (fd s).
Definition with_stack (e : option Stack) (s : NetStack) : NetStack :=
  mkNetStack (pool s) e (mu s) (closeChan s) (fd s).
Definition with_mu (m : bool) (s : NetStack) : NetStack :=
  mkNetStack (pool s) (stack s) m (closeChan s) (fd s).
Definition with_closeChan (c : option ChanPtr) (s : NetStack) : NetStack :=
  mkNetStack (pool s) (stack s) (mu s) c (fd s).
Definition with_fd (f : Z) (s : NetStack) : NetStack :=
  mkNetStack (pool s) (stack s) (mu s) (closeChan s) f.

(** [type StackSettings struct] *)
Record StackSettings := mkStackSettings {
  TunName : string;
  MaxInflight : Z
}.

(** [s.Lock()] waits while the mutex is held; [s.Unlock()] of a mutex that is
    not held is a fatal error. *)
Definition Lock (s : NetStack) : M NetStack :=
  if mu s then block else ret (with_mu true s).

Definition Unlock (s : NetStack) : M NetStack :=
  if mu s then ret (with_mu false s) else panic.

(** [func (s *NetStack) GetStack() *stack.Stack] *)
Definition GetStack (s : NetStack) : option Stack := stack s.

(** [func (s *NetStack) SetConnPool(connPool *ConnPool)] *)
Definition SetConnPool (connPool : option PoolPtr) (s : NetStack) : M NetStack :=
  s <- Lock s ;;
  let s := with_pool connPool s in
  Unlock s.

(** The guard of both forwarder callbacks:
    [s.pool == nil || s.pool.Closed()]. *)
Definition pool_unset_or_closed (s : NetStack) : M bool :=
  match pool s with
  | None => ret true
  | Some p => pool_Closed p
  end.

(** [if err := s.pool.Add(c); err != nil { slog.Error(...) }]; the value is
    the error that was logged, if any, for those who watch the call. *)
Definition add_or_log (s : NetStack) (c : TunConn) : M (option error) :=
  match pool s with
  | None => panic
  | Some p =>
      err <- pool_Add p c ;;
      match err with
      | Some e => slog_Error "Netstack encountered an error" e ;; ret (Some e)
      | None => ret None
      end
  end.

(** The requests the two callbacks build from what the engine hands them. *)
Definition tcpTunConn (request : ForwarderRequest) : TunConn :=
  mkTunConn tcp_ProtocolNumber
            (AnyTCPConn (mkTCPConn (req_ID request) (req_ptr request))).

Definition udpTunConn (request : ForwarderRequest) : TunConn :=
  mkTunConn udp_ProtocolNumber
            (AnyUDPConn (mkUDPConn (req_ID request) (req_ptr request))).

(** The callback given to [tcp.NewForwarder] in [new]; the deferred
    [s.Unlock()] runs on both ways out. *)
Definition tcpHandler (request : ForwarderRequest) (s : NetStack) : M NetStack :=
  let conn := tcpTunConn request in
  s <- Lock s ;;
  drop <- pool_unset_or_closed s ;;
  if drop then Unlock s
  else (add_or_log s conn ;; Unlock s).

(** The callback given to [udp.NewForwarder] in [new]. *)
Definition udpHandler (request : ForwarderRequest) (s : NetStack) : M NetStack :=
  let conn := udpTunConn request in
  s <- Lock s ;;
  drop <- pool_unset_or_closed s ;;
  if drop then Unlock s
  else (add_or_log s conn ;; Unlock s).

(** The options [new] builds the engine with. *)
Definition new_options : Options :=
  mkOptions [ipv4_ProtocolNumber; ipv6_ProtocolNumber]
            [tcp_ProtocolNumber; udp_ProtocolNumber;
             icmp_ProtocolNumber4; icmp_ProtocolNumber6]
            false.

(** [func (s *NetStack) new(stackSettings StackSettings) ( *stack.Stack, error)].
    [ns] and [s.stack] are one pointer, so the handle always holds the engine
    as configured so far.  The result is the handle, then the two values the
    Go function returns. *)
Definition new (stackSettings : StackSettings) (s : NetStack)
    : M (NetStack * (option Stack * option error)) :=
  let ns := stack_New new_options in
  let ns := SetICMPLimit 0 ns in
  let ns := SetICMPBurst 0 ns in
  let tcpH := TCPForwarder 0 (MaxInflight stackSettings) in
  let udpH := UDPForwarder in
  let ns := SetTransportProtocolHandler tcp_ProtocolNumber tcpH ns in
  let ns := SetTransportProtocolHandler udp_ProtocolNumber udpH ns in
  let s := with_stack (Some ns) s in
  r <- tun_Open (TunName stackSettings) ;;
  match r with
  | inr err => ret (s, (None, Some err))
  | inl (linkEP, fd) =>
      let s := with_fd fd s in
      fun w =>
      match CreateNIC 1 linkEP (createNIC_fault (env w)) ns with
      | inr err => Returns (s, (None, Some err)) w
      | inl ns =>
          let s := with_stack (Some ns) s in
          (r <- icmpResponder ;;
           match r with
           | inr err => ret (s, (None, Some err))
           | inl closeChan =>
               let s := with_closeChan (Some closeChan) s in
               let ns := SetRouteTable [mkRoute IPv4EmptySubnet 1;
                                        mkRoute IPv6EmptySubnet 1] ns in
               let ns := SetForwardingDefaultAndAllNICs ipv4_ProtocolNumber false ns in
               let ns := SetForwardingDefaultAndAllNICs ipv6_ProtocolNumber false ns in
               let ns := SetTransportProtocolOption tcp_ProtocolNumber
                           (TCPSACKEnabled false) ns in
               let ns := SetTransportProtocolOption tcp_ProtocolNumber
                           (TCPAlwaysUseSynCookies false) ns in
               let ns := SetPromiscuousMode 1 true ns in
               let ns := SetSpoofing 1 true ns in
               ret (with_stack (Some ns) s, (Some ns, None))
           end) w
      end
  end.

(** [func NewStack(settings StackSettings, connPool *ConnPool) ( *NetStack, error)]:
    [&ns] is returned whatever [new] answered. *)
Definition NewStack (settings : StackSettings) (connPool : option PoolPtr)
    : M (NetStack * option error) :=
  let ns := mkNetStack connPool None false None 0 in
  r <- new settings ns ;;
  let '(ns, (_, err)) := r in
  ret (ns, err).

(** [func (s *NetStack) Destroy() error] *)
Definition Destroy (s : NetStack) : M (NetStack * option error) :=
  chan_send (closeChan s) ;;
  err <- unix_Close (fd s) ;;
  match err with
  | Some e => ret (s, Some e)
  | None =>
      match stack s with
      | None => panic
      | Some e =>
          emit EvStackDestroy ;;
          ret (with_stack (Some (stack_Destroy e)) s, None)
      end
  end.

End Netstack.

(* ===================================================================== *)
(** ** The callbacks and SetConnPool as interleaved threads *)
(* ===================================================================== *)

Module Race.
Import Netstack.

(** How a forwarder callback ended: it dropped the request at the guard, or
    [Add] on pool [p] took it, or [Add] on pool [p] refused it. *)
Inductive Result :=
| Dropped
| Added (p : PoolPtr)
| Refused (p : PoolPtr).

(** Where a forwarder callback stands.  [seen] is the value of [s.pool] at the
    moment the callback got the lock; it is carried along for the statements
    below and never read by a step. *)
Inductive FwdPC :=
| FAtLock
| FAtGuard (seen : option PoolPtr)
| FAtAdd (seen : option PoolPtr)
| FAtUnlock (seen : option PoolPtr) (r : Result)
| FDone (seen : option PoolPtr) (r : Result).

(** Where a call of [SetConnPool] stands. *)
Inductive SetPC :=
| SAtLock
| SAtAssign
| SAtUnlock
| SDone.

Inductive Thread :=
| Forwarder (c : TunConn) (pc : FwdPC)
| Setter (p : option PoolPtr) (pc : SetPC).

(** One statement of a thread, run atomically on the shared handle and world;
    [None] when the thread cannot move (it waits for the lock, it has
    returned, or the statement panics and ends the process). *)
Definition step_thread (t : Thread) (s : NetStack) (w : World)
    : option (Thread * NetStack * World) :=
  match t with
  | Forwarder c FAtLock =>
      match Lock s w with
      | Returns s' w' => Some (Forwarder c (FAtGuard (pool s')), s', w')
      | _ => None
      end
  | Forwarder c (FAtGuard seen) =>
      match pool_unset_or_closed s w with
      | Returns true w' => Some (Forwarder c (FAtUnlock seen Dropped), s, w')
      | Returns false w' => Some (Forwarder c (FAtAdd seen), s, w')
      | _ => None
      end
  | Forwarder c (FAtAdd seen) =>
      match pool s, add_or_log s c w with
      | Some p, Returns None w' => Some (Forwarder c (FAtUnlock seen (Added p)), s, w')
      | Some p, Returns (Some _) w' => Some (Forwarder c (FAtUnlock seen (Refused p)), s, w')
      | _, _ => None
      end
  | Forwarder c (FAtUnlock seen r) =>
      match Unlock s w with
      | Returns s' w' => Some (Forwarder c (FDone seen r), s', w')
      | _ => None
      end
  | Forwarder c (FDone _ _) => None
  | Setter p SAtLock =>
      match Lock s w with
      | Returns s' w' => Some (Setter p SAtAssign, s', w')
      | _ => None
      end
  | Setter p SAtAssign => Some (Setter p SAtUnlock, with_pool p s, w)
  | Setter p SAtUnlock =>
      match Unlock s w with
      | Returns s' w' => Some (Setter p SDone, s', w')
      | _ => None
      end
  | Setter p SDone => None
  end.

(** The whole system: the one [NetStack], the world, the threads, and what the
    consumers have taken out of the pools so far. *)
Record Sys := mkSys {
  self : NetStack;
  world : World;
  threads : list Thread;
  taken : list (PoolPtr * TunConn)
}.

(** What the scheduler may pick next: a thread, the owner of a pool closing
    it, or a consumer taking the oldest request of a pool. *)
Inductive Action :=
| Run (tid : nat)
| ClosePool (p : PoolPtr)
| TakeFrom (p : PoolPtr).

Definition exec (a : Action) (σ : Sys) : Sys :=
  match a with
  | Run i =>
      match threads σ !! i with
      | Some t =>
          match step_thread t (self σ) (world σ) with
          | Some (t', s', w') => mkSys s' w' (<[i := t']> (threads σ)) (taken σ)
          | None => σ
          end
      | None => σ
      end
  | ClosePool p =>
      match pools (world σ) !! p with
      | Some cp =>
          mkSys (self σ)
                (with_pools (<[p := ConnPool_Close cp]> (pools (world σ))) (world σ))
                (threads σ) (taken σ)
      | None => σ
      end
  | TakeFrom p =>
      match pools (world σ) !! p with
      | Some (mkConnPool b (c :: rest)) =>
          mkSys (self σ)
                (with_pools (<[p := mkConnPool b rest]> (pools (world σ))) (world σ))
                (threads σ) (taken σ ++ [(p, c)])
      | _ => σ
      end
  end.

Definition run (sched : list Action) (σ : Sys) : Sys :=
  fold_left (fun σ a => exec a σ) sched σ.

(** The requests still queued, each with the pool that holds it. *)
Fixpoint queued_from (n : nat) (ps : list ConnPool) : list (PoolPtr * TunConn) :=
  match ps with
  | [] => []
  | cp :: rest => map (pair n) (pool_queue cp) ++ queued_from (S n) rest
  end.

(** Every request some pool has accepted and not lost: taken by a consumer of
    that pool, or still in its queue. *)
Definition delivered (σ : Sys) : list (PoolPtr * TunConn) :=
  taken σ ++ queued_from 0 (pools (world σ)).

(** The successful [Add]s of the callbacks, each with its pool. *)
Definition added_of (t : Thread) : list (PoolPtr * TunConn) :=
  match t with
  | Forwarder c (FAtUnlock _ (Added p)) | Forwarder c (FDone _ (Added p)) => [(p, c)]
  | _ => []
  end.

Definition added (ts : list Thread) : list (PoolPtr * TunConn) :=
  concat (map added_of ts).

(** Threads that hold the lock. *)
Definition in_cs (t : Thread) : bool :=
  match t with
  | Forwarder _ (FAtGuard _) | Forwarder _ (FAtAdd _) | Forwarder _ (FAtUnlock _ _) => true
  | Setter _ SAtAssign | Setter _ SAtUnlock => true
  | _ => false
  end.

Definition weight (t : Thread) : nat := if in_cs t then 1%nat else 0%nat.

Definition holders (ts : list Thread) : nat :=
  length (filter (fun t => in_cs t = true) ts).

(** What the [seen] of a thread has to agree with while [s.pool] is [cur]:
    between taking the lock and calling [Add] it is [cur] itself; once [Add]
    has been called on pool [p] it is [p]. *)
Definition thread_ok (cur : option PoolPtr) (t : Thread) : Prop :=
  match t with
  | Forwarder _ (FAtGuard seen) | Forwarder _ (FAtAdd seen) => seen = cur
  | Forwarder _ (FAtUnlock seen (Added p)) | Forwarder _ (FDone seen (Added p))
  | Forwarder _ (FAtUnlock seen (Refused p)) | Forwarder _ (FDone seen (Refused p)) =>
      seen = Some p
  | _ => True
  end.

(** The requests the callbacks were started with. *)
Definition request_of (t : Thread) : list TunConn :=
  match t with
  | Forwarder c _ => [c]
  | Setter _ _ => []
  end.

Definition requests (ts : list Thread) : list TunConn :=
  concat (map request_of ts).

(** What holds of every state [σ] reached from the start [σ0]. *)
Record Inv (σ0 σ : Sys) : Prop := mkInv {
  inv_mutex : holders (threads σ) = (if mu (self σ) then 1 else 0)%nat;
  inv_seen : Forall (thread_ok (pool (self σ))) (threads σ);
  inv_delivered : delivered σ ≡ₚ delivered σ0 ++ added (threads σ);
  inv_requests : requests (threads σ) = requests (threads σ0)
}.

(** A thread that has not started. *)
Definition fresh (t : Thread) : bool :=
  match t with
  | Forwarder _ FAtLock | Setter _ SAtLock => true
  | _ => false
  end.

(** The start: nobody holds the lock and no thread has started. *)
Definition initial (σ : Sys) : Prop :=
  mu (self σ) = false ∧ forallb fresh (threads σ) = true.

(** A sample run: a TCP and a UDP callback race with [SetConnPool(1)] while
    the stack points at pool 0. *)
Definition sample_tcp : TunConn :=
  tcpTunConn (mkForwarderRequest 11%nat (mkEndpointID 443 [10; 0; 0; 5] 50000 [192; 168; 1; 2])).

Definition sample_udp : TunConn :=
  udpTunConn (mkForwarderRequest 12%nat (mkEndpointID 53 [10; 0; 0; 6] 50001 [192; 168; 1; 2])).

Definition sample_start : Sys :=
  mkSys (mkNetStack (Some 0%nat) None false None 3)
        (mkWorld (mkEnv [] None None 0 None true) [3]
                 [mkConnPool false []; mkConnPool false []] [] [])
        [Forwarder sample_tcp FAtLock; Setter (Some 1%nat) SAtLock;
         Forwarder sample_udp FAtLock]
        [].

Definition sample_sched : list Action :=
  [Run 0; Run 1; Run 0; Run 2; Run 0; Run 0;
   Run 1; Run 2; Run 1; Run 1;
   Run 2; Run 2; Run 2; TakeFrom 0; Run 2]%nat.

End Race.

(* ===================================================================== *)
(** ** Progress of the interleaved threads *)
(* ===================================================================== *)

Module Progress.
Import Netstack Race.








End Progress.

(* ===================================================================== *)
(** ** cmd/client/tui/widgets: the interfaces table *)
(* ===================================================================== *)

Module Widgets.

(** [protocol.NetInterface], with the two fields the widget reads. *)
Record NetInterface := mkNetInterface {
  Name : string;
  Addresses : list string
}.

(** [*session.Session], as the widget sees it: what
    [sess.Interfaces.All()] answers. *)
Record Session := mkSession {
  Interfaces_All : list NetInterface
}.

(** The colours of the [style] package, by name. *)
Inductive Color := ColorDefault | BgColor | BorderColor | FgColor.

(** [tview.TableCell]: the text and the two settings the widget changes. *)
Record TableCell := mkTableCell {
  Text : string;
  Expansion : Z;
  NotSelectable : bool
}.

(** [tview.NewTableCell(text)], [cell.SetExpansion], [cell.SetSelectable]. *)
Definition NewTableCell (text : string) : TableCell := mkTableCell text 0 false.
Definition SetExpansion (e : Z) (c : TableCell) : TableCell :=
  mkTableCell (Text c) e (NotSelectable c).
Definition cell_SetSelectable (selectable : bool) (c : TableCell) : TableCell :=
  mkTableCell (Text c) (Expansion c) (negb selectable).

(** [tview.Table]: the cells by row and column, and the settings the widget
    touches. *)
Record Table := mkTable {
  cells : gmap (nat * nat) TableCell;
  rowsSelectable : bool;
  columnsSelectable : bool;
  selectedRow : nat;
  selectedColumn : nat;
  fixedRows : nat;
  fixedColumns : nat;
  title : string;
  border : bool;
  backgroundColor : Color;
  borderColor : Color;
  titleColor : Color
}.

(** [tview.NewTable()] *)
Definition NewTable : Table :=
  mkTable ∅ false false 0 0 0 0 "" false ColorDefault ColorDefault ColorDefault.

Definition with_cells (m : gmap (nat * nat) TableCell) (t : Table) : Table :=
  mkTable m (rowsSelectable t) (columnsSelectable t) (selectedRow t) (selectedColumn t)
          (fixedRows t) (fixedColumns t) (title t) (border t) (backgroundColor t)
          (borderColor t) (titleColor t).

(** [Table.SetCell], [Table.Clear], [Table.Select], [Table.SetSelectable],
    [Table.SetFixed]. *)
Definition SetCell (row col : nat) (c : TableCell) (t : Table) : Table :=
  with_cells (<[(row, col) := c]> (cells t)) t.

Definition Clear (t : Table) : Table := with_cells ∅ t.

Definition Select (row col : nat) (t : Table) : Table :=
  mkTable (cells t) (rowsSelectable t) (columnsSelectable t) row col
          (fixedRows t) (fixedColumns t) (title t) (border t) (backgroundColor t)
          (borderColor t) (titleColor t).

Definition SetSelectable (rows cols : bool) (t : Table) : Table :=
  mkTable (cells t) rows cols (selectedRow t) (selectedColumn t)
          (fixedRows t) (fixedColumns t) (title t) (border t) (backgroundColor t)
          (borderColor t) (titleColor t).

Definition SetFixed (rows cols : nat) (t : Table) : Table :=
  mkTable (cells t) (rowsSelectable t) (columnsSelectable t) (selectedRow t)
          (selectedColumn t) rows cols (title t) (border t) (backgroundColor t)
          (borderColor t) (titleColor t).

(** The box settings [NewInterfacesWidget] applies. *)
Definition SetBox (ttl : string) (bg bc tc : Color) (b : bool) (t : Table) : Table :=
  mkTable (cells t) (rowsSelectable t) (columnsSelectable t) (selectedRow t)
          (selectedColumn t) (fixedRows t) (fixedColumns t) ttl b bg bc tc.

(** [strings.ToUpper] on the ASCII letters. *)
Definition upper_ascii (c : ascii) : ascii :=
  let n := nat_of_ascii c in
  if ((97 <=? n) && (n <=? 122))%nat then ascii_of_nat (n - 32) else c.

Fixpoint ToUpper (s : string) : string :=
  match s with
  | EmptyString => EmptyString
  | String c rest => String (upper_ascii c) (ToUpper rest)
  end.

(** [fmt.Sprintf("[::b]%s", strings.ToUpper(s))] *)
Definition bold_upper (s : string) : string := String.append "[::b]" (ToUpper s).

(** [type InterfacesWidget struct] *)
Record InterfacesWidget := mkInterfacesWidget {
  table : Table;
  data : list NetInterface;
  selectedSession : option Session
}.

(** [func (widget *InterfacesWidget) ResetSelector()] *)
Definition ResetSelector (w : InterfacesWidget) : InterfacesWidget :=
  if (0 <? length (data w))%nat
  then mkInterfacesWidget (Select 1 0 (table w)) (data w) (selectedSession w)
  else w.

(** The header cell of [Refresh]. *)
Definition header_cell (h : string) : TableCell :=
  cell_SetSelectable false (SetExpansion 1 (NewTableCell (bold_upper h))).

(** The first loop of [Refresh], from column [i] on. *)
Fixpoint set_headers (i : nat) (headers : list string) (t : Table) : Table :=
  match headers with
  | [] => t
  | h :: rest => set_headers (S i) rest (SetFixed 1 0 (SetCell 0 i (header_cell h) t))
  end.

(** The inner loop of [Refresh]: one row per address, from row [rowId] on;
    the result carries the next free row. *)
Fixpoint set_addresses (name : string) (ips : list string) (rowId : nat) (t : Table)
    : nat * Table :=
  match ips with
  | [] => (rowId, t)
  | ip :: rest =>
      set_addresses name rest (S rowId)
        (SetCell rowId 1 (NewTableCell ip) (SetCell rowId 0 (NewTableCell name) t))
  end.

(** The outer loop of [Refresh]. *)
Fixpoint set_interfaces (ifs : list NetInterface) (rowId : nat) (t : Table)
    : nat * Table :=
  match ifs with
  | [] => (rowId, t)
  | elem :: rest =>
      let '(rowId', t') := set_addresses (Name elem) (Addresses elem) rowId t in
      set_interfaces rest rowId' t'
  end.

(** [func (widget *InterfacesWidget) Refresh()] *)
Definition Refresh (w : InterfacesWidget) : InterfacesWidget :=
  let t := set_headers 0 ["Name"; "IP"]%string (table w) in
  match selectedSession w with
  | Some sess =>
      mkInterfacesWidget (snd (set_interfaces (Interfaces_All sess) 1 t))
                         (data w) (selectedSession w)
  | None => mkInterfacesWidget t (data w) (selectedSession w)
  end.

(** The two loops of [SetData]: every interface of every session, appended in
    order. *)
Fixpoint append_interfaces (ifs : list NetInterface) (acc : list NetInterface)
    : list NetInterface :=
  match ifs with
  | [] => acc
  | iface :: rest => append_interfaces rest (acc ++ [iface])
  end.

Fixpoint append_sessions (ss : list Session) (acc : list NetInterface)
    : list NetInterface :=
  match ss with
  | [] => acc
  | sess :: rest => append_sessions rest (append_interfaces (Interfaces_All sess) acc)
  end.

(** [func (widget *InterfacesWidget) SetData(data []*session.Session)] *)
Definition SetData (ss : list Session) (w : InterfacesWidget) : InterfacesWidget :=
  let w := mkInterfacesWidget (Clear (table w)) (data w) (selectedSession w) in
  let w := mkInterfacesWidget (table w) [] (selectedSession w) in
  let w := mkInterfacesWidget (table w) (append_sessions ss (data w)) (selectedSession w) in
  Refresh w.

(** [func (widget *InterfacesWidget) SetSelectedSession(sess *session.Session)] *)
Definition SetSelectedSession (sess : option Session) (w : InterfacesWidget)
    : InterfacesWidget :=
  let w := mkInterfacesWidget (Clear (table w)) (data w) (selectedSession w) in
  let w := mkInterfacesWidget (table w) (data w) sess in
  Refresh w.

(** The two callbacks [NewInterfacesWidget] installs with [SetFocusFunc] and
    [SetBlurFunc]. *)
Definition onFocus (w : InterfacesWidget) : InterfacesWidget :=
  ResetSelector
    (mkInterfacesWidget (SetSelectable true false (table w)) (data w) (selectedSession w)).

Definition onBlur (w : InterfacesWidget) : InterfacesWidget :=
  mkInterfacesWidget (SetSelectable false false (table w)) (data w) (selectedSession w).

(** [func NewInterfacesWidget() *InterfacesWidget] *)
Definition NewInterfacesWidget : InterfacesWidget :=
  mkInterfacesWidget
    (SetBox (bold_upper "interfaces") BgColor BorderColor FgColor true
       (SetSelectable false false NewTable))
    [] None.

(** The rows a session is shown as: one (name, address) pair per address of
    each interface, in order. *)
Definition rows_of (ifs : list NetInterface) : list (string * string) :=
  flat_map (fun e => map (pair (Name e)) (Addresses e)) ifs.

(** The cell of row [k] of a list of rows: the name in column 0, the address
    in column 1, nothing elsewhere. *)
Definition row_cell (rows : list (string * string)) (k col : nat) : option TableCell :=
  match rows !! k, col with
  | Some (name, _), 0%nat => Some (NewTableCell name)
  | Some (_, ip), 1%nat => Some (NewTableCell ip)
  | _, _ => None
  end.

(** The cell [Refresh] writes at a position, if it writes one there: the two
    header cells in row 0, and below them the rows of the selected session. *)
Definition rendered (sess : option Session) (row col : nat) : option TableCell :=
  match row with
  | O =>
      match col with
      | 0%nat => Some (header_cell "Name")
      | 1%nat => Some (header_cell "IP")
      | _ => None
      end
  | S k =>
      match sess with
      | None => None
      | Some s => row_cell (rows_of (Interfaces_All s)) k col
      end
  end.

End Widgets.

(* ===================================================================== *)
(** ** The asset service (the file of package asset) *)
(* ===================================================================== *)

Module Asset.

(** Errors, by what produced them: [net.AddrError] with its reason and
    address, the three [fmt.Errorf] of [CompileAgent], and whatever the
    operating system or another package reported. *)
Inductive Err :=
| AddrError (why addr : string)
| InvalidServer (server : string) (cause : Err)
| InvalidProxy (proxy : string) (cause : Err)
| UnsupportedScheme (scheme : string)
| Reported (msg : string).

(** *** Strings *)

(** [strings.IndexByte] and [strings.LastIndexByte]: [None] stands for -1. *)
Fixpoint IndexByte (s : string) (c : ascii) : option nat :=
  match s with
  | EmptyString => None
  | String a rest =>
      if Ascii.eqb a c then Some O
      else match IndexByte rest c with
           | Some i => Some (S i)
           | None => None
           end
  end.

Fixpoint LastIndexByte (s : string) (c : ascii) : option nat :=
  match s with
  | EmptyString => None
  | String a rest =>
      match LastIndexByte rest c with
      | Some i => Some (S i)
      | None => if Ascii.eqb a c then Some O else None
      end
  end.

(** [s[i:]] and [s[i:j]]. *)
Definition from (i : nat) (s : string) : string :=
  substring i (String.length s - i) s.
Definition slice (i j : nat) (s : string) : string :=
  substring i (j - i) s.

(** [strings.Split(s, "\n")]: the pieces between the line feeds, always at
    least one. *)
Fixpoint split_lines_from (cur : string) (s : string) : list string :=
  match s with
  | EmptyString => [cur]
  | String a rest =>
      if Ascii.eqb a "010"%char then cur :: split_lines_from EmptyString rest
      else split_lines_from (cur ++ String a EmptyString)%string rest
  end.

Definition Split_lines (s : string) : list string := split_lines_from EmptyString s.

(** [net.SplitHostPort] *)
Definition SplitHostPort (hostport : string) : (string * string) + Err :=
  let missingPort := "missing port in address"%string in
  let tooManyColons := "too many colons in address"%string in
  let addrErr (why : string) : (string * string) + Err := inr (AddrError why hostport) in
  match LastIndexByte hostport ":"%char with
  | None => addrErr missingPort
  | Some i =>
      let checked (host : string) (j k : nat) : (string * string) + Err :=
        if IndexByte (from j hostport) "["%char is Some _ then addrErr "unexpected '[' in address"%string
        else if IndexByte (from k hostport) "]"%char is Some _ then addrErr "unexpected ']' in address"%string
        else inl (host, from (S i) hostport) in
      match String.get 0 hostport with
      | Some "["%char =>
          match IndexByte hostport "]"%char with
          | None => addrErr "missing ']' in address"%string
          | Some end_ =>
              if (S end_ =? String.length hostport)%nat then addrErr missingPort
              else if (S end_ =? i)%nat then checked (slice 1 end_ hostport) 1%nat (S end_)
              else match String.get (S end_) hostport with
                   | Some ":"%char => addrErr tooManyColons
                   | _ => addrErr missingPort
                   end
          end
      | _ =>
          let host := slice 0 i hostport in
          if IndexByte host ":"%char is Some _ then addrErr tooManyColons
          else checked host 0%nat 0%nat
      end
  end.

(** *** The operating system and the other packages *)

(** An entry of a zip archive ([zip.File]): its name, whether
    [FileInfo().IsDir()] holds, its [Mode()] and its uncompressed content. *)
Record ZipFile := {
  Name : string;
  IsDir : bool;
  Mode : nat;
  Body : list Byte.byte;
}.

Inductive OpenFlag := O_RDWR | O_WRONLY | O_CREATE | O_TRUNC.

(** The anonymous struct [renderAgent] hands to the template. *)
Record AgentData := {
  ProxyServer : string;
  Servers : string;
  data_CACert : string;
  data_AgentCert : string;
  data_AgentKey : string;
  data_IgnoreEnvProxy : bool;
}.

(** [gogo.GoConfig], with the fields [CompileAgent] sets. *)
Record GoConfig := {
  CGO : string;
  GOOS : string;
  GOARCH : string;
  GOROOT : string;
  GOCACHE : string;
  GOMODCACHE : string;
  ProjectDir : string;
  Obfuscate : bool;
  GOGARBLE : string;
}.

(** The calls that leave the package, in the order they are made. *)
Inductive Call :=
| xid_New
| os_Stat (path : string)
| os_MkdirAll (path : string) (perm : nat)
| os_RemoveAll (path : string)
| os_OpenFile (path : string) (flags : list OpenFlag) (perm : nat)
| os_ReadFile (path : string)
| file_Close (path : string)
| buffer_WriteTo (path : string) (data : list Byte.byte)
| zip_Open (f : ZipFile)
| zip_Close (f : ZipFile)
| io_Copy (path : string) (f : ZipFile)
| template_ParseFiles (path : string)
| template_Execute (data : AgentData)
| gogo_GoBuild (cfg : GoConfig) (src dest : string).

(** What the package cannot decide: the configuration, the path functions,
    the embedded archives, the parsers, and the answer to every call, which
    may depend on all the calls made before it.  [isNotExist] is
    [os.IsNotExist] on the errors of this environment. *)
Record Env := {
  GetAssetsDir : string;
  Join : list string -> string;
  Dir : string -> string;
  GetGoRootDir : string -> string;
  GetGoCache : string -> string;
  GetGoModCache : string -> string;
  GetGoArchive : list Byte.byte + Err;
  GetAgentArchive : list Byte.byte + Err;
  zip_NewReader : list Byte.byte -> list ZipFile + Err;
  url_Parse : string -> string + Err;
  isNotExist : Err -> bool;
  fresh_id : list Call -> string;
  fails : list Call -> Call -> option Err;
  executed : list Call -> AgentData -> list Byte.byte + Err;
  file_content : list Call -> string -> list Byte.byte + Err;
}.

(** [0700] *)
Definition perm_0700 : nat := 448.

Section Service.

Variable env : Env.

(** A computation reads the calls made so far and appends its own. *)
Definition M (A : Type) : Type := list Call -> A * list Call.

Definition ret {A} (a : A) : M A := fun tr => (a, tr).

Definition bind {A B} (c : M A) (k : A -> M B) : M B :=
  fun tr => let '(a, tr') := c tr in k a tr'.

Local Notation "x <- c1 ;; c2" := (bind c1 (fun x => c2))
  (at level 100, c1 at next level, right associativity).

(** A call whose only answer is an error or none. *)
Definition call (c : Call) : M (option Err) :=
  fun tr => (fails env tr c, tr ++ [c]).

Definition xid_New_String : M string :=
  fun tr => (fresh_id env tr, tr ++ [xid_New]).

Definition Execute (data : AgentData) : M (list Byte.byte + Err) :=
  fun tr => (executed env tr data, tr ++ [template_Execute data]).

Definition ReadFile (path : string) : M (list Byte.byte + Err) :=
  fun tr => (file_content env tr path, tr ++ [os_ReadFile path]).

(** [os.IsNotExist(err)], false on a nil error. *)
Definition IsNotExist (err : option Err) : bool :=
  match err with
  | Some e => isNotExist env e
  | None => false
  end.

(** *** unzipBuf *)

(** The body of the loop over [reader.File].  [filenames] is the slice
    built so far and [deferred] the readers whose [Close] is deferred, the
    latest first. *)
Fixpoint unzip_files (dest : string) (files : list ZipFile)
    (filenames : list string) (deferred : list ZipFile)
    : M (list string * option Err * list ZipFile) :=
  match files with
  | [] => ret (filenames, None, deferred)
  | file :: rest =>
      err <- call (zip_Open file) ;;
      match err with
      | Some e => ret (filenames, Some e, deferred)
      | None =>
          let deferred := file :: deferred in
          let fPath := Join env [dest; Name file] in
          let filenames := filenames ++ [fPath] in
          if IsDir file then
            _ <- call (os_MkdirAll fPath perm_0700) ;;
            unzip_files dest rest filenames deferred
          else
            err <- call (os_MkdirAll (Dir env fPath) perm_0700) ;;
            match err with
            | Some e => ret (filenames, Some e, deferred)
            | None =>
                err <- call (os_OpenFile fPath [O_WRONLY; O_CREATE; O_TRUNC] (Mode file)) ;;
                match err with
                | Some e => ret (filenames, Some e, deferred)
                | None =>
                    err <- call (io_Copy fPath file) ;;
                    _ <- call (file_Close fPath) ;;
                    match err with
                    | Some e => ret (filenames, Some e, deferred)
                    | None => unzip_files dest rest filenames deferred
                    end
                end
            end
      end
  end.

(** The deferred [rc.Close()] calls, run when the function returns. *)
Fixpoint run_deferred (deferred : list ZipFile) : M unit :=
  match deferred with
  | [] => ret tt
  | f :: rest => _ <- call (zip_Close f) ;; run_deferred rest
  end.

Definition unzipBuf (src : list Byte.byte) (dest : string) : M (list string * option Err) :=
  match zip_NewReader env src with
  | inr e => ret ([], Some e)
  | inl files =>
      r <- unzip_files dest files [] [] ;;
      let '(filenames, err, deferred) := r in
      _ <- run_deferred deferred ;;
      ret (filenames, err)
  end.

(** *** UnpackDistGo *)

Definition UnpackDistGo : M (option Err) :=
  err <- call (os_RemoveAll (Join env [GetAssetsDir env; "go"%string])) ;;
  match err with
  | Some e => ret (Some e)
  | None =>
      match GetGoArchive env with
      | inr e => ret (Some e)
      | inl a =>
          r <- unzipBuf a (GetAssetsDir env) ;;
          match snd r with
          | Some e => ret (Some e)
          | None => ret None
          end
      end
  end.

(** *** setupAgentDir *)

Definition setupAgentDir : M (string * option Err) :=
  id <- xid_New_String ;;
  let agentDir := Join env [GetAssetsDir env; "agents"%string; id] in
  err <- call (os_Stat agentDir) ;;
  if IsNotExist err then
    err <- call (os_MkdirAll agentDir perm_0700) ;;
    match err with
    | Some e => ret (EmptyString, Some e)
    | None =>
        let srcDir := Join env [agentDir; "src"%string] in
        err <- call (os_MkdirAll srcDir perm_0700) ;;
        match err with
        | Some e => ret (EmptyString, Some e)
        | None =>
            let binDir := Join env [agentDir; "bin"%string] in
            err <- call (os_MkdirAll binDir perm_0700) ;;
            match err with
            | Some e => ret (EmptyString, Some e)
            | None => ret (agentDir, None)
            end
        end
    end
  else ret (EmptyString, None).

(** *** renderAgent *)

Definition renderAgent (proxyServer servers CACert AgentCert AgentKey : string)
    (IgnoreEnvProxy : bool) : M (string * option Err) :=
  r <- setupAgentDir ;;
  let '(agentDir, err) := r in
  match err with
  | Some e => ret (EmptyString, Some e)
  | None =>
      let srcDir := Join env [agentDir; "src"%string] in
      match GetAgentArchive env with
      | inr e => ret (EmptyString, Some e)
      | inl a =>
          r <- unzipBuf a srcDir ;;
          match snd r with
          | Some e => ret (EmptyString, Some e)
          | None =>
              let agentFile := Join env [srcDir; "agent.go"%string] in
              _ <- call (template_ParseFiles agentFile) ;;
              let data := {| ProxyServer := proxyServer;
                             Servers := servers;
                             data_CACert := CACert;
                             data_AgentCert := AgentCert;
                             data_AgentKey := AgentKey;
                             data_IgnoreEnvProxy := IgnoreEnvProxy |} in
              tpl <- Execute data ;;
              match tpl with
              | inr e => ret (EmptyString, Some e)
              | inl tpl =>
                  let agentFilePath := Join env [agentDir; "src"%string; "agent.go"%string] in
                  err <- call (os_OpenFile agentFilePath [O_RDWR; O_CREATE; O_TRUNC] perm_0700) ;;
                  match err with
                  | Some e => ret (EmptyString, Some e)
                  | None =>
                      err <- call (buffer_WriteTo agentFilePath tpl) ;;
                      ret (agentDir, err)
                  end
              end
          end
      end
  end.

(** *** CompileAgent *)

(** The loop over [strings.Split(servers, "\n")]: the error of the first
    line [net.SplitHostPort] rejects. *)
Fixpoint check_servers (lines : list string) : option Err :=
  match lines with
  | [] => None
  | server :: rest =>
      match SplitHostPort server with
      | inr e => Some (InvalidServer server e)
      | inl _ => check_servers rest
      end
  end.

Definition supportedProxySchemes : list string :=
  ["socks5"; "socks5h"; "http"; "https"]%string.

Definition Contains (l : list string) (s : string) : bool :=
  existsb (String.eqb s) l.

Definition check_proxy (proxyServer : string) : option Err :=
  if String.eqb proxyServer EmptyString then None
  else
    match url_Parse env proxyServer with
    | inr e => Some (InvalidProxy proxyServer e)
    | inl scheme =>
        if negb (Contains supportedProxySchemes scheme)
        then Some (UnsupportedScheme scheme)
        else None
    end.

Definition destination_of (goos agentDir : string) : string :=
  if String.eqb goos "windows"
  then Join env [agentDir; "bin"%string; "agent.exe"%string]
  else Join env [agentDir; "bin"%string; "agent"%string].

Definition CompileAgent (goos goarch : string) (obfuscate : bool)
    (proxyServer servers CACert AgentCert AgentKey : string)
    (IgnoreEnvProxy : bool) : M (option (list Byte.byte) * option Err) :=
  match check_servers (Split_lines servers) with
  | Some e => ret (None, Some e)
  | None =>
      match check_proxy proxyServer with
      | Some e => ret (None, Some e)
      | None =>
          r <- renderAgent proxyServer servers CACert AgentCert AgentKey IgnoreEnvProxy ;;
          let '(agentDir, err) := r in
          match err with
          | Some e => ret (None, Some e)
          | None =>
              let goConfig := {| CGO := "0";
                                 GOOS := goos;
                                 GOARCH := goarch;
                                 GOROOT := GetGoRootDir env (GetAssetsDir env);
                                 GOCACHE := GetGoCache env (GetAssetsDir env);
                                 GOMODCACHE := GetGoModCache env (GetAssetsDir env);
                                 ProjectDir := agentDir;
                                 Obfuscate := obfuscate;
                                 GOGARBLE := "*" |} in
              let destination := destination_of goos agentDir in
              err <- call (gogo_GoBuild goConfig (Join env [agentDir; "src"%string]) destination) ;;
              match err with
              | Some e => ret (None, Some e)
              | None =>
                  agentBytes <- ReadFile destination ;;
                  match agentBytes with
                  | inr e => ret (None, Some e)
                  | inl agentBytes =>
                      err <- call (os_RemoveAll agentDir) ;;
                      match err with
                      | Some e => ret (None, Some e)
                      | None => ret (Some agentBytes, None)
                      end
                  end
              end
          end
      end
  end.

End Service.

(** Whether a call removes a directory tree, and whether it closes an
    archive entry. *)
Definition is_RemoveAll (c : Call) : bool :=
  match c with os_RemoveAll _ => true | _ => false end.

Definition is_zip_Close (c : Call) : bool :=
  match c with zip_Close _ => true | _ => false end.

(** A call that opens, closes and removes nothing. *)
Definition inert (c : Call) : bool :=
  match c with
  | os_RemoveAll _ | os_OpenFile _ _ _ | file_Close _ | zip_Open _ | zip_Close _ => false
  | _ => true
  end.

(** A call that neither closes an archive entry nor removes a tree. *)
Definition quiet (c : Call) : Prop :=
  is_zip_Close c = false ∧ is_RemoveAll c = false.

Definition creates (c : Call) : bool :=
  match c with
  | os_MkdirAll _ _ | os_OpenFile _ _ _ => true
  | _ => false
  end.

(** The path [unzipBuf] gives each entry of a list. *)
Definition paths_of (env : Env) (dest : string) (files : list ZipFile) : list string :=
  map (fun f => Join env [dest; Name f]) files.

(** What is open: files of the operating system and readers of archive
    entries. *)
Inductive Handle :=
| HFile (path : string)
| HEntry (f : ZipFile).

#[global] Instance byte_eq_dec : EqDecision Byte.byte := Byte.byte_eq_dec.
#[global] Instance string_eq_dec : EqDecision string := String.string_dec.
#[global] Instance ZipFile_eq_dec : EqDecision ZipFile.
Proof. solve_decision. Defined.
#[global] Instance Handle_eq_dec : EqDecision Handle.
Proof. solve_decision. Defined.

(** Closing releases the latest handle of that file or entry. *)
Fixpoint release (h : Handle) (open : list Handle) : list Handle :=
  match open with
  | [] => []
  | x :: rest => if decide (h = x) then rest else x :: release h rest
  end.

(** The handles open after the calls [new], made after the calls [tr],
    starting from [open]: an open call that the environment granted adds
    one, a close call releases one, also when the close reports an error. *)
Fixpoint open_after (env : Env) (tr new : list Call) (open : list Handle) : list Handle :=
  match new with
  | [] => open
  | c :: rest =>
      let open' :=
        match c with
        | os_OpenFile p _ _ => if fails env tr c is None then HFile p :: open else open
        | zip_Open f => if fails env tr c is None then HEntry f :: open else open
        | file_Close p => release (HFile p) open
        | zip_Close f => release (HEntry f) open
        | _ => open
        end in
      open_after env (tr ++ [c]) rest open'
  end.

(** The error that keeps the embedded Go archive from being unpacked
    before any of its entries is read, if there is one. *)
Definition go_archive_error (env : Env) : option Err :=
  match GetGoArchive env with
  | inr e => Some e
  | inl a =>
      match zip_NewReader env a with
      | inr e => Some e
      | inl _ => None
      end
  end.

(** Environments for the examples: the archives hold [files]; directory
    creation is refused if [mkdir_fails]; [os.Stat] reports a missing path
    if [missing], and the Go archive is there only then; everything else
    is granted.  The path functions are stand-ins: [Join] puts a slash
    between the parts and [Dir] gives its argument back. *)
Definition sample_dir : ZipFile :=
  {| Name := "cmd/"; IsDir := true; Mode := 493; Body := [] |}.

Definition sample_file : ZipFile :=
  {| Name := "agent.go"; IsDir := false; Mode := 420; Body := [] |}.

Definition slash_Join (parts : list string) : string :=
  String.concat "/" parts.

Definition sample_env (files : list ZipFile) (mkdir_fails : bool) (missing : bool) : Env :=
  {| GetAssetsDir := "/assets";
     Join := slash_Join;
     Dir := fun p => p;
     GetGoRootDir := fun d => slash_Join [d; "go"%string];
     GetGoCache := fun d => slash_Join [d; "gocache"%string];
     GetGoModCache := fun d => slash_Join [d; "gomodcache"%string];
     GetGoArchive := if missing then inl [] else inr (Reported "file does not exist");
     GetAgentArchive := inl [];
     zip_NewReader := fun _ => inl files;
     url_Parse := fun s => inl s;
     isNotExist := fun e => match e with Reported "not exist" => true | _ => false end;
     fresh_id := fun _ => "c0ffee"%string;
     fails := fun _ c =>
       match c with
       | os_MkdirAll _ _ => if mkdir_fails then Some (Reported "permission denied") else None
       | os_Stat _ => if missing then Some (Reported "not exist") else None
       | _ => None
       end;
     executed := fun _ _ => inl [];
     file_content := fun _ _ => inl [] |}.

End Asset.

(* ===================================================================== *)
(** ** The form that adds a route (package route of the client's forms) *)
(* ===================================================================== *)

Module RouteForm.

(** [forms.FormVal[T]], with the two fields this file uses. *)
Record FormVal (T : Type) := {
  Last : T;
  Hint : string;
}.
Arguments Last {T} _.
Arguments Hint {T} _.

(** The package variables, shared by all the forms. *)
Record Vars := {
  add_route_cidr : FormVal string;
  add_route_loopback : FormVal bool;
}.

Definition line_feed : string := String "010" EmptyString.

Definition initial_vars : Vars :=
  {| add_route_cidr :=
       {| Last := EmptyString;
          Hint := ("A CIDR that will be routed via this session." ++ line_feed ++ line_feed
                   ++ "Example:" ++ line_feed ++ "10.10.5.0/24")%string |};
     add_route_loopback :=
       {| Last := false;
          Hint := "If checked, specified CIDR will address the machine running the agent itself, i.e. localhost. Use this instead of port forwarding." |} |}.

Definition with_cidr_Last (text : string) (v : Vars) : Vars :=
  {| add_route_cidr := {| Last := text; Hint := Hint (add_route_cidr v) |};
     add_route_loopback := add_route_loopback v |}.

Definition with_loopback_Last (checked : bool) (v : Vars) : Vars :=
  {| add_route_cidr := add_route_cidr v;
     add_route_loopback := {| Last := checked; Hint := Hint (add_route_loopback v) |} |}.

(** The functions of the caller are named by numbers.  A button's selected
    function is the closure [SetSubmitFunc] builds around [f], or the
    function given to [SetCancelFunc]. *)
Inductive Handler :=
| submit_closure (f : nat)
| given (g : nat).

(** [tview.Button]: its label and its selected function, if set. *)
Record Button := {
  label : string;
  selected : option Handler;
}.

Definition NewButton (l : string) : Button := {| label := l; selected := None |}.

Definition SetSelectedFunc (h : Handler) (b : Button) : Button :=
  {| label := label b; selected := Some h |}.

(** [AddRouteForm]: the buttons of its [tview.Form], its two button fields,
    what the two fields of the form show, and the text of the hint box its
    closures hold. *)
Record AddRouteForm := {
  form_buttons : list Button;
  submitBtn : Button;
  cancelBtn : Button;
  cidrField : string;
  loopbackField : bool;
  hintBox : string;
}.

Definition with_buttons (bs : list Button) (fm : AddRouteForm) : AddRouteForm :=
  {| form_buttons := bs; submitBtn := submitBtn fm; cancelBtn := cancelBtn fm;
     cidrField := cidrField fm; loopbackField := loopbackField fm; hintBox := hintBox fm |}.

Definition with_cidrField (text : string) (fm : AddRouteForm) : AddRouteForm :=
  {| form_buttons := form_buttons fm; submitBtn := submitBtn fm; cancelBtn := cancelBtn fm;
     cidrField := text; loopbackField := loopbackField fm; hintBox := hintBox fm |}.

Definition with_loopbackField (checked : bool) (fm : AddRouteForm) : AddRouteForm :=
  {| form_buttons := form_buttons fm; submitBtn := submitBtn fm; cancelBtn := cancelBtn fm;
     cidrField := cidrField fm; loopbackField := checked; hintBox := hintBox fm |}.

Definition with_hintBox (text : string) (fm : AddRouteForm) : AddRouteForm :=
  {| form_buttons := form_buttons fm; submitBtn := submitBtn fm; cancelBtn := cancelBtn fm;
     cidrField := cidrField fm; loopbackField := loopbackField fm; hintBox := text |}.

(** [NewAddRouteForm]: the fields show the last values; [AddButton] adds
    the two buttons with a nil selected function. *)
Definition NewAddRouteForm (v : Vars) : AddRouteForm :=
  {| form_buttons := [NewButton "Submit"; NewButton "Cancel"];
     submitBtn := NewButton "Submit";
     cancelBtn := NewButton "Cancel";
     cidrField := Last (add_route_cidr v);
     loopbackField := Last (add_route_loopback v);
     hintBox := EmptyString |}.

Definition GetID (fm : AddRouteForm) : string := "addroute_form".

(** [Form.GetButtonIndex]: the first button with that label, [None] for -1. *)
Fixpoint GetButtonIndex (bs : list Button) (l : string) : option nat :=
  match bs with
  | [] => None
  | b :: rest =>
      if String.eqb (label b) l then Some O
      else match GetButtonIndex rest l with
           | Some i => Some (S i)
           | None => None
           end
  end.

(** [form.form.GetButton(btnId).SetSelectedFunc(h)]; [None] is the panic
    of [GetButton] on an index that is not there. *)
Definition set_button (l : string) (h : Handler) (fm : AddRouteForm) : option AddRouteForm :=
  match GetButtonIndex (form_buttons fm) l with
  | None => None
  | Some i =>
      match form_buttons fm !! i with
      | None => None
      | Some b => Some (with_buttons (<[i := SetSelectedFunc h b]> (form_buttons fm)) fm)
      end
  end.

Definition SetSubmitFunc (f : nat) (fm : AddRouteForm) : option AddRouteForm :=
  set_button "Submit" (submit_closure f) fm.

Definition SetCancelFunc (g : nat) (fm : AddRouteForm) : option AddRouteForm :=
  set_button "Cancel" (given g) fm.

(** The selected function of the form's button with label [l]. *)
Definition handler (l : string) (fm : AddRouteForm) : option Handler :=
  match GetButtonIndex (form_buttons fm) l with
  | None => None
  | Some i =>
      match form_buttons fm !! i with
      | Some b => selected b
      | None => None
      end
  end.

(** *** The forms at work *)

(** A call of a function of the caller, with its arguments. *)
Inductive UserCall :=
| Submitted (f : nat) (cidr : string) (loopback : bool)
| Cancelled (g : nat).

Record World := {
  vars : Vars;
  forms : list AddRouteForm;
  called : list UserCall;
}.

Definition initial : World :=
  {| vars := initial_vars; forms := []; called := [] |}.

(** What happens to the forms: the program makes one or sets a function;
    the toolkit runs a closure of form [i] -- a field got the focus, lost
    it, or changed to the value given; a button was pressed. *)
Inductive Event :=
| New
| SetSubmit (i f : nat)
| SetCancel (i g : nat)
| CidrFocus (i : nat)
| CidrChanged (i : nat) (text : string)
| LoopbackFocus (i : nat)
| LoopbackChanged (i : nat) (checked : bool)
| LoopbackBlur (i : nat)
| Press (i : nat) (l : string).

Definition on_form (i : nat) (w : World) (k : AddRouteForm -> option World) : option World :=
  match forms w !! i with
  | None => Some w
  | Some fm => k fm
  end.

Definition put_form (i : nat) (fm : AddRouteForm) (w : World) : World :=
  {| vars := vars w; forms := <[i := fm]> (forms w); called := called w |}.

Definition with_vars (v : Vars) (w : World) : World :=
  {| vars := v; forms := forms w; called := called w |}.

Definition call_user (c : UserCall) (w : World) : World :=
  {| vars := vars w; forms := forms w; called := called w ++ [c] |}.

(** One event; an event on a form that was never made changes nothing;
    [None] is a panic. *)
Definition step (w : World) (e : Event) : option World :=
  match e with
  | New =>
      Some {| vars := vars w; forms := forms w ++ [NewAddRouteForm (vars w)];
              called := called w |}
  | SetSubmit i f =>
      on_form i w (fun fm =>
        match SetSubmitFunc f fm with
        | Some fm' => Some (put_form i fm' w)
        | None => None
        end)
  | SetCancel i g =>
      on_form i w (fun fm =>
        match SetCancelFunc g fm with
        | Some fm' => Some (put_form i fm' w)
        | None => None
        end)
  | CidrFocus i =>
      on_form i w (fun fm =>
        Some (put_form i (with_hintBox (Hint (add_route_cidr (vars w))) fm) w))
  | CidrChanged i text =>
      on_form i w (fun fm =>
        Some (with_vars (with_cidr_Last text (vars w))
                (put_form i (with_cidrField text fm) w)))
  | LoopbackFocus i =>
      on_form i w (fun fm =>
        Some (put_form i (with_hintBox (Hint (add_route_loopback (vars w))) fm) w))
  | LoopbackChanged i checked =>
      on_form i w (fun fm =>
        Some (with_vars (with_loopback_Last checked (vars w))
                (put_form i (with_loopbackField checked fm) w)))
  | LoopbackBlur i =>
      on_form i w (fun fm => Some (put_form i (with_hintBox EmptyString fm) w))
  | Press i l =>
      on_form i w (fun fm =>
        match handler l fm with
        | Some (submit_closure f) =>
            Some (call_user (Submitted f (Last (add_route_cidr (vars w)))
                               (Last (add_route_loopback (vars w)))) w)
        | Some (given g) => Some (call_user (Cancelled g) w)
        | None => Some w
        end)
  end.

Fixpoint run (w : World) (evs : list Event) : option World :=
  match evs with
  | [] => Some w
  | e :: rest =>
      match step w e with
      | Some w' => run w' rest
      | None => None
      end
  end.

(** Whether an event is a change of a CIDR field, of a loopback box. *)
Definition changes_cidr (e : Event) : bool :=
  match e with CidrChanged _ _ => true | _ => false end.

Definition changes_loopback (e : Event) : bool :=
  match e with LoopbackChanged _ _ => true | _ => false end.

(** The calls that set a function of one form. *)
Inductive Setter :=
| Submit_is (f : nat)
| Cancel_is (g : nat).

Definition set_one (fm : AddRouteForm) (s : Setter) : option AddRouteForm :=
  match s with
  | Submit_is f => SetSubmitFunc f fm
  | Cancel_is g => SetCancelFunc g fm
  end.

Fixpoint set_all (fm : AddRouteForm) (l : list Setter) : option AddRouteForm :=
  match l with
  | [] => Some fm
  | s :: rest =>
      match set_one fm s with
      | Some fm' => set_all fm' rest
      | None => None
      end
  end.

(** The function the latest [SetSubmitFunc] of a list gave, and the latest
    [SetCancelFunc]. *)
Fixpoint last_submit (l : list Setter) (acc : option Handler) : option Handler :=
  match l with
  | [] => acc
  | Submit_is f :: rest => last_submit rest (Some (submit_closure f))
  | Cancel_is _ :: rest => last_submit rest acc
  end.

Fixpoint last_cancel (l : list Setter) (acc : option Handler) : option Handler :=
  match l with
  | [] => acc
  | Cancel_is g :: rest => last_cancel rest (Some (given g))
  | Submit_is _ :: rest => last_cancel rest acc
  end.

(** For the examples: two forms just made, and the same two after the
    second one's CIDR field changed, its cancel function was set and run,
    and the first one's submit function was set. *)
Definition sample_two_forms : World :=
  {| vars := initial_vars;
     forms := [NewAddRouteForm initial_vars; NewAddRouteForm initial_vars];
     called := [] |}.

Definition sample_events : list Event :=
  [SetCancel 1 9; Press 1 "Cancel"; SetSubmit 0 7].

Definition sample_first_form : AddRouteForm :=
  with_buttons [SetSelectedFunc (submit_closure 7) (NewButton "Submit"); NewButton "Cancel"]
    (NewAddRouteForm initial_vars).

Definition sample_after : World :=
  {| vars := with_cidr_Last "10.10.5.0/24" initial_vars;
     forms :=
       [sample_first_form;
        with_buttons [NewButton "Submit"; SetSelectedFunc (given 9) (NewButton "Cancel")]
          (with_cidrField "10.10.5.0/24" (NewAddRouteForm initial_vars))];
     called := [Cancelled 9] |}.

End RouteForm.


(* ===================================================================== *)
(** ** Properties *)
(* ===================================================================== *)

Import Crl Netstack.

(** *** The revocation record *)

Lemma hex_byte_back (b : byte) :
  hex_value (hex_digit (Byte.to_N b / 16)) = Some (Byte.to_N b / 16)%N ∧
  hex_value (hex_digit (Byte.to_N b mod 16)) = Some (Byte.to_N b mod 16)%N ∧
  Byte.of_N (Byte.to_N b / 16 * 16 + Byte.to_N b mod 16) = Some b.
Proof. destruct b; vm_compute; auto. Qed.

Lemma parse_x_sprintf_x (bs : list byte) : parse_x (sprintf_x bs) = Some bs.
Proof.
  induction bs as [|b bs IH]; [reflexivity|].
  destruct (hex_byte_back b) as (Hh & Hl & Hb).
  cbn [sprintf_x parse_x]. rewrite Hh, Hl, IH, Hb. reflexivity.
Qed.

Lemma length_sprintf_x (bs : list byte) :
  String.length (sprintf_x bs) = (2 * length bs)%nat.
Proof. induction bs as [|b bs IH]; cbn [sprintf_x String.length length]; lia. Qed.

(** C8, as the code has it: [Hash] is the lower-case hexadecimal rendering of
    the stored [Thumbprint] field, two digits per byte.  It can be read back to
    the thumbprint, so two records have the same fingerprint exactly when their
    thumbprints are equal; the [Certificate] and [Reason] fields are not read.
    Hence equal certificate bytes give equal fingerprints for records whose
    thumbprint was derived from the certificate by one and the same digest. *)
Theorem Hash_is_hex_of_Thumbprint (rc1 rc2 : RevokedCertificate) :
  parse_x (Hash rc1) = Some (Thumbprint rc1) ∧
  String.length (Hash rc1) = (2 * length (Thumbprint rc1))%nat ∧
  (Hash rc1 = Hash rc2 <-> Thumbprint rc1 = Thumbprint rc2) ∧
  (forall digest : list byte -> list byte,
      Thumbprint rc1 = digest (Certificate rc1) ->
      Thumbprint rc2 = digest (Certificate rc2) ->
      Certificate rc1 = Certificate rc2 ->
      Hash rc1 = Hash rc2).
Proof.
  unfold Hash. split; [apply parse_x_sprintf_x|].
  split; [apply length_sprintf_x|]. split; [split|].
  - intros H.
    assert (Some (Thumbprint rc1) = Some (Thumbprint rc2)) as E
      by (rewrite <- !parse_x_sprintf_x, H; reflexivity).
    congruence.
  - intros ->. reflexivity.
  - intros digest H1 H2 Hc. rewrite H1, H2, Hc. reflexivity.
Qed.

(** C8, as stated, fails: two well-formed records with the same certificate
    bytes and different stored thumbprints have different fingerprints. *)
Lemma Hash_differs_on_equal_certificates :
  let rc1 := mkRevokedCertificate "keyCompromise" [x30; x82] (replicate 20 x00) in
  let rc2 := mkRevokedCertificate "keyCompromise" [x30; x82] (replicate 20 xff) in
  wf rc1 ∧ wf rc2 ∧ Certificate rc1 = Certificate rc2 ∧ Hash rc1 ≠ Hash rc2.
Proof. vm_compute. repeat split; discriminate. Qed.

(** *** TunConn *)

(** C10: the three kind tests exclude one another, [IsICMP] holds for the
    ICMPv4 protocol number only, and a [TunConn] carrying the ICMPv6 number
    passes none of the three. *)
Theorem kind_tests_exclusive (t : TunConn) (h : Any) :
  IsTCP t && IsUDP t = false ∧
  IsTCP t && IsICMP t = false ∧
  IsUDP t && IsICMP t = false ∧
  (IsICMP t = true <-> Protocol t = icmp_ProtocolNumber4) ∧
  icmp_ProtocolNumber6 ≠ icmp_ProtocolNumber4 ∧
  IsTCP (mkTunConn icmp_ProtocolNumber6 h) = false ∧
  IsUDP (mkTunConn icmp_ProtocolNumber6 h) = false ∧
  IsICMP (mkTunConn icmp_ProtocolNumber6 h) = false.
Proof.
  unfold IsTCP, IsUDP, IsICMP, tcp_ProtocolNumber, udp_ProtocolNumber,
    icmp_ProtocolNumber4, icmp_ProtocolNumber6.
  cbn [Protocol].
  repeat split; try reflexivity; try lia.
Qed.

(** C9: on a request whose kind is UDP or ICMP, [Terminate] returns at once
    and leaves the world as it found it, whatever [reset] is: no call to
    [Complete], no reset, nothing changed. *)
Theorem Terminate_udp_icmp_noop (t : TunConn) (reset : bool) (w : World) :
  IsUDP t = true ∨ IsICMP t = true ->
  Terminate t reset w = Returns tt w.
Proof.
  intros H. unfold Terminate.
  assert (IsTCP t = false) as ->; [|reflexivity].
  unfold IsTCP, IsUDP, IsICMP, tcp_ProtocolNumber, udp_ProtocolNumber,
    icmp_ProtocolNumber4 in *.
  lia.
Qed.

Lemma Terminate_udp_icmp_noop_witness :
  let w := mkWorld (mkEnv [] None None 0 None true) [] [] [] [] in
  let u := mkTunConn udp_ProtocolNumber
             (AnyUDPConn (mkUDPConn (mkEndpointID 53 [10;0;0;1] 40000 [10;0;0;2]) 4%nat)) in
  let i := mkTunConn icmp_ProtocolNumber4 (AnyICMPConn (mkICMPConn 9%nat)) in
  (Terminate u true w = Returns tt w ∧ Terminate u false w = Returns tt w) ∧
  (Terminate i true w = Returns tt w ∧ Terminate i false w = Returns tt w).
Proof.
  intros w u i. split; split.
  - apply (Terminate_udp_icmp_noop u true w). left. reflexivity.
  - apply (Terminate_udp_icmp_noop u false w). left. reflexivity.
  - apply (Terminate_udp_icmp_noop i true w). right. reflexivity.
  - apply (Terminate_udp_icmp_noop i false w). right. reflexivity.
Defined.

(** Whatever the engine does with it, a call of [Terminate] on a TCP request
    is a call of [Complete] on that request. *)
Lemma Terminate_tcp_final (t : TunConn) (c : TCPConn) (r : bool) (w : World) :
  IsTCP t = true ->
  Handler t = AnyTCPConn c ->
  final (Terminate t r w) = with_trace (trace w ++ [EvComplete (tcp_Request c) r]) w.
Proof.
  intros Hk Hh. unfold Terminate, GetTCP, bind, ret, ForwarderRequest_Complete.
  rewrite Hk, Hh. destruct (_ && _); reflexivity.
Qed.

(** C3, as the code has it: [Terminate] keeps no record of an earlier call.
    On a TCP request not completed before, it calls the engine's [Complete]
    once, with the flag it was given, and returns; a second [Terminate] on the
    same request calls [Complete] on it a second time, and what happens then
    is up to the engine. *)
Theorem Terminate_tcp_completes_every_call
    (t : TunConn) (c : TCPConn) (r1 r2 : bool) (w : World) :
  IsTCP t = true ->
  Handler t = AnyTCPConn c ->
  completed (tcp_Request c) (trace w) = false ->
  Terminate t r1 w =
    Returns tt (with_trace (trace w ++ [EvComplete (tcp_Request c) r1]) w) ∧
  final ((Terminate t r1 ;; Terminate t r2) w) =
    with_trace (trace w ++ [EvComplete (tcp_Request c) r1;
                            EvComplete (tcp_Request c) r2]) w.
Proof.
  intros Hk Hh Hfresh.
  assert (Terminate t r1 w =
            Returns tt (with_trace (trace w ++ [EvComplete (tcp_Request c) r1]) w)) as E.
  { unfold Terminate, GetTCP, bind, ret, ForwarderRequest_Complete.
    rewrite Hk, Hh, Hfresh, andb_false_r. reflexivity. }
  split; [exact E|].
  unfold bind. rewrite E, (Terminate_tcp_final t c r2 _ Hk Hh).
  unfold with_trace. cbn. rewrite <- app_assoc. reflexivity.
Qed.

Lemma Terminate_tcp_completes_every_call_witness :
  let w := mkWorld (mkEnv [] None None 0 None true) [] [] [] [] in
  let t := mkTunConn tcp_ProtocolNumber
             (AnyTCPConn (mkTCPConn (mkEndpointID 443 [10;0;0;1] 40000 [10;0;0;2]) 7%nat)) in
  Terminate t true w = Returns tt (with_trace [EvComplete 7%nat true] w) ∧
  final ((Terminate t true ;; Terminate t false) w) =
    with_trace [EvComplete 7%nat true; EvComplete 7%nat false] w.
Proof.
  intros w t.
  apply (Terminate_tcp_completes_every_call t
           (mkTCPConn (mkEndpointID 443 [10;0;0;1] 40000 [10;0;0;2]) 7%nat) true false w);
    reflexivity.
Defined.

(** C3, as stated, fails: [Terminate(true)] twice on one TCP request calls
    [Complete(true)] on it twice.  With an engine that lets the second call
    through, two resets are asked for; with an engine whose requests are
    single-use, the second [Terminate] panics.  In neither case is the second
    call without effect. *)
Lemma Terminate_twice_is_not_idempotent :
  let lenient := mkWorld (mkEnv [] None None 0 None false) [] [] [] [] in
  let strict := mkWorld (mkEnv [] None None 0 None true) [] [] [] [] in
  let t := mkTunConn tcp_ProtocolNumber
             (AnyTCPConn (mkTCPConn (mkEndpointID 443 [10;0;0;1] 40000 [10;0;0;2]) 7%nat)) in
  IsTCP t = true ∧
  Terminate t true lenient = Returns tt (with_trace [EvComplete 7%nat true] lenient) ∧
  (Terminate t true ;; Terminate t true) lenient =
    Returns tt (with_trace [EvComplete 7%nat true; EvComplete 7%nat true] lenient) ∧
  resets_of 7%nat (trace (final ((Terminate t true ;; Terminate t true) lenient))) = 2%nat ∧
  Terminate t true strict = Returns tt (with_trace [EvComplete 7%nat true] strict) ∧
  (Terminate t true ;; Terminate t true) strict =
    Panics (with_trace [EvComplete 7%nat true; EvComplete 7%nat true] strict).
Proof. vm_compute. repeat split. Qed.

(** *** The forwarder callbacks, run alone *)

Lemma with_mu_unlock (s : NetStack) :
  mu s = false -> with_mu false (with_mu true s) = s.
Proof. destruct s; cbn; intros ->; reflexivity. Qed.

(** On a nil pool pointer or a closed pool the guard answers [true] and does
    not touch the world. *)
Lemma guard_true (s : NetStack) (w : World) :
  pool s = None ∨
  (exists p cp, pool s = Some p ∧ pools w !! p = Some cp ∧ ConnPool_Closed cp = true) ->
  pool_unset_or_closed s w = Returns true w.
Proof.
  unfold pool_unset_or_closed, pool_Closed.
  intros [-> | (p & cp & -> & -> & ->)]; reflexivity.
Qed.

(** C4: when the [NetStack] has no pool or its pool is closed, the TCP and the
    UDP callback both return with the handle and the whole world unchanged:
    the pools keep their state and contents, nothing is logged, and no call to
    [Complete] (so no handshake completion, no reset, no reply) is made. *)
Theorem handlers_drop_without_pool
    (request : ForwarderRequest) (s : NetStack) (w : World) :
  mu s = false ->
  pool s = None ∨
  (exists p cp, pool s = Some p ∧ pools w !! p = Some cp ∧ ConnPool_Closed cp = true) ->
  tcpHandler request s w = Returns s w ∧ udpHandler request s w = Returns s w.
Proof.
  intros Hmu Hp.
  assert (pool_unset_or_closed (with_mu true s) w = Returns true w) as G
    by (apply guard_true; destruct s; exact Hp).
  unfold tcpHandler, udpHandler, bind, Lock, Unlock, ret. rewrite Hmu, G.
  cbn. rewrite (with_mu_unlock s Hmu). split; reflexivity.
Qed.

Lemma handlers_drop_without_pool_witness :
  let request := mkForwarderRequest 3%nat (mkEndpointID 80 [10;0;0;1] 40000 [10;0;0;2]) in
  let old := mkTunConn udp_ProtocolNumber AnyNil in
  let w := mkWorld (mkEnv [] None None 0 None true) [3] [mkConnPool true [old]] [] [] in
  let s_nil := mkNetStack None None false None 3 in
  let s_closed := mkNetStack (Some 0%nat) None false None 3 in
  (tcpHandler request s_nil w = Returns s_nil w ∧
   udpHandler request s_nil w = Returns s_nil w) ∧
  (tcpHandler request s_closed w = Returns s_closed w ∧
   udpHandler request s_closed w = Returns s_closed w).
Proof.
  intros request old w s_nil s_closed. split.
  - apply handlers_drop_without_pool; [reflexivity | left; reflexivity].
  - apply handlers_drop_without_pool; [reflexivity|].
    right. exists 0%nat, (mkConnPool true [old]). repeat split; reflexivity.
Defined.

(** The other way out of the guard, for contrast: with an open pool the
    callback reaches [Add], and the request is then in the pool's queue. *)
Lemma tcpHandler_adds_to_open_pool
    (request : ForwarderRequest) (s : NetStack) (w : World) (p : PoolPtr) (cp : ConnPool) :
  mu s = false ->
  pool s = Some p ->
  pools w !! p = Some cp ->
  ConnPool_Closed cp = false ->
  tcpHandler request s w =
    Returns s (with_pools
                 (<[p := mkConnPool false (pool_queue cp ++ [tcpTunConn request])]> (pools w)) w).
Proof.
  intros Hmu Hp Hl Hc.
  unfold tcpHandler, bind, Lock, Unlock, ret, pool_unset_or_closed, add_or_log,
    pool_Closed, pool_Add, ConnPool_Add, bind, ret.
  unfold ConnPool_Closed in *.
  rewrite Hmu. destruct s; cbn in *. subst. rewrite Hl, Hc. cbn. rewrite Hl, Hc.
  reflexivity.
Qed.


(** *** Construction *)

(** Both empty subnets contain every address of their family. *)
Lemma masked_eq_zero (addr : list Z) :
  masked_eq addr (replicate (length addr) 0) (replicate (length addr) 0) = true.
Proof.
  induction addr as [|a addr IH]; [reflexivity|].
  cbn [length replicate masked_eq]. rewrite Z.land_0_r, IH. reflexivity.
Qed.

Lemma empty_subnets_accept_all (addr : list Z) :
  (length addr = 4%nat -> Subnet_Contains IPv4EmptySubnet addr = true) ∧
  (length addr = 16%nat -> Subnet_Contains IPv6EmptySubnet addr = true).
Proof.
  unfold Subnet_Contains, IPv4EmptySubnet, IPv6EmptySubnet. cbn [subnet_address subnet_mask].
  split; intros <-; apply masked_eq_zero.
Qed.

(** What [new] does on its way to success, step by step. *)
Lemma new_success (settings : StackSettings) (s0 s : NetStack) (w w' : World)
    (ns : option Stack) :
  new settings s0 w = Returns (s, (ns, None)) w' ->
  let fd0 := lowest_free (open_fds w) (length (open_fds w)) 0 in
  let c := length (chans w) in
  TunName settings ∈ tun_devices (env w) ∧
  createNIC_fault (env w) = None ∧
  icmpResponder_fault (env w) = None ∧
  ns = stack s ∧
  pool s = pool s0 ∧ mu s = mu s0 ∧ fd s = fd0 ∧ closeChan s = Some c ∧
  w' = with_trace (trace w ++ [EvTunOpen (TunName settings) fd0; EvResponderStart c])
         (with_chans (chans w ++ [mkChan (closeChan_cap (env w)) 0 true])
            (with_open_fds (fd0 :: open_fds w) w)) ∧
  exists e, stack s = Some e ∧
    NetworkProtocols e = [ipv4_ProtocolNumber; ipv6_ProtocolNumber] ∧
    TransportProtocols e = [tcp_ProtocolNumber; udp_ProtocolNumber;
                            icmp_ProtocolNumber4; icmp_ProtocolNumber6] ∧
    HandleLocal e = false ∧
    icmpLimit e = 0 ∧ icmpBurst e = 0 ∧
    transportHandlers e = <[udp_ProtocolNumber := UDPForwarder]>
                            (<[tcp_ProtocolNumber := TCPForwarder 0 (MaxInflight settings)]> ∅) ∧
    nics e = <[1 := mkNIC (mkLinkEndpoint fd0) true true]> ∅ ∧
    routeTable e = [mkRoute IPv4EmptySubnet 1; mkRoute IPv6EmptySubnet 1] ∧
    forwarding e = <[ipv6_ProtocolNumber := false]> (<[ipv4_ProtocolNumber := false]> ∅) ∧
    tcpSACKEnabled e = false ∧
    tcpAlwaysUseSynCookies e = false ∧
    destroyed e = false.
Proof.
  intros H fd0 c.
  unfold new, bind, tun_Open, icmpResponder, ret, CreateNIC in H.
  destruct (bool_decide (TunName settings ∈ tun_devices (env w))) eqn:Hdev;
    [|discriminate H].
  apply bool_decide_eq_true in Hdev.
  cbn [env with_trace with_open_fds open_fds pools chans trace] in H.
  destruct (createNIC_fault (env w)) eqn:Hnic; [discriminate H|].
  replace (nics (SetTransportProtocolHandler udp_ProtocolNumber UDPForwarder
             (SetTransportProtocolHandler tcp_ProtocolNumber
                (TCPForwarder 0 (MaxInflight settings))
                (SetICMPBurst 0 (SetICMPLimit 0 (stack_New new_options))))) !! 1)
    with (@None NICState) in H by reflexivity.
  destruct (icmpResponder_fault (env w)) eqn:Hresp; [discriminate H|].
  injection H as Hs Hns Hw.
  subst s ns w'. fold fd0 c.
  repeat (split; [first [assumption | reflexivity | by destruct s0 | by destruct w]|]).
  clearbody fd0 c.
  split.
  { unfold with_trace, with_chans, with_open_fds. cbn.
    rewrite <- app_assoc. reflexivity. }
  eexists. split; [reflexivity|].
  repeat split; vm_compute; reflexivity.
Qed.

Lemma NewStack_new (settings : StackSettings) (connPool : option PoolPtr)
    (w w' : World) (s : NetStack) (err : option error) :
  NewStack settings connPool w = Returns (s, err) w' ->
  exists ns, new settings (mkNetStack connPool None false None 0) w
             = Returns (s, (ns, err)) w'.
Proof.
  unfold NewStack, bind, ret. intros H.
  destruct (new settings _ w) as [[s1 [ns1 err1]] w1| |]; [|discriminate..].
  injection H as -> -> ->. eexists; reflexivity.
Qed.

(** C7: every construction that succeeds leaves the engine with the same
    policy, whatever the settings and the pool: the route table is the two
    accept-all routes (0.0.0.0/0 and ::/0, which contain every address of
    their family) on NIC 1; NIC 1 is the only NIC, bound to the opened
    descriptor, promiscuous and spoofing; forwarding is off for IPv4 and IPv6;
    selective acknowledgment and SYN cookies are off; the ICMP limit and burst
    are zero. *)
Theorem NewStack_applies_fixed_policy
    (settings : StackSettings) (connPool : option PoolPtr) (w w' : World) (s : NetStack) :
  NewStack settings connPool w = Returns (s, None) w' ->
  exists e nic,
    stack s = Some e ∧
    routeTable e = [mkRoute IPv4EmptySubnet 1; mkRoute IPv6EmptySubnet 1] ∧
    (forall addr, length addr = 4%nat -> Subnet_Contains IPv4EmptySubnet addr = true) ∧
    (forall addr, length addr = 16%nat -> Subnet_Contains IPv6EmptySubnet addr = true) ∧
    nics e = {[1 := nic]} ∧
    link_fd (nic_link nic) = fd s ∧
    nic_promiscuous nic = true ∧
    nic_spoofing nic = true ∧
    forwarding e !! ipv4_ProtocolNumber = Some false ∧
    forwarding e !! ipv6_ProtocolNumber = Some false ∧
    tcpSACKEnabled e = false ∧
    tcpAlwaysUseSynCookies e = false ∧
    icmpLimit e = 0 ∧
    icmpBurst e = 0.
Proof.
  intros H. apply NewStack_new in H as [ns H].
  apply new_success in H
    as (_ & _ & _ & _ & _ & _ & Hfd & _ & _ & e & He & _ & _ & _ & Hl & Hb & _ & Hn & Hr
        & Hf & Hsack & Hsyn & _).
  exists e, (mkNIC (mkLinkEndpoint (fd s)) true true).
  rewrite Hfd, Hn, Hr, Hf, Hsack, Hsyn, Hl, Hb.
  repeat split; try reflexivity; try assumption.
  - intros addr; apply empty_subnets_accept_all.
  - intros addr; apply empty_subnets_accept_all.
Qed.

Lemma NewStack_applies_fixed_policy_witness :
  let w := mkWorld (mkEnv ["ligolo"%string] None None 0 None true) [0; 1; 2]
                   [mkConnPool false []] [] [] in
  exists s w',
    NewStack (mkStackSettings "ligolo" 4096) (Some 0%nat) w = Returns (s, None) w' ∧
    fd s = 3 ∧
    exists e nic,
      stack s = Some e ∧
      routeTable e = [mkRoute IPv4EmptySubnet 1; mkRoute IPv6EmptySubnet 1] ∧
      (forall addr, length addr = 4%nat -> Subnet_Contains IPv4EmptySubnet addr = true) ∧
      (forall addr, length addr = 16%nat -> Subnet_Contains IPv6EmptySubnet addr = true) ∧
      nics e = {[1 := nic]} ∧
      link_fd (nic_link nic) = fd s ∧
      nic_promiscuous nic = true ∧
      nic_spoofing nic = true ∧
      forwarding e !! ipv4_ProtocolNumber = Some false ∧
      forwarding e !! ipv6_ProtocolNumber = Some false ∧
      tcpSACKEnabled e = false ∧
      tcpAlwaysUseSynCookies e = false ∧
      icmpLimit e = 0 ∧
      icmpBurst e = 0.
Proof.
  intros w. eexists _, _.
  split; [vm_compute; reflexivity|].
  split; [reflexivity|].
  eapply (NewStack_applies_fixed_policy (mkStackSettings "ligolo" 4096) (Some 0%nat) w).
  vm_compute; reflexivity.
Defined.

(** C1 on the code, at two failing constructions.  [tun.Open] succeeds and
    hands out descriptor 3; then the NIC cannot be created (first world) or
    the echo responder cannot be started (second world).  [NewStack] reports
    the error and, with it, a non-nil handle that holds the engine and the
    descriptor; descriptor 3 is still open in the resulting world and
    [unix.Close] has not been called. *)
Theorem NewStack_failure_leaves_descriptor_open :
  let settings := mkStackSettings "ligolo" 4096 in
  let w_nic := mkWorld (mkEnv ["ligolo"%string] (Some "nic failure"%string) None 0 None true)
                       [0; 1; 2] [mkConnPool false []] [] [] in
  let w_icmp := mkWorld (mkEnv ["ligolo"%string] None (Some "bind failure"%string) 0 None true)
                        [0; 1; 2] [mkConnPool false []] [] [] in
  (exists s w',
      NewStack settings (Some 0%nat) w_nic = Returns (s, Some "nic failure"%string) w' ∧
      fd s = 3 ∧ stack s ≠ None ∧ closeChan s = None ∧
      open_fds w' = [3; 0; 1; 2] ∧
      trace w' = [EvTunOpen "ligolo" 3]) ∧
  (exists s w',
      NewStack settings (Some 0%nat) w_icmp = Returns (s, Some "bind failure"%string) w' ∧
      fd s = 3 ∧ stack s ≠ None ∧ closeChan s = None ∧
      open_fds w' = [3; 0; 1; 2] ∧
      trace w' = [EvTunOpen "ligolo" 3]).
Proof.
  intros settings w_nic w_icmp. split.
  - eexists _, _. split; [vm_compute; reflexivity|].
    repeat split; try reflexivity. cbn. discriminate.
  - eexists _, _. split; [vm_compute; reflexivity|].
    repeat split; try reflexivity. cbn. discriminate.
Qed.

(** *** Teardown *)

(** The error [unix.Close] will report for [fd] in world [w]. *)
Lemma unix_Close_result (fd0 : Z) (w : World) :
  exists w',
    unix_Close fd0 w =
      Returns (if bool_decide (fd0 ∈ open_fds w) then close_fault (env w) else Some EBADF) w' ∧
    trace w' = trace w ++ [EvClose fd0] ∧
    (fd0 ∉ open_fds w') ∧
    chans w' = chans w ∧ pools w' = pools w ∧ env w' = env w.
Proof.
  unfold unix_Close. case_bool_decide as Hin; eexists; (split; [reflexivity|]);
    cbn; repeat split; try done.
  rewrite list_elem_of_filter. tauto.
Qed.

(** C5, as the code has it.  With the echo responder waiting on the stop
    channel, [Destroy] hands it the stop signal and then calls [unix.Close] on
    the descriptor, in that order.  If the close reports no error the engine
    is destroyed next and [Destroy] returns nil.  If the close reports an
    error, [Destroy] returns that error at once: the engine is left as it was
    and [Stack.Destroy] is not called. *)
Theorem Destroy_stops_closes_then_releases
    (s : NetStack) (w : World) (c : ChanPtr) (st : Chan) (e : Stack) :
  closeChan s = Some c ->
  chans w !! c = Some st ->
  chan_receiver st = true ->
  stack s = Some e ->
  let close_err :=
    if bool_decide (fd s ∈ open_fds w) then close_fault (env w) else Some EBADF in
  exists w',
    (fd s ∉ open_fds w') ∧
    match close_err with
    | None =>
        Destroy s w = Returns (with_stack (Some (stack_Destroy e)) s, None) w' ∧
        trace w' = trace w ++ [EvResponderStop c; EvClose (fd s); EvStackDestroy]
    | Some err =>
        Destroy s w = Returns (s, Some err) w' ∧
        trace w' = trace w ++ [EvResponderStop c; EvClose (fd s)]
    end.
Proof.
  intros Hc Hst Hrecv He close_err.
  unfold Destroy, bind, chan_send. rewrite Hc, Hst, Hrecv.
  set (w1 := with_trace _ _).
  destruct (unix_Close_result (fd s) w1) as (w2 & Hclose & Htr & Hfd & _).
  rewrite Hclose.
  assert (open_fds w1 = open_fds w) as -> by reflexivity.
  assert (env w1 = env w) as -> by reflexivity.
  assert (trace w1 = trace w ++ [EvResponderStop c]) as Htr1 by reflexivity.
  fold close_err. destruct close_err as [err|].
  - exists w2. split; [exact Hfd|]. split; [reflexivity|].
    rewrite Htr, Htr1, <- app_assoc. reflexivity.
  - rewrite He. unfold emit, ret.
    eexists. split; [|split; [reflexivity|]].
    + exact Hfd.
    + cbn. rewrite Htr, Htr1, <- !app_assoc. reflexivity.
Qed.

Lemma Destroy_stops_closes_then_releases_witness :
  let e := SetICMPBurst 0 (SetICMPLimit 0 (stack_New new_options)) in
  let s := mkNetStack None (Some e) false (Some 0%nat) 3 in
  let w := mkWorld (mkEnv [] None None 0 None true) [3; 0; 1; 2] [] [mkChan 0 0 true] [] in
  exists w',
    (3 ∉ open_fds w') ∧
    Destroy s w = Returns (with_stack (Some (stack_Destroy e)) s, None) w' ∧
    trace w' = [EvResponderStop 0%nat; EvClose 3; EvStackDestroy].
Proof.
  intros e s w.
  exact (Destroy_stops_closes_then_releases s w 0%nat (mkChan 0 0 true) e
           eq_refl eq_refl eq_refl eq_refl).
Defined.

(** C5, as stated, fails: a stack is constructed, and [close(2)] then reports
    an I/O error.  [Destroy] returns that error after the stop signal and the
    close; [Stack.Destroy] is never called and the engine is not released. *)
Lemma Destroy_close_error_skips_engine_release :
  let w := mkWorld (mkEnv ["ligolo"%string] None None 0 (Some "input/output error"%string) true)
                   [0; 1; 2] [mkConnPool false []] [] [] in
  exists s w1 w2,
    NewStack (mkStackSettings "ligolo" 4096) (Some 0%nat) w = Returns (s, None) w1 ∧
    Destroy s w1 = Returns (s, Some "input/output error"%string) w2 ∧
    trace w2 = [EvTunOpen "ligolo" 3; EvResponderStart 0%nat;
                EvResponderStop 0%nat; EvClose 3] ∧
    (EvStackDestroy ∉ trace w2) ∧
    destroyed <$> stack s = Some false.
Proof.
  intros w. eexists _, _, _.
  split; [vm_compute; reflexivity|].
  split; [vm_compute; reflexivity|].
  split; [reflexivity|]. split; [|reflexivity].
  cbn. rewrite !not_elem_of_cons, elem_of_nil. repeat split; try discriminate. tauto.
Qed.

(** A send that returns leaves the channel without a reader. *)
Lemma chan_send_returns (ch : option ChanPtr) (w w1 : World) (u : unit) :
  chan_send ch w = Returns u w1 ->
  exists c st,
    ch = Some c ∧ chans w1 !! c = Some st ∧ chan_receiver st = false.
Proof.
  unfold chan_send. intros H. destruct u.
  destruct ch as [c|]; [|discriminate H].
  destruct (chans w !! c) as [st0|] eqn:Hl; [|discriminate H].
  pose proof (lookup_lt_Some _ _ _ Hl) as Hlt.
  destruct (chan_receiver st0).
  - injection H as <-. eexists _, _. split; [reflexivity|]. cbn. split.
    + by apply list_lookup_insert_eq.
    + reflexivity.
  - destruct (chan_len st0 <? chan_cap st0)%nat; [|discriminate H].
    injection H as <-. eexists _, _. split; [reflexivity|]. cbn. split.
    + by apply list_lookup_insert_eq.
    + reflexivity.
Qed.

(** The state a successful [Destroy] leaves behind: the stop channel has no
    reader any more, and the descriptor of the handle is closed. *)
Lemma Destroy_success_state (s s' : NetStack) (w w' : World) :
  Destroy s w = Returns (s', None) w' ->
  exists c st,
    closeChan s' = Some c ∧ chans w' !! c = Some st ∧ chan_receiver st = false ∧
    fd s' ∉ open_fds w'.
Proof.
  unfold Destroy, bind. intros H.
  destruct (chan_send (closeChan s) w) as [[] w1| |] eqn:Hsend; [|discriminate H..].
  apply chan_send_returns in Hsend as (c & st & Hc & Hst & Hr).
  destruct (unix_Close_result (fd s) w1) as (w2 & Hclose & _ & Hfd & Hch & _).
  rewrite Hclose in H.
  destruct (if bool_decide (fd s ∈ open_fds w1) then close_fault (env w1) else Some EBADF);
    [discriminate H|].
  destruct (stack s) as [e|]; [|discriminate H].
  unfold emit, ret in H. injection H as <- <-.
  exists c, st. cbn. rewrite Hch. done.
Qed.

(** C6, as the code has it: [Destroy] has no guard of its own against being
    called again.  After a [Destroy] that returned nil, a second call on the
    same handle is never a silent no-op: either it blocks on the stop channel,
    which nobody reads any more, or (when the channel can buffer the signal)
    it goes on to call [unix.Close] on the descriptor that is already closed
    and returns [EBADF]. *)
Theorem Destroy_again_blocks_or_closes_again (s s' : NetStack) (w w' : World) :
  Destroy s w = Returns (s', None) w' ->
  Destroy s' w' = Blocks w' ∨
  exists w'',
    Destroy s' w' = Returns (s', Some EBADF) w'' ∧
    trace w'' = trace w' ++ [EvClose (fd s')].
Proof.
  intros H. apply Destroy_success_state in H as (c & st & Hc & Hst & Hr & Hfd).
  unfold Destroy, bind, chan_send. rewrite Hc, Hst, Hr.
  destruct (chan_len st <? chan_cap st)%nat; [right|left; reflexivity].
  set (w1 := with_chans _ _).
  destruct (unix_Close_result (fd s') w1) as (w2 & Hclose & Htr & _).
  rewrite Hclose.
  assert (open_fds w1 = open_fds w') as -> by reflexivity.
  rewrite bool_decide_eq_false_2 by exact Hfd.
  exists w2. split; [reflexivity|]. rewrite Htr. reflexivity.
Qed.

Lemma Destroy_again_blocks_or_closes_again_witness :
  let e := SetICMPBurst 0 (SetICMPLimit 0 (stack_New new_options)) in
  let s := mkNetStack None (Some e) false (Some 0%nat) 3 in
  let s' := with_stack (Some (stack_Destroy e)) s in
  let w := mkWorld (mkEnv [] None None 1 None true) [3; 0; 1; 2] [] [mkChan 1 0 true] [] in
  let w' := mkWorld (mkEnv [] None None 1 None true) [0; 1; 2] [] [mkChan 1 0 false]
                    [EvResponderStop 0%nat; EvClose 3; EvStackDestroy] in
  Destroy s w = Returns (s', None) w' ∧
  (Destroy s' w' = Blocks w' ∨
   exists w'',
     Destroy s' w' = Returns (s', Some EBADF) w'' ∧
     trace w'' = trace w' ++ [EvClose (fd s')]).
Proof.
  intros e s s' w w'.
  split; [vm_compute; reflexivity|].
  apply (Destroy_again_blocks_or_closes_again s s' w w'). vm_compute; reflexivity.
Defined.

(** C6, as stated, fails: a stack is constructed and destroyed; the second
    [Destroy] on the same handle blocks for ever on the stop channel. *)
Lemma Destroy_twice_blocks :
  let w := mkWorld (mkEnv ["ligolo"%string] None None 0 None true)
                   [0; 1; 2] [mkConnPool false []] [] [] in
  exists s1 w1 s2 w2,
    NewStack (mkStackSettings "ligolo" 4096) (Some 0%nat) w = Returns (s1, None) w1 ∧
    Destroy s1 w1 = Returns (s2, None) w2 ∧
    Destroy s2 w2 = Blocks w2 ∧
    Destroy s2 w2 ≠ Returns (s2, None) w2.
Proof.
  intros w. eexists _, _, _, _.
  split; [vm_compute; reflexivity|].
  split; [vm_compute; reflexivity|].
  split; [vm_compute; reflexivity|].
  vm_compute. discriminate.
Qed.

(** With a stop channel that buffers one value the second [Destroy] gets past
    the send and calls [unix.Close] on the descriptor it has already closed. *)
Example Destroy_twice_closes_twice :
  let w := mkWorld (mkEnv ["ligolo"%string] None None 1 None true)
                   [0; 1; 2] [mkConnPool false []] [] [] in
  exists s1 w1 s2 w2 w3,
    NewStack (mkStackSettings "ligolo" 4096) (Some 0%nat) w = Returns (s1, None) w1 ∧
    Destroy s1 w1 = Returns (s2, None) w2 ∧
    Destroy s2 w2 = Returns (s2, Some EBADF) w3 ∧
    trace w3 = [EvTunOpen "ligolo" 3; EvResponderStart 0%nat; EvResponderStop 0%nat;
                EvClose 3; EvStackDestroy; EvClose 3].
Proof.
  intros w. eexists _, _, _, _, _.
  split; [vm_compute; reflexivity|].
  split; [vm_compute; reflexivity|].
  split; [vm_compute; reflexivity|].
  reflexivity.
Qed.

(* --------------------------------------------------------------------- *)
(** *** Interleaved callbacks and pool swaps *)

Import Race.

Section ThreadLists.

Implicit Types (l : list Thread) (t : Thread) (i j : nat).

Lemma holders_cons t l : holders (t :: l) = (weight t + holders l)%nat.
Proof.
  unfold holders, weight. rewrite filter_cons.
  destruct (in_cs t); case_decide; try done.
Qed.

Lemma holders_insert l i t t' :
  l !! i = Some t ->
  (holders (<[i := t']> l) + weight t = holders l + weight t')%nat.
Proof.
  revert i. induction l as [|a l IH]; intros [|i] H; try discriminate H.
  - injection H as ->. cbn [insert list_insert]. rewrite !holders_cons. lia.
  - cbn in H. change (<[S i := t']> (a :: l)) with (a :: <[i := t']> l).
    rewrite !holders_cons. specialize (IH i H). lia.
Qed.

Lemma holders_exclusive l i j t t' :
  holders l = 1%nat -> l !! i = Some t -> in_cs t = true ->
  l !! j = Some t' -> j ≠ i -> in_cs t' = false.
Proof.
  revert i j. induction l as [|a l IH]; intros i j Hh Hi Hcs Hj Hne; [discriminate Hi|].
  rewrite holders_cons in Hh.
  destruct i as [|i], j as [|j]; cbn in Hi, Hj; try congruence.
  - injection Hi as ->. unfold weight in Hh. rewrite Hcs in Hh.
    assert (holders l = 0%nat) as H0 by lia.
    destruct (in_cs t') eqn:E; [|reflexivity].
    apply list_elem_of_lookup_2 in Hj.
    unfold holders in H0. apply length_zero_iff_nil in H0.
    assert (t' ∈ filter (λ t, in_cs t = true) l) as Hin
      by (apply list_elem_of_filter; done).
    rewrite H0 in Hin. by apply elem_of_nil in Hin.
  - injection Hj as ->. unfold weight in Hh.
    destruct (in_cs t') eqn:E; [|reflexivity].
    assert (holders l = 0%nat) as H0 by lia.
    apply list_elem_of_lookup_2 in Hi.
    unfold holders in H0. apply length_zero_iff_nil in H0.
    assert (t ∈ filter (λ t, in_cs t = true) l) as Hin
      by (apply list_elem_of_filter; done).
    rewrite H0 in Hin. by apply elem_of_nil in Hin.
  - unfold weight in Hh. destruct (in_cs a).
    + assert (holders l = 0%nat) as H0 by lia.
      apply list_elem_of_lookup_2 in Hi.
      unfold holders in H0. apply length_zero_iff_nil in H0.
      assert (t ∈ filter (λ t, in_cs t = true) l) as Hin
        by (apply list_elem_of_filter; done).
      rewrite H0 in Hin. by apply elem_of_nil in Hin.
    + apply (IH i j); try done. congruence.
Qed.

Lemma added_cons t l : added (t :: l) = added_of t ++ added l.
Proof. reflexivity. Qed.

Lemma added_insert_same l i t t' :
  l !! i = Some t -> added_of t' = added_of t -> added (<[i := t']> l) = added l.
Proof.
  revert i. induction l as [|a l IH]; intros [|i] H E; try discriminate H.
  - injection H as ->. cbn [insert list_insert]. rewrite !added_cons, E. reflexivity.
  - cbn in H. change (<[S i := t']> (a :: l)) with (a :: <[i := t']> l).
    rewrite !added_cons. f_equal. apply (IH i H E).
Qed.

Lemma added_insert_new l i t t' :
  l !! i = Some t -> added_of t = [] ->
  added (<[i := t']> l) ≡ₚ added_of t' ++ added l.
Proof.
  revert i. induction l as [|a l IH]; intros [|i] H E; try discriminate H.
  - injection H as ->. cbn [insert list_insert]. rewrite !added_cons, E. reflexivity.
  - cbn in H. change (<[S i := t']> (a :: l)) with (a :: <[i := t']> l).
    rewrite !added_cons. rewrite (IH i H E). apply Permutation_app_swap_app.
Qed.

End ThreadLists.

Section Queues.

Implicit Types (ps : list ConnPool) (cp : ConnPool) (p n : nat) (c : TunConn).

Lemma queued_from_same_queue ps p cp cp' n :
  ps !! p = Some cp -> pool_queue cp' = pool_queue cp ->
  queued_from n (<[p := cp']> ps) = queued_from n ps.
Proof.
  revert p n. induction ps as [|a ps IH]; intros [|p] n H E; try discriminate H.
  - injection H as ->. cbn. rewrite E. reflexivity.
  - cbn in H. change (<[S p := cp']> (a :: ps)) with (a :: <[p := cp']> ps).
    cbn [queued_from]. f_equal. apply (IH p (S n) H E).
Qed.

Lemma queued_from_snoc ps p cp cp' c n :
  ps !! p = Some cp -> pool_queue cp' = pool_queue cp ++ [c] ->
  queued_from n (<[p := cp']> ps) ≡ₚ ((n + p)%nat, c) :: queued_from n ps.
Proof.
  revert p n. induction ps as [|a ps IH]; intros [|p] n H E; try discriminate H.
  - injection H as ->. cbn. rewrite E, Nat.add_0_r, map_app. cbn.
    rewrite <- app_assoc. cbn. symmetry. apply Permutation_middle.
  - cbn in H. change (<[S p := cp']> (a :: ps)) with (a :: <[p := cp']> ps).
    cbn [queued_from]. rewrite (IH p (S n) H E).
    replace (S n + p)%nat with (n + S p)%nat by lia.
    symmetry. apply Permutation_middle.
Qed.

Lemma queued_from_tail ps p cp cp' c n :
  ps !! p = Some cp -> pool_queue cp = c :: pool_queue cp' ->
  queued_from n ps ≡ₚ ((n + p)%nat, c) :: queued_from n (<[p := cp']> ps).
Proof.
  revert p n. induction ps as [|a ps IH]; intros [|p] n H E; try discriminate H.
  - injection H as ->. cbn. rewrite E, Nat.add_0_r. reflexivity.
  - cbn in H. change (<[S p := cp']> (a :: ps)) with (a :: <[p := cp']> ps).
    cbn [queued_from]. rewrite (IH p (S n) H E).
    replace (S n + p)%nat with (n + S p)%nat by lia.
    symmetry. apply Permutation_middle.
Qed.

End Queues.

Section Steps.

Lemma Lock_returns (s s' : NetStack) (w w' : World) :
  Lock s w = Returns s' w' -> mu s = false ∧ s' = with_mu true s ∧ w' = w.
Proof.
  unfold Lock, block, ret. destruct (mu s); [discriminate|].
  intros H; injection H as <- <-. done.
Qed.

Lemma Unlock_returns (s s' : NetStack) (w w' : World) :
  Unlock s w = Returns s' w' -> mu s = true ∧ s' = with_mu false s ∧ w' = w.
Proof.
  unfold Unlock, panic, ret. destruct (mu s); [|discriminate].
  intros H; injection H as <- <-. done.
Qed.

Lemma guard_returns (s : NetStack) (w w' : World) (b : bool) :
  pool_unset_or_closed s w = Returns b w' -> w' = w.
Proof.
  unfold pool_unset_or_closed, pool_Closed, ret.
  destruct (pool s) as [p|]; [destruct (pools w !! p)|]; intros H;
    try discriminate H; by injection H.
Qed.

(** [Add] either takes the request at the tail of the queue of the pool
    [s.pool] points to, or refuses it and leaves every queue alone. *)
Lemma add_or_log_returns (s : NetStack) (c : TunConn) (w w' : World)
    (p : PoolPtr) (r : option error) :
  pool s = Some p ->
  add_or_log s c w = Returns r w' ->
  exists cp,
    pools w !! p = Some cp ∧
    ((r = None ∧
      pools w' = <[p := mkConnPool false (pool_queue cp ++ [c])]> (pools w)) ∨
     (r ≠ None ∧ pools w' = pools w)).
Proof.
  unfold add_or_log, pool_Add, ConnPool_Add, slog_Error, emit, bind, ret.
  intros -> H.
  destruct (pools w !! p) as [cp|] eqn:Hl; [|discriminate H].
  exists cp. split; [reflexivity|].
  destruct (pool_closed cp) eqn:Hc.
  - right. injection H as <- <-. split; [discriminate|]. cbn.
    apply list_insert_id. exact Hl.
  - left. injection H as <- <-. done.
Qed.

End Steps.

Section Invariant.

Implicit Types (σ : Sys) (l : list Thread) (t : Thread) (i : nat).

Lemma requests_insert l i t t' :
  l !! i = Some t -> request_of t' = request_of t ->
  requests (<[i := t']> l) = requests l.
Proof.
  revert i. induction l as [|a l IH]; intros [|i] H E; try discriminate H.
  - injection H as ->. cbn. unfold requests. cbn. by rewrite E.
  - cbn in H. change (<[S i := t']> (a :: l)) with (a :: <[i := t']> l).
    unfold requests in *. cbn. f_equal. apply (IH i H E).
Qed.

Lemma thread_ok_outside cur cur' t :
  in_cs t = false -> thread_ok cur t -> thread_ok cur' t.
Proof. destruct t as [c [| | |? []|? []]|p []]; cbn; done. Qed.

Lemma thread_ok_others cur cur' l i t t' :
  holders l = 1%nat -> l !! i = Some t -> in_cs t = true ->
  Forall (thread_ok cur) l -> thread_ok cur' t' ->
  Forall (thread_ok cur') (<[i := t']> l).
Proof.
  intros Hh Hi Hcs Hall Hok. apply Forall_lookup. intros j x Hj.
  destruct (decide (j = i)) as [->|Hne].
  - rewrite list_lookup_insert_eq in Hj by (by eapply lookup_lt_Some).
    by injection Hj as <-.
  - rewrite list_lookup_insert_ne in Hj by done.
    apply (thread_ok_outside cur).
    + by apply (holders_exclusive l i j t x).
    + by apply (Forall_lookup_1 _ _ _ _ Hall Hj).
Qed.

(** A statement that touches neither [s.pool] nor a queue, and neither
    enters nor leaves the list of successful adds. *)
Lemma Inv_frame σ0 σ i t t' s' w' :
  Inv σ0 σ ->
  threads σ !! i = Some t ->
  pool s' = pool (self σ) ->
  pools w' = pools (world σ) ->
  (weight t' + (if mu (self σ) then 1 else 0) = weight t + (if mu s' then 1 else 0))%nat ->
  thread_ok (pool (self σ)) t' ->
  added_of t' = added_of t ->
  request_of t' = request_of t ->
  Inv σ0 (mkSys s' w' (<[i := t']> (threads σ)) (taken σ)).
Proof.
  intros [Hm Hs Hd Hr] Hi Hpool Hpools Hw Hok Hadd Hreq.
  split; cbn [self world threads taken].
  - pose proof (holders_insert _ _ _ t' Hi). lia.
  - rewrite Hpool. by apply Forall_insert.
  - unfold delivered in *. cbn [taken world]. rewrite Hpools.
    by rewrite (added_insert_same _ _ _ _ Hi Hadd).
  - by rewrite (requests_insert _ _ _ _ Hi Hreq).
Qed.

Lemma step_thread_Inv σ0 σ i t t' s' w' :
  Inv σ0 σ ->
  threads σ !! i = Some t ->
  step_thread t (self σ) (world σ) = Some (t', s', w') ->
  Inv σ0 (mkSys s' w' (<[i := t']> (threads σ)) (taken σ)).
Proof.
  intros HI Hi Hstep.
  pose proof (Forall_lookup_1 _ _ _ _ (inv_seen _ _ HI) Hi) as Hok.
  destruct t as [c pc|p pc]; destruct pc; cbn in Hstep.
  - (* a callback takes the lock *)
    destruct (Lock (self σ) (world σ)) as [s1 w1| |] eqn:E; [|discriminate..].
    injection Hstep as <- <- <-. apply Lock_returns in E as (Hmu & -> & ->).
    apply (Inv_frame σ0 σ i _ _ _ _ HI Hi); try done.
    by rewrite Hmu.
  - (* the guard *)
    destruct (pool_unset_or_closed (self σ) (world σ)) as [b w1| |] eqn:E;
      [|discriminate..].
    apply guard_returns in E as ->.
    destruct b; injection Hstep as <- <- <-;
      by apply (Inv_frame σ0 σ i _ _ _ _ HI Hi).
  - (* Add *)
    destruct (pool (self σ)) as [p|] eqn:Hp; [|discriminate].
    destruct (add_or_log (self σ) c (world σ)) as [r w1| |] eqn:E; [|discriminate..].
    destruct (add_or_log_returns _ _ _ _ _ _ Hp E) as (cp & Hl & [[-> Hps]|[Hr Hps]]).
    + injection Hstep as <- <- <-.
      destruct HI as [Hm Hs Hd Hr]. split; cbn [self world threads taken].
      * pose proof (holders_insert _ _ _ (Forwarder c (FAtUnlock seen (Added p))) Hi).
        cbn in *. lia.
      * apply Forall_insert; [done|]. cbn in *. congruence.
      * unfold delivered in *. cbn [taken world]. rewrite Hps.
        rewrite (queued_from_snoc _ _ cp _ c 0 Hl) by reflexivity.
        rewrite (added_insert_new _ _ _ _ Hi) by reflexivity.
        cbn [added_of Nat.add app]. rewrite <- Permutation_middle, <- Hd.
        symmetry. apply Permutation_middle.
      * by rewrite (requests_insert _ _ _ _ Hi).
    + destruct r as [e|]; [|done]. injection Hstep as <- <- <-.
      apply (Inv_frame σ0 σ i _ _ _ _ HI Hi); try done.
  - (* a callback releases the lock *)
    destruct (Unlock (self σ) (world σ)) as [s1 w1| |] eqn:E; [|discriminate..].
    injection Hstep as <- <- <-. apply Unlock_returns in E as (Hmu & -> & ->).
    apply (Inv_frame σ0 σ i _ _ _ _ HI Hi); try done.
    by rewrite Hmu.
  - discriminate.
  - (* SetConnPool takes the lock *)
    destruct (Lock (self σ) (world σ)) as [s1 w1| |] eqn:E; [|discriminate..].
    injection Hstep as <- <- <-. apply Lock_returns in E as (Hmu & -> & ->).
    apply (Inv_frame σ0 σ i _ _ _ _ HI Hi); try done.
    by rewrite Hmu.
  - (* s.pool = connPool *)
    injection Hstep as <- <- <-.
    destruct HI as [Hm Hs Hd Hr].
    assert (holders (threads σ) = 1%nat) as H1.
    { destruct (mu (self σ)); [done|].
      assert (Setter p SAtAssign ∈ filter (λ t, in_cs t = true) (threads σ)) as Hin
        by (apply list_elem_of_filter; split; [done|by eapply list_elem_of_lookup_2]).
      unfold holders in Hm. apply length_zero_iff_nil in Hm.
      rewrite Hm in Hin. by apply elem_of_nil in Hin. }
    split; cbn [self world threads taken].
    * pose proof (holders_insert _ _ _ (Setter p SAtUnlock) Hi).
      destruct (self σ); cbn in *. lia.
    * by apply (thread_ok_others (pool (self σ)) _ _ _ (Setter p SAtAssign)).
    * unfold delivered in *. cbn [taken world].
      by rewrite (added_insert_same _ _ _ _ Hi).
    * by rewrite (requests_insert _ _ _ _ Hi).
  - (* SetConnPool releases the lock *)
    destruct (Unlock (self σ) (world σ)) as [s1 w1| |] eqn:E; [|discriminate..].
    injection Hstep as <- <- <-. apply Unlock_returns in E as (Hmu & -> & ->).
    apply (Inv_frame σ0 σ i _ _ _ _ HI Hi); try done.
    by rewrite Hmu.
  - discriminate.
Qed.

End Invariant.

Section Reachable.

Implicit Types (σ : Sys) (a : Action) (sched : list Action).

Lemma exec_Inv σ0 σ a : Inv σ0 σ -> Inv σ0 (exec a σ).
Proof.
  intros HI. destruct a as [i|p|p]; cbn [exec].
  - destruct (threads σ !! i) as [t|] eqn:Hi; [|done].
    destruct (step_thread t (self σ) (world σ)) as [[[t' s'] w']|] eqn:Hstep; [|done].
    by apply (step_thread_Inv σ0 σ i t).
  - destruct (pools (world σ) !! p) as [cp|] eqn:Hl; [|done].
    destruct HI as [Hm Hs Hd Hr]. split; cbn [self world threads taken]; try done.
    unfold delivered in *. cbn [taken world with_pools pools].
    by rewrite (queued_from_same_queue _ _ cp _ 0 Hl).
  - destruct (pools (world σ) !! p) as [[b [|c rest]]|] eqn:Hl; try done.
    destruct HI as [Hm Hs Hd Hr]. split; cbn [self world threads taken]; try done.
    unfold delivered in *. cbn [taken world with_pools pools].
    rewrite <- Hd.
    rewrite (queued_from_tail (pools (world σ)) p _ (mkConnPool b rest) c 0 Hl)
      by reflexivity.
    cbn [Nat.add]. rewrite <- app_assoc. reflexivity.
Qed.

Lemma run_snoc sched a σ : run (sched ++ [a]) σ = exec a (run sched σ).
Proof. unfold run. by rewrite fold_left_app. Qed.

Lemma initial_threads (l : list Thread) :
  forallb fresh l = true -> holders l = 0%nat ∧ added l = [].
Proof.
  induction l as [|t l IH]; [done|]. cbn [forallb]. intros H.
  apply andb_true_iff in H as [Ht Hl]. destruct (IH Hl) as [Hh Ha].
  rewrite holders_cons, added_cons, Hh, Ha.
  destruct t as [c []|p []]; try discriminate Ht; done.
Qed.

Lemma initial_Inv σ : initial σ -> Inv σ σ.
Proof.
  intros [Hmu Hf]. destruct (initial_threads _ Hf) as [Hh Ha].
  split.
  - by rewrite Hh, Hmu.
  - apply Forall_forall. intros t Ht.
    rewrite forallb_forall in Hf. apply list_elem_of_In in Ht.
    specialize (Hf t Ht). destruct t as [c []|p []]; try discriminate Hf; done.
  - by rewrite Ha, app_nil_r.
  - done.
Qed.

Lemma run_Inv sched σ : initial σ -> Inv σ (run sched σ).
Proof.
  intros Hi. induction sched as [|a sched IH] using rev_ind.
  - by apply initial_Inv.
  - rewrite run_snoc. by apply exec_Inv.
Qed.

End Reachable.

Section ExactlyOnce.

Implicit Types (l : list Thread) (L : list (PoolPtr * TunConn)) (c : TunConn).

Lemma added_sublist_requests l : (added l).*2 `sublist_of` requests l.
Proof.
  induction l as [|t l IH]; [constructor|].
  rewrite added_cons, fmap_app. unfold requests. cbn [map concat].
  apply sublist_app; [|exact IH].
  destruct t as [c [| | |seen []|seen []]|p pc]; cbn;
    first [apply sublist_nil_l | reflexivity].
Qed.

Lemma request_of_thread l i c pc :
  l !! i = Some (Forwarder c pc) -> c ∈ requests l.
Proof.
  revert i. induction l as [|t l IH]; intros [|i] H; try discriminate H.
  - injection H as ->. unfold requests. cbn. apply elem_of_cons. by left.
  - cbn in H. unfold requests in *. cbn [map concat]. apply elem_of_app.
    right. by apply (IH i).
Qed.

Lemma added_of_thread l i c seen p :
  l !! i = Some (Forwarder c (FDone seen (Added p))) -> (p, c) ∈ added l.
Proof.
  revert i. induction l as [|t l IH]; intros [|i] H; try discriminate H.
  - injection H as ->. rewrite added_cons. cbn. apply elem_of_cons. by left.
  - cbn in H. rewrite added_cons. apply elem_of_app. right. by apply (IH i).
Qed.

Lemma filter_request_absent L c :
  (forall q, (q, c) ∉ L) -> filter (λ x, x.2 = c) L = [].
Proof.
  induction L as [|[q d] L IH]; intros H; [done|].
  rewrite filter_cons_False.
  - apply IH. intros q' Hin. apply (H q'). apply elem_of_cons. by right.
  - cbn. intros ->. apply (H q). apply elem_of_cons. by left.
Qed.

Lemma filter_request_unique L p c :
  NoDup L.*2 -> (p, c) ∈ L -> filter (λ x, x.2 = c) L = [(p, c)].
Proof.
  induction L as [|[q d] L IH]; intros Hnd Hin; [by apply elem_of_nil in Hin|].
  rewrite fmap_cons in Hnd. apply NoDup_cons in Hnd as [Hd Hnd].
  cbn [snd] in *.
  apply elem_of_cons in Hin as [Heq|Hin].
  - injection Heq as <- <-. rewrite filter_cons_True by done. f_equal.
    apply filter_request_absent. intros q' Hx.
    apply Hd. apply list_elem_of_fmap. by exists (q', c).
  - rewrite filter_cons_False; [by apply IH|].
    cbn. intros ->. apply Hd. apply list_elem_of_fmap. by exists (p, c).
Qed.

End ExactlyOnce.

(** C2: from a start in which the lock is free and no thread has begun,
    whatever order the scheduler runs the statements of the forwarder
    callbacks and of the [SetConnPool] calls in, with pools being closed and
    drained in between:
    - the requests the pools have accepted (queued or taken by a consumer)
      are, besides what was there at the start, exactly the successful [Add]s
      of the callbacks, each once and under the pool that [Add] was called on:
      none is lost and none is delivered twice;
    - a successful [Add] went to the pool [s.pool] pointed to when the callback
      got the lock, never to a reference replaced before that;
    - at most one thread is between [Lock] and [Unlock];
    - if the requests of the callbacks are distinct and new, a callback that
      returned after a successful [Add] on pool [p] finds its request
      delivered once, to [p], and to no other pool. *)
Theorem pool_swap_atomic (σ0 : Sys) (sched : list Action) :
  initial σ0 ->
  let σ := run sched σ0 in
  delivered σ ≡ₚ delivered σ0 ++ added (threads σ) ∧
  (forall i c seen p,
      threads σ !! i = Some (Forwarder c (FAtUnlock seen (Added p))) ∨
      threads σ !! i = Some (Forwarder c (FDone seen (Added p))) ->
      seen = Some p) ∧
  (holders (threads σ) <= 1)%nat ∧
  (NoDup (requests (threads σ0)) ->
   (forall q c, c ∈ requests (threads σ0) -> (q, c) ∉ delivered σ0) ->
   forall i c seen p,
     threads σ !! i = Some (Forwarder c (FDone seen (Added p))) ->
     filter (λ x, x.2 = c) (delivered σ) = [(p, c)]).
Proof.
  intros Hinit σ. destruct (run_Inv sched σ0 Hinit) as [Hm Hs Hd Hr]. fold σ in Hm, Hs, Hd, Hr.
  split; [exact Hd|]. split; [|split].
  - intros i c seen p [H|H];
      apply (Forall_lookup_1 _ _ _ _ Hs) in H; exact H.
  - rewrite Hm. destruct (mu (self σ)); lia.
  - intros Hnd Hnew i c seen p Hi.
    apply Permutation_singleton_r.
    rewrite Hd, filter_app.
    rewrite filter_request_absent.
    + cbn [app]. rewrite (filter_request_unique _ p c); [done| |].
      * apply (sublist_NoDup _ (requests (threads σ))); [|apply added_sublist_requests].
        by rewrite Hr.
      * by apply (added_of_thread _ i c seen p).
    + intros q. apply Hnew. rewrite <- Hr. by apply (request_of_thread _ i c _ Hi).
Qed.

Lemma pool_swap_atomic_witness :
  initial sample_start ∧
  let σ := run sample_sched sample_start in
  delivered σ ≡ₚ delivered sample_start ++ added (threads σ) ∧
  (forall i c seen p,
      threads σ !! i = Some (Forwarder c (FAtUnlock seen (Added p))) ∨
      threads σ !! i = Some (Forwarder c (FDone seen (Added p))) ->
      seen = Some p) ∧
  (holders (threads σ) <= 1)%nat ∧
  (NoDup (requests (threads sample_start)) ->
   (forall q c, c ∈ requests (threads sample_start) -> (q, c) ∉ delivered sample_start) ->
   forall i c seen p,
     threads σ !! i = Some (Forwarder c (FDone seen (Added p))) ->
     filter (λ x, x.2 = c) (delivered σ) = [(p, c)]).
Proof.
  split; [split; reflexivity|].
  apply (pool_swap_atomic sample_start sample_sched). split; reflexivity.
Defined.

(** The sample run, computed: the TCP request, added before the swap, went to
    pool 0 (and has been taken from it); the UDP request, added after the
    swap, is in pool 1. *)
Example sample_run :
  let σ := run sample_sched sample_start in
  threads σ = [Forwarder sample_tcp (FDone (Some 0%nat) (Added 0%nat));
               Setter (Some 1%nat) SDone;
               Forwarder sample_udp (FDone (Some 1%nat) (Added 1%nat))] ∧
  pool (self σ) = Some 1%nat ∧
  mu (self σ) = false ∧
  taken σ = [(0%nat, sample_tcp)] ∧
  pools (world σ) = [mkConnPool false []; mkConnPool false [sample_udp]].
Proof. vm_compute. done. Qed.

(** The thread of a TCP callback, run alone to its end, is [tcpHandler]. *)
Lemma tcpHandler_is_its_thread (request : ForwarderRequest) (s : NetStack) (w : World)
    (tk : list (PoolPtr * TunConn)) :
  match tcpHandler request s w with
  | Returns s' w' =>
      exists seen r,
        run [Run 0; Run 0; Run 0; Run 0]%nat
            (mkSys s w [Forwarder (tcpTunConn request) FAtLock] tk)
        = mkSys s' w' [Forwarder (tcpTunConn request) (FDone seen r)] tk
  | _ => True
  end.
Proof.
  destruct s as [pl st [|] ch f]; [exact I|].
  destruct pl as [p|]; [|eexists _, _; reflexivity].
  unfold tcpHandler, run.
  unfold bind, Lock, Unlock, block, panic, ret, pool_unset_or_closed, pool_Closed,
    add_or_log, pool_Add, ConnPool_Add, ConnPool_Closed, slog_Error, emit, bind, ret.
  cbn.
  unfold bind, Lock, Unlock, block, panic, ret, pool_unset_or_closed, pool_Closed,
    add_or_log, pool_Add, ConnPool_Add, ConnPool_Closed, slog_Error, emit, bind, ret.
  cbn.
  destruct (pools w !! p) as [cp|] eqn:Hl; [|exact I].
  destruct (pool_closed cp) eqn:Hc; cbn.
  - eexists _, _. reflexivity.
  - repeat first
      [ rewrite Hl | rewrite Hc | progress cbn
      | progress unfold bind, pool_Add, ConnPool_Add, ret, Unlock, panic ].
    eexists _, _. reflexivity.
Qed.

(** The same for a UDP callback and for [SetConnPool]. *)
Lemma udpHandler_is_its_thread (request : ForwarderRequest) (s : NetStack) (w : World)
    (tk : list (PoolPtr * TunConn)) :
  match udpHandler request s w with
  | Returns s' w' =>
      exists seen r,
        run [Run 0; Run 0; Run 0; Run 0]%nat
            (mkSys s w [Forwarder (udpTunConn request) FAtLock] tk)
        = mkSys s' w' [Forwarder (udpTunConn request) (FDone seen r)] tk
  | _ => True
  end.
Proof.
  destruct s as [pl st [|] ch f]; [exact I|].
  destruct pl as [p|]; [|eexists _, _; reflexivity].
  unfold udpHandler, run.
  unfold bind, Lock, Unlock, block, panic, ret, pool_unset_or_closed, pool_Closed,
    add_or_log, pool_Add, ConnPool_Add, ConnPool_Closed, slog_Error, emit, bind, ret.
  cbn.
  unfold bind, Lock, Unlock, block, panic, ret, pool_unset_or_closed, pool_Closed,
    add_or_log, pool_Add, ConnPool_Add, ConnPool_Closed, slog_Error, emit, bind, ret.
  cbn.
  destruct (pools w !! p) as [cp|] eqn:Hl; [|exact I].
  destruct (pool_closed cp) eqn:Hc; cbn.
  - eexists _, _. reflexivity.
  - repeat first
      [ rewrite Hl | rewrite Hc | progress cbn
      | progress unfold bind, pool_Add, ConnPool_Add, ret, Unlock, panic ].
    eexists _, _. reflexivity.
Qed.

Lemma SetConnPool_is_its_thread (connPool : option PoolPtr) (s : NetStack) (w : World)
    (tk : list (PoolPtr * TunConn)) :
  match SetConnPool connPool s w with
  | Returns s' w' =>
      run [Run 0; Run 0; Run 0]%nat (mkSys s w [Setter connPool SAtLock] tk)
      = mkSys s' w' [Setter connPool SDone] tk ∧
      pool s' = connPool ∧ w' = w
  | _ => True
  end.
Proof.
  destruct s as [pl st [|] ch f]; [exact I|]. repeat split.
Qed.


(* ===================================================================== *)
(** ** Further properties of the netstack package *)
(* ===================================================================== *)

(** *** Every way [NewStack] can end *)

Lemma NewStack_cases (settings : StackSettings) (connPool : option PoolPtr) (w : World) :
  let fd0 := lowest_free (open_fds w) (length (open_fds w)) 0 in
  exists s err w',
    NewStack settings connPool w = Returns (s, err) w' ∧
    pool s = connPool ∧ mu s = false ∧ pools w' = pools w ∧ env w' = env w ∧
    (exists e, stack s = Some e ∧
       icmpLimit e = 0 ∧ icmpBurst e = 0 ∧ destroyed e = false ∧
       NetworkProtocols e = [ipv4_ProtocolNumber; ipv6_ProtocolNumber] ∧
       TransportProtocols e = [tcp_ProtocolNumber; udp_ProtocolNumber;
                               icmp_ProtocolNumber4; icmp_ProtocolNumber6] ∧
       transportHandlers e !! tcp_ProtocolNumber
         = Some (TCPForwarder 0 (MaxInflight settings)) ∧
       transportHandlers e !! udp_ProtocolNumber = Some UDPForwarder) ∧
    match err with
    | None =>
        TunName settings ∈ tun_devices (env w) ∧
        createNIC_fault (env w) = None ∧ icmpResponder_fault (env w) = None ∧
        closeChan s = Some (length (chans w)) ∧ fd s = fd0 ∧
        open_fds w' = fd0 :: open_fds w ∧
        chans w' = chans w ++ [mkChan (closeChan_cap (env w)) 0 true] ∧
        trace w' = trace w ++ [EvTunOpen (TunName settings) fd0;
                               EvResponderStart (length (chans w))]
    | Some msg =>
        closeChan s = None ∧ chans w' = chans w ∧
        (((TunName settings ∉ tun_devices (env w)) ∧ w' = w ∧ fd s = 0) ∨
         (TunName settings ∈ tun_devices (env w) ∧ fd s = fd0 ∧
          open_fds w' = fd0 :: open_fds w ∧
          trace w' = trace w ++ [EvTunOpen (TunName settings) fd0] ∧
          (createNIC_fault (env w) = Some msg ∨
           (createNIC_fault (env w) = None ∧ icmpResponder_fault (env w) = Some msg))))
    end.
Proof.
  intros fd0. unfold NewStack, new, bind, tun_Open, icmpResponder, ret, CreateNIC.
  destruct (bool_decide (TunName settings ∈ tun_devices (env w))) eqn:Hdev.
  - apply bool_decide_eq_true in Hdev.
    cbn [env with_trace with_open_fds open_fds pools chans trace].
    replace (nics (SetTransportProtocolHandler udp_ProtocolNumber UDPForwarder
               (SetTransportProtocolHandler tcp_ProtocolNumber
                  (TCPForwarder 0 (MaxInflight settings))
                  (SetICMPBurst 0 (SetICMPLimit 0 (stack_New new_options))))) !! 1)
      with (@None NICState) by reflexivity.
    fold fd0. clearbody fd0.
    destruct (createNIC_fault (env w)) as [msg|] eqn:Hnic;
      [|destruct (icmpResponder_fault (env w)) as [msg|] eqn:Hresp].
    + eexists _, _, _. split; [reflexivity|]. cbn.
      repeat split; try reflexivity.
      * eexists. split; [reflexivity|]. repeat split; vm_compute; reflexivity.
      * right. repeat split; try done. by left.
    + eexists _, _, _. split; [reflexivity|]. cbn.
      repeat split; try reflexivity.
      * eexists. split; [reflexivity|]. repeat split; vm_compute; reflexivity.
      * right. repeat split; try done. by right.
    + eexists _, _, _. split; [reflexivity|]. cbn.
      repeat split; try reflexivity; try done.
      * eexists. split; [reflexivity|]. repeat split; vm_compute; reflexivity.
      * by rewrite <- app_assoc.
  - apply bool_decide_eq_false in Hdev.
    eexists _, _, _. split; [reflexivity|]. cbn.
    repeat split; try reflexivity.
    + eexists. split; [reflexivity|]. repeat split; vm_compute; reflexivity.
    + left. done.
Qed.

(** *** The descriptor [tun.Open] hands out *)

Lemma first_integers_in_list (fds : list Z) (n : nat) :
  (forall k, 0 <= k < Z.of_nat n -> k ∈ fds) -> (n <= length fds)%nat.
Proof.
  intros H.
  assert (Z.of_nat <$> seq 0 n ⊆+ fds) as Hsub.
  { apply NoDup_submseteq.
    - apply NoDup_fmap_2; [apply Nat2Z.inj'|apply NoDup_seq].
    - intros x Hx. apply list_elem_of_fmap in Hx as (i & -> & Hi).
      apply elem_of_seq in Hi. apply H. lia. }
  apply submseteq_length in Hsub. rewrite length_fmap, length_seq in Hsub. exact Hsub.
Qed.

Lemma lowest_free_spec (fds : list Z) (fuel : nat) (n : Z) :
  0 <= n ->
  (forall k, 0 <= k < n -> k ∈ fds) ->
  Z.of_nat (length fds) <= n + Z.of_nat fuel ->
  let r := lowest_free fds fuel n in
  n <= r ∧ (r ∉ fds) ∧ (forall k, 0 <= k < r -> k ∈ fds).
Proof.
  revert n. induction fuel as [|fuel IH]; intros n Hn Hbelow Hlen; cbn [lowest_free].
  - split; [lia|]. split; [|exact Hbelow].
    intros Hin.
    assert (Z.to_nat n + 1 <= length fds)%nat; [|lia].
    apply first_integers_in_list. intros k Hk.
    destruct (decide (k = n)) as [->|]; [exact Hin|]. apply Hbelow. lia.
  - case_bool_decide as Hin.
    + destruct (IH (n + 1)) as (H1 & H2 & H3); try lia.
      * intros k Hk. destruct (decide (k = n)) as [->|]; [exact Hin|]. apply Hbelow. lia.
      * split; [lia|]. split; assumption.
    + split; [lia|]. split; assumption.
Qed.

Lemma lowest_free_fresh (fds : list Z) :
  lowest_free fds (length fds) 0 ∉ fds.
Proof.
  destruct (lowest_free_spec fds (length fds) 0) as (_ & H & _); try lia.
  exact H.
Qed.

(** *** The callbacks, in full *)

(** Every way the body shared by the two callbacks can end, for the request
    [c] it was entered with. *)
Lemma callback_cases (c : TunConn) (s : NetStack) (w : World) :
  match (s1 <- Lock s ;;
         drop <- pool_unset_or_closed s1 ;;
         if drop then Unlock s1 else (add_or_log s1 c ;; Unlock s1)) w with
  | Returns s' w' =>
      mu s = false ∧ s' = s ∧
      (((pool s = None ∨
         exists p cp, pool s = Some p ∧ pools w !! p = Some cp ∧ pool_closed cp = true) ∧
        w' = w) ∨
       (exists p cp,
           pool s = Some p ∧ pools w !! p = Some cp ∧ pool_closed cp = false ∧
           w' = with_pools (<[p := mkConnPool false (pool_queue cp ++ [c])]> (pools w)) w))
  | Blocks w' => mu s = true ∧ w' = w
  | Panics w' => mu s = false ∧ w' = w ∧ exists p, pool s = Some p ∧ pools w !! p = None
  end.
Proof.
  destruct s as [pl st [|] ch f]; [by split|].
  unfold bind, Lock, Unlock, block, panic, ret, pool_unset_or_closed, pool_Closed,
    add_or_log, pool_Add, ConnPool_Add, ConnPool_Closed, slog_Error, emit, bind, ret.
  cbn.
  destruct pl as [p|]; [|split; [done|]; split; [done|]; left; split; [by left|done]].
  destruct (pools w !! p) as [cp|] eqn:Hl; [|by repeat split; eauto].
  destruct (pool_closed cp) eqn:Hc; cbn.
  - split; [done|]. split; [done|]. left. split; [|done]. right. by exists p, cp.
  - rewrite Hl, Hc. cbn. split; [done|]. split; [done|]. right. by exists p, cp.
Qed.


(** X2: the request a callback queues can be taken back out whole.  With an
    open pool, the TCP callback leaves at the tail of the queue a request that
    passes [IsTCP] only, whose [GetTCP] carries [request.ID()] and the request
    pointer, on which the other two accessors panic, and on which
    [Terminate(reset)] calls [Complete(reset)] of that very request; the UDP
    callback leaves one that passes [IsUDP] only, whose [GetUDP] carries the
    same two values, and on which [Terminate] does nothing. *)
Theorem queued_request_round_trip
    (request : ForwarderRequest) (s : NetStack) (w : World)
    (p : PoolPtr) (cp : ConnPool) (reset : bool) :
  mu s = false ->
  pool s = Some p ->
  pools w !! p = Some cp ->
  pool_closed cp = false ->
  completed (req_ptr request) (trace w) = false ->
  (exists w' t,
      tcpHandler request s w = Returns s w' ∧
      pool_queue <$> pools w' !! p = Some (pool_queue cp ++ [t]) ∧
      IsTCP t = true ∧ IsUDP t = false ∧ IsICMP t = false ∧
      GetTCP t w' = Returns (mkTCPConn (req_ID request) (req_ptr request)) w' ∧
      GetUDP t w' = Panics w' ∧ GetICMP t w' = Panics w' ∧
      Terminate t reset w' =
        Returns tt (with_trace (trace w' ++ [EvComplete (req_ptr request) reset]) w')) ∧
  (exists w' t,
      udpHandler request s w = Returns s w' ∧
      pool_queue <$> pools w' !! p = Some (pool_queue cp ++ [t]) ∧
      IsTCP t = false ∧ IsUDP t = true ∧ IsICMP t = false ∧
      GetUDP t w' = Returns (mkUDPConn (req_ID request) (req_ptr request)) w' ∧
      GetTCP t w' = Panics w' ∧ GetICMP t w' = Panics w' ∧
      Terminate t reset w' = Returns tt w').
Proof.
  intros Hmu Hp Hl Hc Hfresh.
  pose proof (lookup_lt_Some _ _ _ Hl) as Hlt.
  pose proof (callback_cases (tcpTunConn request) s w) as Ht.
  pose proof (callback_cases (udpTunConn request) s w) as Hu.
  change ((s1 <- Lock s ;; drop <- pool_unset_or_closed s1 ;;
           if drop then Unlock s1 else (add_or_log s1 (tcpTunConn request) ;; Unlock s1)) w)
    with (tcpHandler request s w) in Ht.
  change ((s1 <- Lock s ;; drop <- pool_unset_or_closed s1 ;;
           if drop then Unlock s1 else (add_or_log s1 (udpTunConn request) ;; Unlock s1)) w)
    with (udpHandler request s w) in Hu.
  split.
  - destruct (tcpHandler request s w) as [s1 w1|w1|w1].
    + destruct Ht as (_ & -> & [[[Hn|(p' & cp' & Hp' & Hl' & Hc')] _]
                              |(p' & cp' & Hp' & Hl' & _ & ->)]); try congruence.
      assert (p' = p) as -> by congruence. assert (cp' = cp) as -> by congruence.
      exists (with_pools (<[p := mkConnPool false (pool_queue cp ++ [tcpTunConn request])]>
                            (pools w)) w), (tcpTunConn request).
      split; [reflexivity|]. split.
      { cbn. by rewrite list_lookup_insert_eq. }
      repeat split.
      unfold Terminate, GetTCP, bind, ret, ForwarderRequest_Complete. cbn.
      rewrite Hfresh, andb_false_r. reflexivity.
    + destruct Ht as (? & _). congruence.
    + destruct Ht as (_ & _ & p' & ? & ?). congruence.
  - destruct (udpHandler request s w) as [s1 w1|w1|w1].
    + destruct Hu as (_ & -> & [[[Hn|(p' & cp' & Hp' & Hl' & Hc')] _]
                              |(p' & cp' & Hp' & Hl' & _ & ->)]); try congruence.
      assert (p' = p) as -> by congruence. assert (cp' = cp) as -> by congruence.
      exists (with_pools (<[p := mkConnPool false (pool_queue cp ++ [udpTunConn request])]>
                            (pools w)) w), (udpTunConn request).
      split; [reflexivity|]. split.
      { cbn. by rewrite list_lookup_insert_eq. }
      repeat split.
    + destruct Hu as (? & _). congruence.
    + destruct Hu as (_ & _ & p' & ? & ?). congruence.
Qed.

Lemma queued_request_round_trip_witness :
  let request := mkForwarderRequest 11%nat
                   (mkEndpointID 443 [10; 0; 0; 5] 50000 [192; 168; 1; 2]) in
  let s := mkNetStack (Some 0%nat) None false None 3 in
  let w := mkWorld (mkEnv [] None None 0 None true) [3] [mkConnPool false []] [] [] in
  (exists w' t,
      tcpHandler request s w = Returns s w' ∧
      pool_queue <$> pools w' !! 0%nat = Some ([] ++ [t]) ∧
      IsTCP t = true ∧ IsUDP t = false ∧ IsICMP t = false ∧
      GetTCP t w' = Returns (mkTCPConn (req_ID request) (req_ptr request)) w' ∧
      GetUDP t w' = Panics w' ∧ GetICMP t w' = Panics w' ∧
      Terminate t true w' =
        Returns tt (with_trace (trace w' ++ [EvComplete (req_ptr request) true]) w')) ∧
  (exists w' t,
      udpHandler request s w = Returns s w' ∧
      pool_queue <$> pools w' !! 0%nat = Some ([] ++ [t]) ∧
      IsTCP t = false ∧ IsUDP t = true ∧ IsICMP t = false ∧
      GetUDP t w' = Returns (mkUDPConn (req_ID request) (req_ptr request)) w' ∧
      GetTCP t w' = Panics w' ∧ GetICMP t w' = Panics w' ∧
      Terminate t true w' = Returns tt w').
Proof.
  intros request s w.
  apply (queued_request_round_trip request s w 0%nat (mkConnPool false []) true);
    reflexivity.
Defined.

(** X3: [Terminate] panics in its type assertion, before anything reaches the
    engine, exactly when the request is tagged TCP and its [Handler] holds
    anything but a [TCPConn] (another connection type, or nil). *)
Theorem Terminate_panics_iff_foreign_handler (t : TunConn) (reset : bool) (w : World) :
  Terminate t reset w = Panics w <->
  IsTCP t = true ∧ forall c, Handler t ≠ AnyTCPConn c.
Proof.
  unfold Terminate, GetTCP, bind, ret, panic, ForwarderRequest_Complete.
  destruct (IsTCP t); [|split; [discriminate|intros [? _]; discriminate]].
  destruct (Handler t) as [|c|c|c];
    try (split; [intros _; split; [reflexivity|discriminate]|reflexivity]).
  split.
  - destruct (_ && _); [|discriminate].
    intros H. injection H as H. exfalso.
    apply (f_equal trace) in H. cbn in H.
    apply (f_equal length) in H. rewrite length_app in H. cbn in H. lia.
  - intros [_ H]. by destruct (H c).
Qed.

(** X4: [SetConnPool] redirects the flows that come after it and leaves the
    old pool alone.  On a free lock, [SetConnPool(b)] followed by a TCP
    callback returns with [s.pool] pointing at [b] and the request at the tail
    of [b]'s queue, while every other pool, the one replaced included, keeps
    its state and its queued requests; [SetConnPool(nil)] followed by a
    callback changes nothing but the pointer. *)
Theorem SetConnPool_redirects_later_flows
    (request : ForwarderRequest) (s : NetStack) (w : World)
    (b : PoolPtr) (cpb : ConnPool) :
  mu s = false ->
  pools w !! b = Some cpb ->
  pool_closed cpb = false ->
  (exists w',
      (s1 <- SetConnPool (Some b) s ;; tcpHandler request s1) w
        = Returns (with_pool (Some b) s) w' ∧
      pools w' !! b = Some (mkConnPool false (pool_queue cpb ++ [tcpTunConn request])) ∧
      (forall a, a ≠ b -> pools w' !! a = pools w !! a) ∧
      trace w' = trace w) ∧
  (s1 <- SetConnPool None s ;; tcpHandler request s1) w = Returns (with_pool None s) w.
Proof.
  intros Hmu Hl Hc.
  pose proof (lookup_lt_Some _ _ _ Hl) as Hlt.
  assert (forall q, SetConnPool q s w = Returns (with_pool q s) w) as Hset.
  { intros q. unfold SetConnPool, bind, Lock, Unlock, ret. rewrite Hmu.
    destruct s; cbn in *; subst; reflexivity. }
  split.
  - unfold bind at 1. rewrite Hset.
    rewrite (tcpHandler_adds_to_open_pool request (with_pool (Some b) s) w b cpb);
      [|by destruct s|by destruct s|exact Hl|exact Hc].
    eexists. split; [reflexivity|]. cbn. split; [|split; [|reflexivity]].
    + by rewrite list_lookup_insert_eq.
    + intros a Ha. by rewrite list_lookup_insert_ne.
  - unfold bind at 1. rewrite Hset.
    pose proof (callback_cases (tcpTunConn request) (with_pool None s) w) as Ht.
    change ((s1 <- Lock (with_pool None s) ;; drop <- pool_unset_or_closed s1 ;;
             if drop then Unlock s1
             else (add_or_log s1 (tcpTunConn request) ;; Unlock s1)) w)
      with (tcpHandler request (with_pool None s) w) in Ht.
    destruct (tcpHandler request (with_pool None s) w) as [s1 w1|w1|w1].
    + destruct Ht as (_ & -> & [[_ ->]|(p & cp & Hp & _)]); [reflexivity|].
      by destruct s.
    + destruct Ht as [Ht _]. destruct s; cbn in *; congruence.
    + destruct Ht as (_ & _ & p & Hp & _). by destruct s.
Qed.

Lemma SetConnPool_redirects_later_flows_witness :
  let request := mkForwarderRequest 11%nat
                   (mkEndpointID 443 [10; 0; 0; 5] 50000 [192; 168; 1; 2]) in
  let old := mkTunConn udp_ProtocolNumber AnyNil in
  let s := mkNetStack (Some 0%nat) None false None 3 in
  let w := mkWorld (mkEnv [] None None 0 None true) [3]
                   [mkConnPool false [old; old]; mkConnPool false []] [] [] in
  (exists w',
      (s1 <- SetConnPool (Some 1%nat) s ;; tcpHandler request s1) w
        = Returns (with_pool (Some 1%nat) s) w' ∧
      pools w' !! 1%nat = Some (mkConnPool false ([] ++ [tcpTunConn request])) ∧
      (forall a, a ≠ 1%nat -> pools w' !! a = pools w !! a) ∧
      trace w' = trace w) ∧
  (s1 <- SetConnPool None s ;; tcpHandler request s1) w = Returns (with_pool None s) w.
Proof.
  intros request old s w.
  apply (SetConnPool_redirects_later_flows request s w 1%nat (mkConnPool false []));
    reflexivity.
Defined.

(** *** Construction and teardown together *)

(** X5: [NewStack] always returns, with the pool pointer it was given and a
    free lock, and never touches a pool.  It reports an error exactly when
    [tun.Open] fails, the NIC cannot be created, or the echo responder cannot
    be started.  When [tun.Open] fails nothing outside the handle has changed
    and the handle's descriptor field is zero, the number of standard input;
    on the two later failures the descriptor [tun.Open] handed out is in the
    handle and open. *)
Theorem NewStack_fails_exactly_when_a_step_fails
    (settings : StackSettings) (connPool : option PoolPtr) (w : World) :
  exists s err w',
    NewStack settings connPool w = Returns (s, err) w' ∧
    pool s = connPool ∧ mu s = false ∧ pools w' = pools w ∧
    (err = None <->
       TunName settings ∈ tun_devices (env w) ∧
       createNIC_fault (env w) = None ∧ icmpResponder_fault (env w) = None) ∧
    ((TunName settings ∉ tun_devices (env w)) -> w' = w ∧ fd s = 0 ∧ closeChan s = None) ∧
    (TunName settings ∈ tun_devices (env w) -> fd s ∈ open_fds w' ∧ (fd s ∉ open_fds w)).
Proof.
  destruct (NewStack_cases settings connPool w)
    as (s & err & w' & E & Hp & Hmu & Hps & _ & _ & H).
  exists s, err, w'.
  split; [exact E|]. split; [exact Hp|]. split; [exact Hmu|]. split; [exact Hps|].
  destruct err as [msg|].
  - destruct H as (Hch & _ & [(Hn & Hw & Hfd)|(Hdev & Hfd & Hopen & _ & Hf)]).
    + split; [split; [discriminate|tauto]|]. split; [done|tauto].
    + split; [split; [discriminate|]|].
      * intros (_ & Hnic & Hresp). destruct Hf as [Hf|[_ Hf]]; congruence.
      * split; [tauto|]. intros _. rewrite Hfd, Hopen. split.
        -- apply elem_of_cons. by left.
        -- apply lowest_free_fresh.
  - destruct H as (Hdev & Hnic & Hresp & _ & Hfd & Hopen & _).
    split; [split; [done|reflexivity]|]. split; [tauto|].
    intros _. rewrite Hfd, Hopen. split.
    + apply elem_of_cons. by left.
    + apply lowest_free_fresh.
Qed.

(** X6: whichever way [NewStack] ends, the handle it returns holds an engine
    built for IPv4, IPv6, TCP, UDP, ICMPv4 and ICMPv6, with the ICMP limit and
    burst at zero, the UDP forwarder registered, and the TCP forwarder
    registered with a zero receive window and [MaxInflight] exactly as given
    in the settings (it is not checked or clamped); this holds after a failed
    construction too. *)
Theorem NewStack_registers_forwarders_on_every_path
    (settings : StackSettings) (connPool : option PoolPtr) (w : World) :
  exists s err w' e,
    NewStack settings connPool w = Returns (s, err) w' ∧
    GetStack s = Some e ∧
    NetworkProtocols e = [ipv4_ProtocolNumber; ipv6_ProtocolNumber] ∧
    TransportProtocols e = [tcp_ProtocolNumber; udp_ProtocolNumber;
                            icmp_ProtocolNumber4; icmp_ProtocolNumber6] ∧
    icmpLimit e = 0 ∧ icmpBurst e = 0 ∧
    transportHandlers e !! tcp_ProtocolNumber
      = Some (TCPForwarder 0 (MaxInflight settings)) ∧
    transportHandlers e !! udp_ProtocolNumber = Some UDPForwarder ∧
    destroyed e = false.
Proof.
  destruct (NewStack_cases settings connPool w)
    as (s & err & w' & E & _ & _ & _ & _ & (e & He & Hl & Hb & Hd & Hn & Ht & Htcp & Hudp) & _).
  exists s, err, w', e. unfold GetStack. tauto.
Qed.

(** X7: a handle that [NewStack] returned together with an error cannot be
    torn down: its stop channel is nil, so [Destroy] blocks for ever on the
    send and never reaches [unix.Close]; the descriptor a failed construction
    left open stays open. *)
Theorem Destroy_after_failed_NewStack_blocks
    (settings : StackSettings) (connPool : option PoolPtr) (w : World) :
  exists s err w',
    NewStack settings connPool w = Returns (s, err) w' ∧
    (err ≠ None -> Destroy s w' = Blocks w').
Proof.
  destruct (NewStack_cases settings connPool w)
    as (s & err & w' & E & _ & _ & _ & _ & _ & H).
  exists s, err, w'. split; [exact E|].
  destruct err as [msg|]; [|done]. intros _.
  destruct H as (Hch & _). unfold Destroy, bind, chan_send. rewrite Hch. reflexivity.
Qed.

Lemma filter_other_fresh (x : Z) (l : list Z) :
  x ∉ l -> filter (λ y, y ≠ x) l = l.
Proof.
  induction l as [|y l IH]; [reflexivity|].
  intros [Hne Hl]%not_elem_of_cons.
  rewrite filter_cons_True by congruence. f_equal. by apply IH.
Qed.

(** X8: construction followed by teardown gives the descriptor back.  After a
    [NewStack] that succeeded, with the responder still waiting and [close(2)]
    reporting nothing, [Destroy] returns nil, the table of open descriptors is
    what it was before [NewStack], the engine is destroyed, and the calls made
    outside the package were, in order: open the interface, start the
    responder, stop the responder, close the descriptor, destroy the engine. *)
Theorem NewStack_then_Destroy_restores_descriptors
    (settings : StackSettings) (connPool : option PoolPtr) (w w1 : World) (s1 : NetStack) :
  NewStack settings connPool w = Returns (s1, None) w1 ->
  close_fault (env w) = None ->
  exists s2 w2 e,
    Destroy s1 w1 = Returns (s2, None) w2 ∧
    open_fds w2 = open_fds w ∧
    pools w2 = pools w ∧
    stack s2 = Some e ∧ destroyed e = true ∧
    trace w2 = trace w ++ [EvTunOpen (TunName settings) (fd s1);
                           EvResponderStart (length (chans w));
                           EvResponderStop (length (chans w));
                           EvClose (fd s1);
                           EvStackDestroy].
Proof.
  intros E Hclose.
  destruct (NewStack_cases settings connPool w)
    as (s & err & w' & E' & _ & _ & Hps & Henv & (e & He & _) & H).
  rewrite E in E'. injection E' as <- <- <-.
  destruct H as (_ & _ & _ & Hch & Hfd & Hopen & Hchans & Htr).
  unfold Destroy, bind, chan_send, unix_Close, emit, ret.
  rewrite Hch, Hchans.
  rewrite lookup_app_r by lia. rewrite Nat.sub_diag. cbn [lookup list_lookup chan_receiver].
  cbn [with_trace with_chans open_fds env trace pools chans].
  rewrite Hopen, Henv, Hclose.
  rewrite bool_decide_eq_true_2 by (rewrite Hfd; apply elem_of_cons; by left).
  rewrite He.
  eexists _, _, _. split; [reflexivity|]. cbn.
  split; [|split; [exact Hps|split; [reflexivity|split; [reflexivity|]]]].
  - rewrite Hfd. rewrite decide_False by (intros H; by apply H).
    apply filter_other_fresh, lowest_free_fresh.
  - rewrite Htr, <- !app_assoc, Hfd. reflexivity.
Qed.

Lemma NewStack_then_Destroy_restores_descriptors_witness :
  let settings := mkStackSettings "ligolo" 4096 in
  let w := mkWorld (mkEnv ["ligolo"%string] None None 0 None true)
                   [0; 1; 2; 4] [mkConnPool false []] [] [] in
  exists s1 w1 s2 w2 e,
    NewStack settings (Some 0%nat) w = Returns (s1, None) w1 ∧
    fd s1 = 3 ∧
    Destroy s1 w1 = Returns (s2, None) w2 ∧
    open_fds w2 = [0; 1; 2; 4] ∧
    pools w2 = pools w ∧
    stack s2 = Some e ∧ destroyed e = true ∧
    trace w2 = trace w ++ [EvTunOpen (TunName settings) (fd s1);
                           EvResponderStart (length (chans w));
                           EvResponderStop (length (chans w));
                           EvClose (fd s1);
                           EvStackDestroy].
Proof.
  intros settings w.
  assert (exists s1 w1, NewStack settings (Some 0%nat) w = Returns (s1, None) w1 ∧ fd s1 = 3)
    as (s1 & w1 & E & Hfd) by (eexists _, _; split; [vm_compute; reflexivity|reflexivity]).
  destruct (NewStack_then_Destroy_restores_descriptors settings (Some 0%nat) w w1 s1 E eq_refl)
    as (s2 & w2 & e & H).
  exists s1, w1, s2, w2, e. tauto.
Defined.

(* --------------------------------------------------------------------- *)
(** *** The lock discipline cannot get stuck *)

Import Progress.

Section ProgressFacts.

Implicit Types (σ : Sys) (l : list Thread) (t : Thread) (i : nat).










End ProgressFacts.

Section ProgressSteps.

Implicit Types (σ : Sys) (l : list Thread) (t : Thread) (i : nat).






End ProgressSteps.





(* ===================================================================== *)
(** ** Further properties of the revocation record *)
(* ===================================================================== *)

Lemma hex_byte_digits (b : byte) :
  bool_decide (hex_digit (Byte.to_N b / 16) ∈ list_ascii_of_string "0123456789abcdef") = true ∧
  bool_decide (hex_digit (Byte.to_N b mod 16) ∈ list_ascii_of_string "0123456789abcdef") = true.
Proof. destruct b; vm_compute; auto. Qed.

(** X11: the fingerprint is printable: whatever the record holds, every
    character of [Hash] is one of [0123456789abcdef] (no upper-case digit, no
    separator, no prefix), and [String] is the reason behind the fixed prefix
    [Reason=]. *)
Theorem Hash_is_lower_case_hex (rc : RevokedCertificate) :
  Forall (λ c, c ∈ list_ascii_of_string "0123456789abcdef")
         (list_ascii_of_string (Hash rc)) ∧
  RevokedCertificate_String rc = String.append "Reason=" (Reason rc).
Proof.
  split; [|reflexivity].
  unfold Hash. induction (Thumbprint rc) as [|b bs IH]; [constructor|].
  destruct (hex_byte_digits b) as [Hh Hl].
  apply bool_decide_eq_true in Hh, Hl.
  cbn [sprintf_x list_ascii_of_string].
  apply Forall_cons. split; [exact Hh|].
  apply Forall_cons. split; [exact Hl|exact IH].
Qed.

(* ===================================================================== *)
(** ** Properties of the interfaces table *)
(* ===================================================================== *)

Import Widgets.

Section TableFacts.

Local Open Scope nat_scope.

Implicit Types (t : Table) (w : InterfacesWidget) (row col r k : nat).

(** The loops of [Refresh] change cells only. *)
Lemma set_addresses_frame name ips r t :
  snd (set_addresses name ips r t) = with_cells (cells (snd (set_addresses name ips r t))) t ∧
  fst (set_addresses name ips r t) = (r + length ips)%nat.
Proof.
  revert r t. induction ips as [|ip ips IH]; intros r t; cbn [set_addresses].
  - split; [by destruct t|cbn; lia].
  - destruct (IH (S r) (SetCell r 1 (NewTableCell ip) (SetCell r 0 (NewTableCell name) t)))
      as [H1 H2].
    split; [|rewrite H2; cbn; lia]. rewrite H1 at 1. reflexivity.
Qed.

Lemma set_addresses_lookup name ips r t row col :
  cells (snd (set_addresses name ips r t)) !! (row, col) =
    match (if decide (r <= row)%nat
           then row_cell (map (pair name) ips) (row - r) col else None) with
    | Some c => Some c
    | None => cells t !! (row, col)
    end.
Proof.
  revert r t. induction ips as [|ip ips IH]; intros r t; cbn [set_addresses map].
  - unfold row_cell. rewrite lookup_nil. by case_decide.
  - rewrite IH. unfold row_cell. cbn [SetCell with_cells cells].
    destruct (decide (S r <= row)%nat) as [H|H].
    + rewrite decide_True by lia.
      replace (row - r)%nat with (S (row - S r)) by lia. cbn [lookup list_lookup].
      destruct (map (pair name) ips !! (row - S r)) as [[n i]|] eqn:E.
      * destruct col as [|[|col]]; try done.
        rewrite !lookup_insert_ne by (intros [=]; lia). done.
      * rewrite !lookup_insert_ne by (intros [=]; lia).
        by destruct col as [|[|col]].
    + destruct (decide (r <= row)%nat) as [H'|H'].
      * assert (row = r) as -> by lia. rewrite Nat.sub_diag. cbn [lookup list_lookup].
        destruct col as [|[|col]].
        -- rewrite lookup_insert_ne by (intros [=]). by rewrite lookup_insert_eq.
        -- by rewrite lookup_insert_eq.
        -- by rewrite !lookup_insert_ne by (intros [=]).
      * by rewrite !lookup_insert_ne by (intros [=]; lia).
Qed.

Lemma row_cell_app (A B : list (string * string)) k col :
  row_cell (A ++ B) k col =
    if decide (k < length A) then row_cell A k col else row_cell B (k - length A) col.
Proof.
  unfold row_cell. case_decide.
  - by rewrite lookup_app_l.
  - by rewrite lookup_app_r by lia.
Qed.

Lemma row_cell_beyond (A : list (string * string)) k col :
  length A <= k -> row_cell A k col = None.
Proof. intros H. unfold row_cell. by rewrite lookup_ge_None_2. Qed.

Lemma set_interfaces_frame ifs r t :
  snd (set_interfaces ifs r t) = with_cells (cells (snd (set_interfaces ifs r t))) t ∧
  fst (set_interfaces ifs r t) = r + length (rows_of ifs).
Proof.
  revert r t. induction ifs as [|e ifs IH]; intros r t; cbn [set_interfaces].
  - split; [by destruct t|cbn; lia].
  - destruct (set_addresses (Name e) (Addresses e) r t) as [r' t'] eqn:E.
    destruct (set_addresses_frame (Name e) (Addresses e) r t) as [H1 H2].
    rewrite E in H1, H2. cbn [fst snd] in H1, H2.
    destruct (IH r' t') as [H3 H4]. split.
    + rewrite H3 at 1. rewrite H1. reflexivity.
    + rewrite H4, H2.
      change (rows_of (e :: ifs)) with (map (pair (Name e)) (Addresses e) ++ rows_of ifs).
      rewrite length_app, length_map. apply eq_sym, Nat.add_assoc.
Qed.

Lemma set_interfaces_lookup ifs r t row col :
  cells (snd (set_interfaces ifs r t)) !! (row, col) =
    match (if decide (r <= row) then row_cell (rows_of ifs) (row - r) col else None) with
    | Some c => Some c
    | None => cells t !! (row, col)
    end.
Proof.
  revert r t. induction ifs as [|e ifs IH]; intros r t; cbn [set_interfaces].
  - unfold rows_of, row_cell. cbn. rewrite lookup_nil. by case_decide.
  - destruct (set_addresses (Name e) (Addresses e) r t) as [r' t'] eqn:E.
    destruct (set_addresses_frame (Name e) (Addresses e) r t) as [_ H2].
    pose proof (set_addresses_lookup (Name e) (Addresses e) r t row col) as H1.
    rewrite E in H1, H2. cbn [fst snd] in H1, H2.
    rewrite IH, H1. subst r'.
    change (rows_of (e :: ifs)) with (map (pair (Name e)) (Addresses e) ++ rows_of ifs).
    rewrite row_cell_app, length_map.
    destruct (decide (r + length (Addresses e) <= row)) as [Ha|Ha].
    + rewrite (decide_True (P := r <= row)) by lia.
      rewrite (decide_False (P := row - r < length (Addresses e))) by lia.
      replace (row - r - length (Addresses e)) with (row - (r + length (Addresses e))) by lia.
      case_decide; [|lia].
      destruct (row_cell (rows_of ifs) _ col); [done|].
      rewrite row_cell_beyond; [done|]. rewrite length_map. lia.
    + destruct (decide (r <= row)) as [Hb|Hb]; [|done].
      by rewrite (decide_True (P := row - r < length (Addresses e))) by lia.
Qed.

Lemma set_headers_table t :
  set_headers 0 ["Name"; "IP"]%string t =
    SetFixed 1 0 (with_cells (<[(0, 1) := header_cell "IP"]>
                                (<[(0, 0) := header_cell "Name"]> (cells t))) t).
Proof. reflexivity. Qed.

(** What a position holds after [Refresh]: the cell [Refresh] writes there,
    and the old cell where it writes none. *)
Lemma Refresh_lookup w row col :
  cells (table (Refresh w)) !! (row, col) =
    match rendered (selectedSession w) row col with
    | Some c => Some c
    | None => cells (table w) !! (row, col)
    end.
Proof.
  unfold Refresh. rewrite set_headers_table.
  destruct (selectedSession w) as [sess|]; cbn [table].
  - rewrite set_interfaces_lookup. cbn [SetFixed with_cells cells].
    destruct row as [|k].
    + rewrite decide_False by lia. cbn [rendered].
      destruct col as [|[|col]].
      * rewrite lookup_insert_ne by (intros [=]). by rewrite lookup_insert_eq.
      * by rewrite lookup_insert_eq.
      * by rewrite !lookup_insert_ne by (intros [=]).
    + rewrite decide_True by lia. cbn [rendered].
      replace (S k - 1) with k by lia.
      destruct (row_cell _ k col); [done|].
      by rewrite !lookup_insert_ne by (intros [=]).
  - cbn [SetFixed with_cells cells]. destruct row as [|k]; cbn [rendered].
    + destruct col as [|[|col]].
      * rewrite lookup_insert_ne by (intros [=]). by rewrite lookup_insert_eq.
      * by rewrite lookup_insert_eq.
      * by rewrite !lookup_insert_ne by (intros [=]).
    + by rewrite !lookup_insert_ne by (intros [=]).
Qed.

(** Everything of the table but its cells after [Refresh]. *)
Lemma Refresh_frame w :
  table (Refresh w) = SetFixed 1 0 (with_cells (cells (table (Refresh w))) (table w)) ∧
  data (Refresh w) = data w ∧
  selectedSession (Refresh w) = selectedSession w.
Proof.
  unfold Refresh. rewrite set_headers_table.
  destruct (selectedSession w) as [sess|]; cbn [table data selectedSession].
  - split; [|done].
    destruct (set_interfaces_frame (Interfaces_All sess) 1
                (SetFixed 1 0 (with_cells (<[(0, 1) := header_cell "IP"]>
                   (<[(0, 0) := header_cell "Name"]> (cells (table w)))) (table w))))
      as [H _].
    rewrite H at 1. reflexivity.
  - done.
Qed.

Lemma append_interfaces_app ifs acc : append_interfaces ifs acc = acc ++ ifs.
Proof.
  revert acc. induction ifs as [|i ifs IH]; intros acc; cbn.
  - by rewrite app_nil_r.
  - by rewrite IH, <- app_assoc.
Qed.

Lemma append_sessions_flat ss acc :
  append_sessions ss acc = acc ++ flat_map Interfaces_All ss.
Proof.
  revert acc. induction ss as [|s ss IH]; intros acc; cbn.
  - by rewrite app_nil_r.
  - by rewrite IH, append_interfaces_app, <- app_assoc.
Qed.

End TableFacts.

(** X12: [SetSelectedSession] shows exactly the selected session.  Whatever
    the table held before, afterwards row 0 holds the two bold upper-case
    headers and row [k+1] holds the name and the address of the [k]-th
    (interface, address) pair of the session, interfaces and their addresses
    in order; every other position is empty.  So the table has one row for
    each address, an interface without addresses has no row at all, and a nil
    session leaves the headers alone.  The [data] of the widget and the
    selection are not touched. *)
Theorem SetSelectedSession_shows_the_session
    (sess : option Session) (w : InterfacesWidget) (row col : nat) :
  let w' := SetSelectedSession sess w in
  cells (table w') !! (row, col) = rendered sess row col ∧
  (forall s k, sess = Some s -> (length (rows_of (Interfaces_All s)) <= k)%nat ->
     cells (table w') !! (S k, col) = None) ∧
  (forall s, sess = Some s ->
     length (rows_of (Interfaces_All s))
       = sum_list (map (fun e => length (Addresses e)) (Interfaces_All s))) ∧
  selectedSession w' = sess ∧ data w' = data w ∧
  selectedRow (table w') = selectedRow (table w) ∧
  selectedColumn (table w') = selectedColumn (table w) ∧
  fixedRows (table w') = 1%nat.
Proof.
  intros w'.
  assert (forall r c, cells (table w') !! (r, c) = rendered sess r c) as L.
  { intros r c. unfold w', SetSelectedSession. rewrite Refresh_lookup.
    cbn [selectedSession table Clear with_cells cells].
    rewrite lookup_empty. by destruct (rendered sess r c). }
  split; [apply L|]. split; [|split].
  - intros s k -> Hk. rewrite L. cbn [rendered]. by apply row_cell_beyond.
  - intros s _. unfold rows_of. induction (Interfaces_All s) as [|e ifs IH]; [done|].
    cbn [flat_map map sum_list]. by rewrite length_app, length_map, IH.
  - assert (w' = Refresh (mkInterfacesWidget (Clear (table w)) (data w) sess)) as ->
      by reflexivity.
    destruct (Refresh_frame (mkInterfacesWidget (Clear (table w)) (data w) sess))
      as (Ht & Hd & Hs).
    rewrite Ht, Hd, Hs. done.
Qed.

(** X13: [Refresh] on its own never removes a cell.  A position it writes
    holds the rendered cell; every other position keeps what it held, so the
    rows of an earlier, longer rendering stay in place unless the table is
    cleared first.  Running [Refresh] twice is the same as running it once. *)
Theorem Refresh_overwrites_and_never_removes (w : InterfacesWidget) (row col : nat) :
  cells (table (Refresh w)) !! (row, col) =
    match rendered (selectedSession w) row col with
    | Some c => Some c
    | None => cells (table w) !! (row, col)
    end ∧
  (is_Some (cells (table w) !! (row, col)) ->
   is_Some (cells (table (Refresh w)) !! (row, col))) ∧
  Refresh (Refresh w) = Refresh w.
Proof.
  split; [apply Refresh_lookup|]. split.
  - rewrite Refresh_lookup. destruct (rendered _ row col); eauto.
  - destruct (Refresh_frame w) as (Ht & Hd & Hs).
    destruct (Refresh_frame (Refresh w)) as (Ht' & Hd' & Hs').
    assert (cells (table (Refresh (Refresh w))) = cells (table (Refresh w))) as Hc.
    { apply map_eq. intros [r c]. rewrite (Refresh_lookup (Refresh w)), Hs.
      rewrite (Refresh_lookup w). by destruct (rendered (selectedSession w) r c). }
    assert (table (Refresh (Refresh w)) = table (Refresh w)) as Htab.
    { rewrite Ht', Hc. set (C := cells (table (Refresh w))) in *.
      rewrite Ht. reflexivity. }
    destruct (Refresh (Refresh w)) as [t2 d2 s2], (Refresh w) as [t1 d1 s1].
    cbn in *. congruence.
Qed.

(** X14: what [SetData] shows does not depend on its argument.  It replaces
    [data] by the interfaces of all the given sessions, in order, and redraws
    the table from the selected session, which it does not change: the table
    afterwards is the table [SetSelectedSession] would leave for the session
    already selected. *)
Theorem SetData_redraws_the_selected_session (ss : list Session) (w : InterfacesWidget) :
  data (SetData ss w) = flat_map Interfaces_All ss ∧
  selectedSession (SetData ss w) = selectedSession w ∧
  table (SetData ss w) = table (SetSelectedSession (selectedSession w) w).
Proof.
  unfold SetData, SetSelectedSession. cbn [table data selectedSession].
  rewrite append_sessions_flat. cbn [app].
  destruct (Refresh_frame (mkInterfacesWidget (Clear (table w))
                             (flat_map Interfaces_All ss) (selectedSession w)))
    as (_ & Hd & Hs).
  split; [exact Hd|]. split; [exact Hs|].
  unfold Refresh. cbn [table selectedSession]. by destruct (selectedSession w).
Qed.

Lemma SetData_redraws_selected_helper (ss : list Session) :
  data (SetData ss NewInterfacesWidget) = flat_map Interfaces_All ss ∧
  forall row col,
    cells (table (SetData ss NewInterfacesWidget)) !! (row, col) = rendered None row col.
Proof.
  unfold SetData. cbn [table data selectedSession].
  rewrite append_sessions_flat. cbn [app]. split.
  - apply (Refresh_frame (mkInterfacesWidget _ _ _)).
  - intros row col. rewrite Refresh_lookup.
    change (selectedSession NewInterfacesWidget) with (@None Session).
    cbn [table selectedSession Clear with_cells cells].
    rewrite lookup_empty. by destruct (rendered None row col).
Qed.

(** X15: on focus the rows become selectable and, if [data] is not empty, the
    selection jumps to row 1, column 0; on blur nothing is selectable and the
    selection stays.  The jump follows [data], not the table: a new widget
    that was given sessions with interfaces but no selected session selects
    row 1 on focus although the table has no row 1. *)
Theorem focus_selects_by_data (ss : list Session) (w : InterfacesWidget) (col : nat) :
  rowsSelectable (table (onFocus w)) = true ∧
  columnsSelectable (table (onFocus w)) = false ∧
  cells (table (onFocus w)) = cells (table w) ∧
  (data w = [] ->
     selectedRow (table (onFocus w)) = selectedRow (table w) ∧
     selectedColumn (table (onFocus w)) = selectedColumn (table w)) ∧
  (data w ≠ [] ->
     selectedRow (table (onFocus w)) = 1%nat ∧
     selectedColumn (table (onFocus w)) = 0%nat) ∧
  rowsSelectable (table (onBlur w)) = false ∧
  selectedRow (table (onBlur w)) = selectedRow (table w) ∧
  (flat_map Interfaces_All ss ≠ [] ->
     let w' := onFocus (SetData ss NewInterfacesWidget) in
     selectedRow (table w') = 1%nat ∧ cells (table w') !! (1%nat, col) = None).
Proof.
  assert (forall v,
            rowsSelectable (table (onFocus v)) = true ∧
            columnsSelectable (table (onFocus v)) = false ∧
            cells (table (onFocus v)) = cells (table v) ∧
            (data v = [] ->
               selectedRow (table (onFocus v)) = selectedRow (table v) ∧
               selectedColumn (table (onFocus v)) = selectedColumn (table v)) ∧
            (data v ≠ [] ->
               selectedRow (table (onFocus v)) = 1%nat ∧
               selectedColumn (table (onFocus v)) = 0%nat)) as F.
  { intros v. unfold onFocus, ResetSelector. cbn [data table selectedSession].
    destruct (data v) as [|d ds]; cbn [length Nat.ltb Nat.leb table];
      repeat split; done. }
  destruct (F w) as (H1 & H2 & H3 & H4 & H5).
  split; [exact H1|]. split; [exact H2|]. split; [exact H3|].
  split; [exact H4|]. split; [exact H5|]. split; [reflexivity|]. split; [reflexivity|].
  intros Hne w'.
  destruct (F (SetData ss NewInterfacesWidget)) as (_ & _ & Hc & _ & Hsel).
  destruct (SetData_redraws_selected_helper ss) as [Hd Ht].
  split.
  - apply Hsel. by rewrite Hd.
  - unfold w'. rewrite Hc, Ht. reflexivity.
Qed.

(* ===================================================================== *)
(** ** Properties of the asset service *)
(* ===================================================================== *)

Section AssetFacts.

Import Asset.

Local Open Scope nat_scope.

Variable env : Env.

Lemma run_deferred_calls (l : list ZipFile) (tr : list Call) :
  run_deferred env l tr = (tt, tr ++ map zip_Close l).
Proof.
  revert tr. induction l as [|f l IH]; intros tr; cbn.
  - unfold ret. by rewrite app_nil_r.
  - unfold bind, call. rewrite IH, <- app_assoc. reflexivity.
Qed.

Lemma open_after_app (tr a b : list Call) (o : list Handle) :
  open_after env tr (a ++ b) o = open_after env (tr ++ a) b (open_after env tr a o).
Proof.
  revert tr o. induction a as [|c a IH]; intros tr o; cbn.
  - by rewrite app_nil_r.
  - rewrite IH, <- app_assoc. reflexivity.
Qed.

Lemma open_after_closes (tr : list Call) (l : list ZipFile) (o : list Handle) :
  open_after env tr (map zip_Close l) (map HEntry l ++ o) = o.
Proof.
  revert tr. induction l as [|f l IH]; intros tr; cbn; [reflexivity|].
  rewrite decide_True by reflexivity. apply IH.
Qed.

(** The loop of [unzipBuf]: it handles the first [k] entries; their paths
    are appended to the names, their readers pushed on the deferred list
    and left open; no file stays open; no call closes a reader or removes
    anything. *)
Lemma unzip_files_spec (dest : string) (files : list ZipFile) :
  forall (names : list string) (deferred : list ZipFile) (tr : list Call) (o : list Handle),
  exists (k : nat) (body : list Call) (err : option Err),
    unzip_files env dest files names deferred tr
      = ((names ++ paths_of env dest (take k files), err,
          rev (take k files) ++ deferred), tr ++ body)
    ∧ k <= length files
    ∧ (err = None -> k = length files)
    ∧ Forall quiet body
    ∧ open_after env tr body o = map HEntry (rev (take k files)) ++ o.
Proof.
  induction files as [|f files IH]; intros names deferred tr o.
  - exists 0, [], None. cbn. unfold ret. rewrite !app_nil_r. repeat split; done.
  - cbn [unzip_files]. unfold bind at 1. unfold call at 1.
    destruct (fails env tr (zip_Open f)) as [e|] eqn:Ho.
    { exists 0, [zip_Open f], (Some e). cbn. unfold ret. rewrite app_nil_r, Ho.
      repeat split; try done. lia. repeat constructor. }
    destruct (IsDir f) eqn:Hd.
    + unfold bind at 1. unfold call at 1.
      destruct (IH (names ++ [Join env [dest; Name f]]) (f :: deferred)
                  ((tr ++ [zip_Open f]) ++ [os_MkdirAll (Join env [dest; Name f]) perm_0700])
                  (HEntry f :: o))
        as (k & body & err & Heq & Hk & He & Hq & Hop).
      exists (S k), (zip_Open f :: os_MkdirAll (Join env [dest; Name f]) perm_0700 :: body), err.
      rewrite Heq. cbn [take rev paths_of map length].
      split; [|split; [lia|split; [intros ->; f_equal; auto|split]]].
      * f_equal; [f_equal; [f_equal|]|].
        -- rewrite <- app_assoc. reflexivity.
        -- rewrite <- app_assoc. reflexivity.
        -- rewrite <- !app_assoc. reflexivity.
      * repeat constructor. exact Hq.
      * cbn [open_after]. rewrite Ho. rewrite Hop.
        rewrite map_app, <- app_assoc. reflexivity.
    + unfold bind at 1. unfold call at 1.
      set (fPath := Join env [dest; Name f]).
      set (tr1 := tr ++ [zip_Open f]).
      destruct (fails env tr1 (os_MkdirAll (Dir env fPath) perm_0700)) as [e|] eqn:Hm.
      { exists 1, [zip_Open f; os_MkdirAll (Dir env fPath) perm_0700], (Some e).
        cbn [take rev paths_of map length app]. unfold ret, tr1.
        rewrite <- app_assoc. split; [reflexivity|].
        split; [lia|]. split; [done|]. split; [repeat constructor|].
        cbn [open_after]. rewrite Ho. reflexivity. }
      unfold bind at 1. unfold call at 1.
      set (tr2 := tr1 ++ [os_MkdirAll (Dir env fPath) perm_0700]).
      set (opn := os_OpenFile fPath [O_WRONLY; O_CREATE; O_TRUNC] (Mode f)).
      destruct (fails env tr2 opn) as [e|] eqn:Hf.
      { exists 1, [zip_Open f; os_MkdirAll (Dir env fPath) perm_0700; opn], (Some e).
        cbn [take rev paths_of map length app]. unfold ret.
        split; [unfold tr2, tr1; rewrite <- !app_assoc; reflexivity|].
        split; [lia|]. split; [done|]. split; [repeat constructor|].
        unfold opn, tr2, tr1 in *.
        cbn [open_after]. rewrite Ho, Hf. reflexivity. }
      unfold bind at 1. unfold call at 1.
      unfold bind at 1. unfold call at 1.
      set (tr3 := tr2 ++ [opn]).
      set (seg := [zip_Open f; os_MkdirAll (Dir env fPath) perm_0700; opn;
                   io_Copy fPath f; file_Close fPath]).
      assert (Hseg : (tr3 ++ [io_Copy fPath f]) ++ [file_Close fPath] = tr ++ seg).
      { unfold tr3, tr2, tr1, seg. rewrite <- !app_assoc. reflexivity. }
      assert (Hopen : open_after env tr seg o = HEntry f :: o).
      { unfold seg, opn, tr2, tr1 in *. cbn [open_after]. rewrite Ho, Hf.
        cbn [release]. rewrite decide_True by reflexivity. reflexivity. }
      assert (Hquiet : Forall quiet seg) by (unfold seg; repeat constructor).
      destruct (fails env tr3 (io_Copy fPath f)) as [e|] eqn:Hc.
      { exists 1, seg, (Some e).
        cbn [take rev paths_of map length app]. unfold ret. rewrite Hseg.
        split; [reflexivity|]. split; [lia|]. split; [done|]. split; [exact Hquiet|].
        exact Hopen. }
      rewrite Hseg.
      destruct (IH (names ++ [fPath]) (f :: deferred) (tr ++ seg) (HEntry f :: o))
        as (k & body & err & Heq & Hk & He & Hq & Hop).
      exists (S k), (seg ++ body), err.
      rewrite Heq. cbn [take rev paths_of map length].
      split; [|split; [lia|split; [intros ->; f_equal; auto|split]]].
      * f_equal; [f_equal; [f_equal|]|].
        -- rewrite <- app_assoc. reflexivity.
        -- rewrite <- app_assoc. reflexivity.
        -- rewrite <- !app_assoc. reflexivity.
      * apply Forall_app. split; assumption.
      * rewrite open_after_app, Hopen, Hop.
        rewrite map_app, <- app_assoc. reflexivity.
Qed.

Lemma unzipBuf_spec (src : list Byte.byte) (dest : string) (files : list ZipFile)
    (tr : list Call) (o : list Handle) :
  zip_NewReader env src = inl files ->
  exists (k : nat) (body : list Call) (err : option Err),
    unzipBuf env src dest tr
      = ((paths_of env dest (take k files), err),
         tr ++ body ++ map zip_Close (rev (take k files)))
    ∧ k <= length files
    ∧ (err = None -> k = length files)
    ∧ Forall quiet body
    ∧ open_after env tr body o = map HEntry (rev (take k files)) ++ o
    ∧ open_after env tr (body ++ map zip_Close (rev (take k files))) o = o.
Proof.
  intros Hr. unfold unzipBuf. rewrite Hr. unfold bind at 1.
  destruct (unzip_files_spec dest files [] [] tr o)
    as (k & body & err & Heq & Hk & He & Hq & Hop).
  exists k, body, err. rewrite Heq. unfold bind. rewrite run_deferred_calls.
  unfold ret. rewrite !app_nil_r, <- app_assoc. cbn [app].
  repeat split; try assumption.
  rewrite open_after_app, Hop. apply open_after_closes.
Qed.

Lemma quiet_not_RemoveAll (l : list Call) :
  Forall quiet l -> Forall (fun c => is_RemoveAll c = false) l.
Proof. intros H. eapply Forall_impl; [exact H|]. by intros c [_ ?]. Qed.

Lemma closes_not_RemoveAll (l : list ZipFile) :
  Forall (fun c => is_RemoveAll c = false) (map zip_Close l).
Proof. induction l; constructor; done. Qed.

(** Whatever the archive and the answers: [unzipBuf] appends its calls,
    removes nothing and leaves open what was open. *)
Lemma unzipBuf_frame (src : list Byte.byte) (dest : string) (tr : list Call)
    (o : list Handle) :
  exists new : list Call,
    snd (unzipBuf env src dest tr) = tr ++ new
    ∧ Forall (fun c => is_RemoveAll c = false) new
    ∧ open_after env tr new o = o.
Proof.
  destruct (zip_NewReader env src) as [files|e] eqn:Hr.
  - destruct (unzipBuf_spec src dest files tr o Hr)
      as (k & body & err & Heq & _ & _ & Hq & _ & Hop).
    exists (body ++ map zip_Close (rev (take k files))). rewrite Heq.
    split; [reflexivity|]. split; [|exact Hop].
    apply Forall_app. split; [by apply quiet_not_RemoveAll|apply closes_not_RemoveAll].
  - exists []. unfold unzipBuf. rewrite Hr. unfold ret. cbn.
    by rewrite app_nil_r.
Qed.

Lemma open_after_inert (tr l : list Call) (o : list Handle) :
  forallb inert l = true -> open_after env tr l o = o.
Proof.
  revert tr o. induction l as [|c l IH]; intros tr o H; cbn; [reflexivity|].
  cbn in H. apply andb_prop in H as [Hc Hl].
  rewrite IH by exact Hl. destruct c; cbn in Hc; done.
Qed.

Lemma unzip_directories (dest : string) (files : list ZipFile) :
  Forall (fun f => IsDir f = true) files ->
  (forall h f, fails env h (zip_Open f) = None) ->
  forall (names : list string) (deferred : list ZipFile) (tr : list Call),
    fst (unzip_files env dest files names deferred tr)
      = (names ++ paths_of env dest files, None, rev files ++ deferred).
Proof.
  intros Hd Ho. induction Hd as [|f files Hf _ IH]; intros names deferred tr.
  - cbn. by rewrite app_nil_r.
  - cbn [unzip_files]. unfold bind at 1. unfold call at 1. rewrite Ho, Hf.
    unfold bind at 1. unfold call at 1. rewrite IH.
    cbn [paths_of map rev]. rewrite <- !app_assoc. reflexivity.
Qed.


(** X17: [unzipBuf] leaves nothing open.  Every file it opened is
    closed before the next entry, also when the copy failed; the readers
    of the entries are closed when it returns, the last opened first, on
    every path; there is one reader per name returned. *)
Theorem unzipBuf_leaves_nothing_open (src : list Byte.byte) (dest : string)
    (tr : list Call) (o : list Handle) :
  exists (body : list Call) (opened : list ZipFile),
    snd (unzipBuf env src dest tr) = tr ++ body ++ map zip_Close (rev opened)
    ∧ Forall (fun c => is_zip_Close c = false) body
    ∧ opened `prefix_of`
        (match zip_NewReader env src with inl files => files | inr _ => [] end)
    ∧ length opened = length (fst (fst (unzipBuf env src dest tr)))
    ∧ open_after env tr body o = map HEntry (rev opened) ++ o
    ∧ open_after env tr (body ++ map zip_Close (rev opened)) o = o.
Proof.
  destruct (zip_NewReader env src) as [files|e] eqn:Hr.
  - destruct (unzipBuf_spec src dest files tr o Hr)
      as (k & body & err & Heq & Hk & He & Hq & Hop & Hall).
    exists body, (take k files). rewrite Heq. cbn [fst snd].
    split; [reflexivity|].
    split; [eapply Forall_impl; [exact Hq|]; by intros c [? _]|].
    split; [apply prefix_take|].
    split; [unfold paths_of; by rewrite length_map|].
    split; [exact Hop|exact Hall].
  - exists [], []. unfold unzipBuf. rewrite Hr. unfold ret. cbn.
    rewrite app_nil_r. repeat split; done.
Qed.

(** X18: for directory entries the error of [os.MkdirAll] is dropped: an
    archive of directories whose readers open is reported as unpacked in
    full, whatever the operating system answered. *)
Theorem unzipBuf_ignores_directory_errors (src : list Byte.byte) (dest : string)
    (files : list ZipFile) (tr : list Call) :
  zip_NewReader env src = inl files ->
  Forall (fun f => IsDir f = true) files ->
  (forall h f, fails env h (zip_Open f) = None) ->
  fst (unzipBuf env src dest tr) = (paths_of env dest files, None).
Proof.
  intros Hr Hd Ho. unfold unzipBuf. rewrite Hr. unfold bind at 1.
  pose proof (unzip_directories dest files Hd Ho [] [] tr) as H.
  destruct (unzip_files env dest files [] [] tr) as [[[names err] deferred] tr'].
  cbn [fst] in H. injection H as -> -> ->. unfold bind.
  rewrite run_deferred_calls. reflexivity.
Qed.

(** *** setupAgentDir *)

Lemma setupAgentDir_spec (tr : list Call) :
  let dir := Join env [GetAssetsDir env; "agents"%string; fresh_id env tr] in
  let mk := [os_MkdirAll dir perm_0700;
             os_MkdirAll (Join env [dir; "src"%string]) perm_0700;
             os_MkdirAll (Join env [dir; "bin"%string]) perm_0700] in
  exists (k : nat) (path : string) (err : option Err),
    setupAgentDir env tr = ((path, err), tr ++ xid_New :: os_Stat dir :: take k mk)
    ∧ k <= 3
    ∧ (path = dir ∧ err = None ∧ k = 3 ∨ path = EmptyString)
    ∧ (err <> None -> 1 <= k)
    ∧ (IsNotExist env (fails env (tr ++ [xid_New]) (os_Stat dir)) = false ->
         path = EmptyString ∧ err = None ∧ k = 0).
Proof.
  intros dir mk. unfold setupAgentDir, bind, xid_New_String, call, ret.
  fold dir.
  destruct (IsNotExist env (fails env (tr ++ [xid_New]) (os_Stat dir))) eqn:Hs.
  - destruct (fails env ((tr ++ [xid_New]) ++ [os_Stat dir]) (os_MkdirAll dir perm_0700))
      as [e1|] eqn:H1.
    { exists 1, EmptyString, (Some e1). unfold mk. cbn [take].
      rewrite <- !app_assoc. cbn [app].
      repeat split; try done; try lia. by right. }
    destruct (fails env (((tr ++ [xid_New]) ++ [os_Stat dir]) ++ [os_MkdirAll dir perm_0700])
                (os_MkdirAll (Join env [dir; "src"%string]) perm_0700)) as [e2|] eqn:H2.
    { exists 2, EmptyString, (Some e2). unfold mk. cbn [take].
      rewrite <- !app_assoc. cbn [app].
      repeat split; try done; try lia. by right. }
    match goal with
    | |- context [fails env ?h (os_MkdirAll (Join env [dir; "bin"%string]) perm_0700)] =>
        destruct (fails env h (os_MkdirAll (Join env [dir; "bin"%string]) perm_0700))
          as [e3|] eqn:H3
    end.
    { exists 3, EmptyString, (Some e3). unfold mk. cbn [take].
      rewrite <- !app_assoc. cbn [app].
      repeat split; try done; try lia. by right. }
    exists 3, dir, None. unfold mk. cbn [take].
    rewrite <- !app_assoc. cbn [app].
    repeat split; try done; try lia. by left.
  - exists 0, EmptyString, None. cbn [take].
    rewrite <- !app_assoc. cbn [app].
    repeat split; try done; try lia. by right.
Qed.

Lemma setupAgentDir_inert (tr : list Call) :
  exists new : list Call,
    snd (setupAgentDir env tr) = tr ++ new ∧ forallb inert new = true.
Proof.
  destruct (setupAgentDir_spec tr) as (k & path & err & Heq & Hk & _).
  rewrite Heq. eexists. split; [reflexivity|].
  destruct k as [|[|[|[|k]]]]; [reflexivity..|lia].
Qed.

Lemma inert_not_RemoveAll (l : list Call) :
  forallb inert l = true -> Forall (fun c => is_RemoveAll c = false) l.
Proof.
  induction l as [|c l IH]; intros H; constructor.
  - cbn in H. apply andb_prop in H as [Hc _]. by destruct c.
  - apply IH. cbn in H. by apply andb_prop in H as [_ Hl].
Qed.


(** *** UnpackDistGo *)

(** X20: [UnpackDistGo] removes the installed Go tree before it looks at
    the embedded archive: when the archive cannot be obtained or is not a
    zip archive, the removal is its only call -- the tree is already gone,
    nothing is unpacked -- and an error is returned: the one of the
    removal if it failed, the one of the archive otherwise. *)
Theorem UnpackDistGo_removes_before_it_reads_the_archive (tr : list Call) (e : Err) :
  go_archive_error env = Some e ->
  let rm := os_RemoveAll (Join env [GetAssetsDir env; "go"%string]) in
  UnpackDistGo env tr
    = (Some (match fails env tr rm with Some e' => e' | None => e end), tr ++ [rm]).
Proof.
  intros Ha rm. unfold UnpackDistGo, bind at 1, call at 1. fold rm.
  destruct (fails env tr rm) as [e'|]; [reflexivity|].
  unfold go_archive_error in Ha.
  destruct (GetGoArchive env) as [a|e0].
  - unfold bind, unzipBuf.
    destruct (zip_NewReader env a) as [files|e0]; [discriminate|].
    injection Ha as ->. reflexivity.
  - injection Ha as ->. reflexivity.
Qed.

(** *** renderAgent *)

Lemma renderAgent_spec (proxyServer servers CACert AgentCert AgentKey : string)
    (IgnoreEnvProxy : bool) (tr : list Call) :
  exists (dir : string) (err : option Err) (new : list Call),
    renderAgent env proxyServer servers CACert AgentCert AgentKey IgnoreEnvProxy tr
      = ((dir, err), tr ++ new)
    ∧ Forall (fun c => is_RemoveAll c = false) new
    ∧ (dir = EmptyString ∨ dir = fst (fst (setupAgentDir env tr)))
    ∧ (err = None ->
         dir = fst (fst (setupAgentDir env tr))
         ∧ snd (fst (setupAgentDir env tr)) = None
         ∧ exists (pre : list Call) (tpl : list Byte.byte),
             let path := Join env [dir; "src"%string; "agent.go"%string] in
             new = pre ++ [os_OpenFile path [O_RDWR; O_CREATE; O_TRUNC] perm_0700;
                           buffer_WriteTo path tpl]
             ∧ open_after env tr new [] = [HFile path]).
Proof.
  unfold renderAgent. unfold bind at 1.
  destruct (setupAgentDir_inert tr) as (new1 & Hs & Hi1).
  destruct (setupAgentDir env tr) as [[d e] tr1]. cbn [fst snd] in *. subst tr1.
  pose proof (inert_not_RemoveAll new1 Hi1) as Hn1.
  destruct e as [e|].
  { exists EmptyString, (Some e), new1. unfold ret. repeat split; try done. by left. }
  destruct (GetAgentArchive env) as [a|e].
  2:{ exists EmptyString, (Some e), new1. unfold ret. repeat split; try done. by left. }
  unfold bind at 1.
  destruct (unzipBuf_frame a (Join env [d; "src"%string]) (tr ++ new1) [])
    as (newz & Hz & Hnz & Hoz).
  destruct (unzipBuf env a (Join env [d; "src"%string]) (tr ++ new1)) as [[names ez] tr2].
  cbn [fst snd] in *. subst tr2.
  destruct ez as [e|].
  { exists EmptyString, (Some e), (new1 ++ newz). unfold ret. rewrite <- app_assoc.
    repeat split; try done; [apply Forall_app; by split|by left]. }
  unfold bind at 1, call at 1. unfold bind at 1, Execute at 1.
  set (parse := template_ParseFiles (Join env [Join env [d; "src"%string]; "agent.go"%string])).
  set (data := {| ProxyServer := proxyServer; Servers := servers; data_CACert := CACert;
                  data_AgentCert := AgentCert; data_AgentKey := AgentKey;
                  data_IgnoreEnvProxy := IgnoreEnvProxy |}).
  destruct (executed env (((tr ++ new1) ++ newz) ++ [parse]) data) as [tpl|e].
  2:{ exists EmptyString, (Some e), (new1 ++ newz ++ [parse; template_Execute data]).
      unfold ret. rewrite <- !app_assoc. cbn [app].
      repeat split; try done; [|by left].
      apply Forall_app; split; [done|]. apply Forall_app; split; [done|].
      repeat constructor. }
  unfold bind at 1, call at 1.
  set (path := Join env [d; "src"%string; "agent.go"%string]).
  set (opn := os_OpenFile path [O_RDWR; O_CREATE; O_TRUNC] perm_0700).
  assert (Hh : (((tr ++ new1) ++ newz) ++ [parse]) ++ [template_Execute data]
               = tr ++ (new1 ++ newz ++ [parse; template_Execute data])).
  { rewrite <- !app_assoc. reflexivity. }
  rewrite Hh.
  set (pre := new1 ++ newz ++ [parse; template_Execute data]).
  assert (Hnp : Forall (fun c => is_RemoveAll c = false) pre).
  { apply Forall_app; split; [done|]. apply Forall_app; split; [done|].
    repeat constructor. }
  assert (Hop : open_after env tr pre [] = []).
  { unfold pre. rewrite open_after_app, (open_after_inert tr new1 [] Hi1).
    rewrite open_after_app, Hoz. reflexivity. }
  destruct (fails env (tr ++ pre) opn) as [e|] eqn:Hf.
  { exists EmptyString, (Some e), (pre ++ [opn]). unfold ret. rewrite <- app_assoc.
    repeat split; try done; [|by left].
    apply Forall_app; split; [done|]. repeat constructor. }
  unfold bind, call, ret.
  exists d, (fails env ((tr ++ pre) ++ [opn]) (buffer_WriteTo path tpl)),
    (pre ++ [opn; buffer_WriteTo path tpl]).
  split; [rewrite <- !app_assoc; reflexivity|].
  split; [apply Forall_app; split; [done|repeat constructor]|].
  split; [by right|].
  intros _. split; [reflexivity|]. split; [reflexivity|].
  exists pre, tpl. cbn zeta. fold path. fold opn. split; [reflexivity|].
  rewrite open_after_app, Hop. unfold opn in *. cbn [open_after]. rewrite Hf. reflexivity.
Qed.

(** X21: when [renderAgent] reports no error, its last two calls opened
    the agent's source file and wrote the rendered template into it, and
    that file is still open when it returns: nothing closes it.  It is the
    only handle left open. *)
Theorem renderAgent_leaves_the_agent_file_open
    (proxyServer servers CACert AgentCert AgentKey : string)
    (IgnoreEnvProxy : bool) (tr : list Call) :
  let r := renderAgent env proxyServer servers CACert AgentCert AgentKey IgnoreEnvProxy tr in
  snd (fst r) = None ->
  let path := Join env [fst (fst r); "src"%string; "agent.go"%string] in
  exists (pre : list Call) (tpl : list Byte.byte),
    snd r = tr ++ pre ++ [os_OpenFile path [O_RDWR; O_CREATE; O_TRUNC] perm_0700;
                          buffer_WriteTo path tpl]
    ∧ open_after env tr
        (pre ++ [os_OpenFile path [O_RDWR; O_CREATE; O_TRUNC] perm_0700;
                 buffer_WriteTo path tpl]) [] = [HFile path].
Proof.
  intros r.
  destruct (renderAgent_spec proxyServer servers CACert AgentCert AgentKey IgnoreEnvProxy tr)
    as (dir & err & new & Heq & _ & _ & Hok).
  unfold r. rewrite Heq. cbn [fst snd]. intros ->.
  destruct (Hok eq_refl) as (_ & _ & pre & tpl & Hnew & Hopen).
  exists pre, tpl. cbn zeta in Hnew. rewrite <- Hnew. split; [reflexivity|exact Hopen].
Qed.

(** *** CompileAgent *)

Lemma SplitHostPort_error (s : string) (e : Err) :
  SplitHostPort s = inr e -> exists why : string, e = AddrError why s.
Proof.
  unfold SplitHostPort. intros H.
  repeat match type of H with
         | context [match ?x with _ => _ end] => destruct x
         end;
    first [discriminate H | injection H as <-; eexists; reflexivity].
Qed.

Lemma check_servers_rejects (lines : list string) (line : string) (e : Err) :
  line ∈ lines ->
  SplitHostPort line = inr e ->
  exists (bad why : string),
    bad ∈ lines ∧ check_servers lines = Some (InvalidServer bad (AddrError why bad)).
Proof.
  intros Hin Hbad. induction Hin as [line lines|line other lines Hin IH].
  - cbn. rewrite Hbad. destruct (SplitHostPort_error _ _ Hbad) as [why ->].
    exists line, why. split; [left|reflexivity].
  - cbn. destruct (SplitHostPort other) as [hp|e'] eqn:Ho.
    + destruct (IH Hbad) as (bad & why & Hb & Hc).
      exists bad, why. split; [by right|exact Hc].
    + destruct (SplitHostPort_error _ _ Ho) as [why ->].
      exists other, why. split; [left|reflexivity].
Qed.

Lemma split_lines_from_trailing (a cur : string) :
  EmptyString ∈ split_lines_from cur (a ++ String "010" EmptyString).
Proof.
  revert cur. induction a as [|c a IH]; intros cur.
  - cbn. right. left.
  - change (String c a ++ String "010" EmptyString)%string
      with (String c (a ++ String "010" EmptyString)).
    cbn [split_lines_from].
    destruct (Ascii.eqb c "010"); [right|]; apply IH.
Qed.

(** X22: [CompileAgent] checks every line of [servers] before it does
    anything else: if [net.SplitHostPort] rejects a line (one without a
    colon, for instance), it returns no agent and an error that names a
    rejected line of the list, and it has made no call: no directory, no
    file, no build. *)
Theorem CompileAgent_rejects_a_bad_server_line_before_any_call
    (goos goarch : string) (obfuscate : bool)
    (proxyServer servers CACert AgentCert AgentKey : string) (IgnoreEnvProxy : bool)
    (tr : list Call) (line : string) (e : Err) :
  line ∈ Split_lines servers ->
  SplitHostPort line = inr e ->
  exists (bad why : string),
    bad ∈ Split_lines servers
    ∧ SplitHostPort bad = inr (AddrError why bad)
    ∧ CompileAgent env goos goarch obfuscate proxyServer servers CACert AgentCert
        AgentKey IgnoreEnvProxy tr
      = ((None, Some (InvalidServer bad (AddrError why bad))), tr).
Proof.
  intros Hin Hbad.
  assert (exists (bad why : string),
             bad ∈ Split_lines servers
             ∧ SplitHostPort bad = inr (AddrError why bad)
             ∧ check_servers (Split_lines servers)
               = Some (InvalidServer bad (AddrError why bad))) as (bad & why & Hb & Hs & Hc).
  { clear tr. revert Hin Hbad. generalize (Split_lines servers) as lines.
    intros lines Hin Hbad. induction Hin as [line lines|line other lines Hin IH].
    - cbn. rewrite Hbad. destruct (SplitHostPort_error _ _ Hbad) as [why ->].
      exists line, why. split; [left|]. split; [exact Hbad|reflexivity].
    - cbn. destruct (SplitHostPort other) as [hp|e'] eqn:Ho.
      + destruct (IH Hbad) as (bad & why & Hb & Hs & Hc).
        exists bad, why. split; [by right|]. split; [exact Hs|exact Hc].
      + destruct (SplitHostPort_error _ _ Ho) as [why ->].
        exists other, why. split; [left|]. split; [exact Ho|reflexivity]. }
  exists bad, why. split; [exact Hb|]. split; [exact Hs|].
  unfold CompileAgent. rewrite Hc. reflexivity.
Qed.

(** X23: an empty line is a bad line.  An empty [servers] string, and
    every [servers] string that ends in a line feed, is rejected before
    any call is made, however good its other lines are. *)
Theorem CompileAgent_rejects_an_empty_or_newline_ended_list
    (goos goarch : string) (obfuscate : bool)
    (proxyServer CACert AgentCert AgentKey : string) (IgnoreEnvProxy : bool)
    (tr : list Call) (a : string) :
  CompileAgent env goos goarch obfuscate proxyServer EmptyString CACert AgentCert
      AgentKey IgnoreEnvProxy tr
    = ((None, Some (InvalidServer EmptyString
                      (AddrError "missing port in address" EmptyString))), tr)
  ∧ exists (bad why : string),
      CompileAgent env goos goarch obfuscate proxyServer
          (a ++ String "010" EmptyString) CACert AgentCert AgentKey IgnoreEnvProxy tr
        = ((None, Some (InvalidServer bad (AddrError why bad))), tr).
Proof.
  split; [reflexivity|].
  destruct (check_servers_rejects (Split_lines (a ++ String "010" EmptyString))
              EmptyString (AddrError "missing port in address" EmptyString))
    as (bad & why & _ & Hc).
  - apply split_lines_from_trailing.
  - reflexivity.
  - exists bad, why. unfold CompileAgent. rewrite Hc. reflexivity.
Qed.

Lemma CompileAgent_spec
    (goos goarch : string) (obfuscate : bool)
    (proxyServer servers CACert AgentCert AgentKey : string) (IgnoreEnvProxy : bool)
    (tr : list Call) :
  exists (res : option (list Byte.byte) * option Err) (new : list Call),
    CompileAgent env goos goarch obfuscate proxyServer servers CACert AgentCert
      AgentKey IgnoreEnvProxy tr = (res, tr ++ new)
    ∧ ((fst res = None ∧ snd res <> None
        ∧ Forall (fun c => is_RemoveAll c = false) new)
       ∨ exists (pre : list Call) (cfg : GoConfig) (bytes : list Byte.byte),
           let dest := destination_of env goos (ProjectDir cfg) in
           let build := gogo_GoBuild cfg (Join env [ProjectDir cfg; "src"%string]) dest in
           new = pre ++ [build; os_ReadFile dest; os_RemoveAll (ProjectDir cfg)]
           ∧ Forall (fun c => is_RemoveAll c = false) pre
           ∧ ProjectDir cfg = fst (fst (setupAgentDir env tr))
           ∧ snd (fst (setupAgentDir env tr)) = None
           ∧ fails env (tr ++ pre) build = None
           ∧ file_content env (tr ++ pre ++ [build]) dest = inl bytes
           ∧ res = match fails env (tr ++ pre ++ [build; os_ReadFile dest])
                           (os_RemoveAll (ProjectDir cfg)) with
                   | Some e => (None, Some e)
                   | None => (Some bytes, None)
                   end).
Proof.
  unfold CompileAgent.
  destruct (check_servers (Split_lines servers)) as [e|].
  { exists (None, Some e), []. unfold ret. rewrite app_nil_r.
    split; [reflexivity|]. left. repeat split; done. }
  destruct (check_proxy env proxyServer) as [e|].
  { exists (None, Some e), []. unfold ret. rewrite app_nil_r.
    split; [reflexivity|]. left. repeat split; done. }
  unfold bind at 1.
  destruct (renderAgent_spec proxyServer servers CACert AgentCert AgentKey IgnoreEnvProxy tr)
    as (dir & err & newr & Heq & Hnr & _ & Hok).
  rewrite Heq.
  destruct err as [e|].
  { exists (None, Some e), newr. unfold ret.
    split; [reflexivity|]. left. split; [reflexivity|]. split; [discriminate|exact Hnr]. }
  destruct (Hok eq_refl) as (Hdir & Hserr & _).
  set (cfg := {| CGO := "0"; GOOS := goos; GOARCH := goarch;
                 GOROOT := GetGoRootDir env (GetAssetsDir env);
                 GOCACHE := GetGoCache env (GetAssetsDir env);
                 GOMODCACHE := GetGoModCache env (GetAssetsDir env);
                 ProjectDir := dir; Obfuscate := obfuscate; GOGARBLE := "*" |}).
  set (dest := destination_of env goos dir).
  set (build := gogo_GoBuild cfg (Join env [dir; "src"%string]) dest).
  unfold bind at 1, call at 1.
  destruct (fails env (tr ++ newr) build) as [e|] eqn:Hb.
  { exists (None, Some e), (newr ++ [build]). unfold ret. rewrite <- app_assoc.
    split; [reflexivity|]. left. split; [reflexivity|]. split; [discriminate|].
    apply Forall_app; split; [done|repeat constructor]. }
  unfold bind at 1, ReadFile at 1.
  assert (Hh : (tr ++ newr) ++ [build] = tr ++ newr ++ [build])
    by (rewrite <- app_assoc; reflexivity).
  rewrite Hh.
  destruct (file_content env (tr ++ newr ++ [build]) dest) as [bytes|e] eqn:Hread.
  2:{ exists (None, Some e), (newr ++ [build; os_ReadFile dest]). unfold ret.
      rewrite <- !app_assoc. cbn [app].
      split; [reflexivity|]. left. split; [reflexivity|]. split; [discriminate|].
      apply Forall_app; split; [done|repeat constructor]. }
  unfold bind, call, ret.
  assert (Hh2 : (tr ++ newr ++ [build]) ++ [os_ReadFile dest]
                = tr ++ newr ++ [build; os_ReadFile dest])
    by (rewrite <- !app_assoc; reflexivity).
  rewrite Hh2.
  exists (match fails env (tr ++ newr ++ [build; os_ReadFile dest]) (os_RemoveAll dir) with
          | Some e => (None, Some e)
          | None => (Some bytes, None)
          end), (newr ++ [build; os_ReadFile dest; os_RemoveAll dir]).
  split.
  { destruct (fails env (tr ++ newr ++ [build; os_ReadFile dest]) (os_RemoveAll dir));
      rewrite <- !app_assoc; reflexivity. }
  right. exists newr, cfg, bytes. cbn zeta. cbn [ProjectDir cfg]. fold dest. fold build.
  split; [reflexivity|]. split; [exact Hnr|]. split; [exact Hdir|]. split; [exact Hserr|].
  split; [exact Hb|]. split; [exact Hread|]. reflexivity.
Qed.

(** X24: [CompileAgent] removes the agent's directory only at the very
    end, after the build and the reading of the binary both succeeded.
    On every other path it returns an error and has removed nothing: what
    was unpacked and rendered before the failure stays on disk.  And the
    binary it has read is returned only if that removal succeeds: a
    failed removal turns a finished build into an error. *)
Theorem CompileAgent_cleans_up_only_after_success
    (goos goarch : string) (obfuscate : bool)
    (proxyServer servers CACert AgentCert AgentKey : string) (IgnoreEnvProxy : bool)
    (tr : list Call) :
  let r := CompileAgent env goos goarch obfuscate proxyServer servers CACert AgentCert
             AgentKey IgnoreEnvProxy tr in
  exists new : list Call,
    snd r = tr ++ new
    ∧ ((fst (fst r) = None ∧ snd (fst r) <> None
        ∧ Forall (fun c => is_RemoveAll c = false) new)
       ∨ exists (pre : list Call) (cfg : GoConfig) (bytes : list Byte.byte),
           let dest := destination_of env goos (ProjectDir cfg) in
           let build := gogo_GoBuild cfg (Join env [ProjectDir cfg; "src"%string]) dest in
           new = pre ++ [build; os_ReadFile dest; os_RemoveAll (ProjectDir cfg)]
           ∧ Forall (fun c => is_RemoveAll c = false) pre
           ∧ fails env (tr ++ pre) build = None
           ∧ file_content env (tr ++ pre ++ [build]) dest = inl bytes
           ∧ fst r = match fails env (tr ++ pre ++ [build; os_ReadFile dest])
                             (os_RemoveAll (ProjectDir cfg)) with
                     | Some e => (None, Some e)
                     | None => (Some bytes, None)
                     end).
Proof.
  intros r.
  destruct (CompileAgent_spec goos goarch obfuscate proxyServer servers CACert AgentCert
              AgentKey IgnoreEnvProxy tr) as (res & new & Heq & H).
  unfold r. rewrite Heq. cbn [fst snd].
  exists new. split; [reflexivity|].
  destruct H as [H|(pre & cfg & bytes & H1 & H2 & _ & _ & H3 & H4 & H5)]; [by left|].
  right. exists pre, cfg, bytes. cbn zeta. repeat split; assumption.
Qed.

(** X25: when [os.Stat] does not report the fresh directory as missing,
    [setupAgentDir] hands back the empty path without an error and
    [CompileAgent] goes on with it: a run that returns an agent has built
    it with the empty path as project directory, from [Join("", "src")]
    into [Join("", "bin", ...)], and has ended by [os.RemoveAll("")]; the
    directory it asked about is not what it removes. *)
Theorem CompileAgent_uses_the_empty_path_when_the_directory_is_not_missing
    (goos goarch : string) (obfuscate : bool)
    (proxyServer servers CACert AgentCert AgentKey : string) (IgnoreEnvProxy : bool)
    (tr : list Call) (bytes : list Byte.byte) :
  let dir := Join env [GetAssetsDir env; "agents"%string; fresh_id env tr] in
  let r := CompileAgent env goos goarch obfuscate proxyServer servers CACert AgentCert
             AgentKey IgnoreEnvProxy tr in
  IsNotExist env (fails env (tr ++ [xid_New]) (os_Stat dir)) = false ->
  fst r = (Some bytes, None) ->
  exists (pre : list Call) (cfg : GoConfig),
    let dest := destination_of env goos EmptyString in
    ProjectDir cfg = EmptyString
    ∧ snd r = tr ++ pre ++ [gogo_GoBuild cfg (Join env [EmptyString; "src"%string]) dest;
                            os_ReadFile dest; os_RemoveAll EmptyString]
    ∧ Forall (fun c => is_RemoveAll c = false) pre.
Proof.
  intros dir r Hs.
  destruct (CompileAgent_spec goos goarch obfuscate proxyServer servers CACert AgentCert
              AgentKey IgnoreEnvProxy tr) as (res & new & Heq & H).
  unfold r. rewrite Heq. cbn [fst snd]. intros Hr.
  destruct H as [(Hn & _)|(pre & cfg & bytes' & H1 & H2 & Hd & _ & _ & _ & _)].
  { rewrite Hr in Hn. discriminate Hn. }
  destruct (setupAgentDir_spec tr) as (k & path & err & Hsetup & _ & _ & _ & Hstat).
  fold dir in Hstat. destruct (Hstat Hs) as (-> & _ & _).
  rewrite Hsetup in Hd. cbn [fst] in Hd.
  exists pre, cfg. cbn zeta in *. rewrite Hd in H1.
  split; [exact Hd|]. split; [|exact H2].
  rewrite H1. reflexivity.
Qed.

End AssetFacts.

Lemma unzipBuf_ignores_directory_errors_witness :
  Asset.fails (Asset.sample_env [Asset.sample_dir] true true) []
    (Asset.os_MkdirAll "/tmp/cmd/" Asset.perm_0700) <> None
  ∧ fst (Asset.unzipBuf (Asset.sample_env [Asset.sample_dir] true true) [] "/tmp" [])
    = (["/tmp/cmd/"%string], None).
Proof.
  split; [discriminate|].
  apply (unzipBuf_ignores_directory_errors
           (Asset.sample_env [Asset.sample_dir] true true) [] "/tmp" [Asset.sample_dir] []).
  - reflexivity.
  - repeat constructor.
  - intros h f. reflexivity.
Defined.

Lemma UnpackDistGo_removes_before_it_reads_the_archive_witness :
  Asset.go_archive_error (Asset.sample_env [] false false)
    = Some (Asset.Reported "file does not exist")
  ∧ Asset.UnpackDistGo (Asset.sample_env [] false false) []
    = (Some (Asset.Reported "file does not exist"), [Asset.os_RemoveAll "/assets/go"]).
Proof.
  split; [reflexivity|].
  apply (UnpackDistGo_removes_before_it_reads_the_archive
           (Asset.sample_env [] false false) [] (Asset.Reported "file does not exist")).
  reflexivity.
Defined.

Lemma renderAgent_leaves_the_agent_file_open_witness :
  exists (pre : list Asset.Call) (tpl : list Byte.byte),
    snd (Asset.renderAgent (Asset.sample_env [Asset.sample_file] false true)
           "" "10.0.0.1:443" "ca" "cert" "key" false [])
      = [] ++ pre ++ [Asset.os_OpenFile "/assets/agents/c0ffee/src/agent.go"
                        [Asset.O_RDWR; Asset.O_CREATE; Asset.O_TRUNC] Asset.perm_0700;
                      Asset.buffer_WriteTo "/assets/agents/c0ffee/src/agent.go" tpl]
    ∧ Asset.open_after (Asset.sample_env [Asset.sample_file] false true) []
        (pre ++ [Asset.os_OpenFile "/assets/agents/c0ffee/src/agent.go"
                   [Asset.O_RDWR; Asset.O_CREATE; Asset.O_TRUNC] Asset.perm_0700;
                 Asset.buffer_WriteTo "/assets/agents/c0ffee/src/agent.go" tpl]) []
      = [Asset.HFile "/assets/agents/c0ffee/src/agent.go"].
Proof.
  apply (renderAgent_leaves_the_agent_file_open
           (Asset.sample_env [Asset.sample_file] false true)
           "" "10.0.0.1:443" "ca" "cert" "key" false []).
  reflexivity.
Defined.

Lemma CompileAgent_rejects_a_bad_server_line_before_any_call_witness :
  exists (bad why : string),
    bad ∈ Asset.Split_lines "host"
    ∧ Asset.SplitHostPort bad = inr (Asset.AddrError why bad)
    ∧ Asset.CompileAgent (Asset.sample_env [Asset.sample_file] false true)
        "linux" "amd64" false "" "host" "ca" "cert" "key" false []
      = ((None, Some (Asset.InvalidServer bad (Asset.AddrError why bad))), []).
Proof.
  apply (CompileAgent_rejects_a_bad_server_line_before_any_call
           (Asset.sample_env [Asset.sample_file] false true)
           "linux" "amd64" false "" "host" "ca" "cert" "key" false [] "host"
           (Asset.AddrError "missing port in address" "host")).
  - left.
  - reflexivity.
Defined.

Lemma CompileAgent_uses_the_empty_path_when_the_directory_is_not_missing_witness :
  exists (pre : list Asset.Call) (cfg : Asset.GoConfig),
    Asset.ProjectDir cfg = EmptyString
    ∧ snd (Asset.CompileAgent (Asset.sample_env [Asset.sample_file] false false)
             "linux" "amd64" false "" "10.0.0.1:443" "ca" "cert" "key" false [])
      = [] ++ pre ++ [Asset.gogo_GoBuild cfg "/src" "/bin/agent";
                      Asset.os_ReadFile "/bin/agent"; Asset.os_RemoveAll EmptyString]
    ∧ Forall (fun c => Asset.is_RemoveAll c = false) pre.
Proof.
  apply (CompileAgent_uses_the_empty_path_when_the_directory_is_not_missing
           (Asset.sample_env [Asset.sample_file] false false)
           "linux" "amd64" false "" "10.0.0.1:443" "ca" "cert" "key" false [] []).
  - reflexivity.
  - reflexivity.
Defined.

(* ===================================================================== *)
(** ** Properties of the form that adds a route *)
(* ===================================================================== *)

Section RouteFormFacts.

Import RouteForm.

Local Open Scope nat_scope.

Lemma step_keeps_cidr (w w' : World) (e : Event) :
  changes_cidr e = false ->
  step w e = Some w' ->
  Last (add_route_cidr (vars w')) = Last (add_route_cidr (vars w)).
Proof.
  intros He Hs. destruct e; try discriminate He; cbn in Hs; unfold on_form in Hs;
    try (injection Hs as <-; reflexivity);
    destruct (forms w !! i) as [fm|]; try (injection Hs as <-; reflexivity).
  - destruct (SetSubmitFunc f fm); [injection Hs as <-; reflexivity|discriminate].
  - destruct (SetCancelFunc g fm); [injection Hs as <-; reflexivity|discriminate].
  - destruct (handler l fm) as [[f|g]|]; injection Hs as <-; reflexivity.
Qed.

Lemma run_keeps_cidr (evs : list Event) :
  forall w w' : World,
    forallb (fun e => negb (changes_cidr e)) evs = true ->
    run w evs = Some w' ->
    Last (add_route_cidr (vars w')) = Last (add_route_cidr (vars w)).
Proof.
  induction evs as [|e evs IH]; intros w w' Hall Hr; cbn in *.
  - by injection Hr as <-.
  - apply andb_prop in Hall as [He Hall].
    destruct (step w e) as [w1|] eqn:Hs; [|discriminate].
    rewrite (IH w1 w' Hall Hr).
    apply (step_keeps_cidr w w1 e); [|exact Hs].
    by destruct (changes_cidr e).
Qed.

(** X26: the values handed to the submit function are those of the
    package variables, which all the forms share.  Once the CIDR field of
    some form has changed to [text], and as long as no CIDR field changes
    again, pressing Submit on any form -- the same or another, whatever
    was focused, pressed, cancelled, set or created in between -- calls
    that form's function with [text] and the last loopback value, and a
    form made then shows [text] in its CIDR field. *)
Theorem Submit_passes_the_value_last_changed_in_any_form
    (w w' : World) (i j f : nat) (text : string) (evs : list Event)
    (fm : AddRouteForm) :
  i < length (forms w) ->
  forallb (fun e => negb (changes_cidr e)) evs = true ->
  run w (CidrChanged i text :: evs) = Some w' ->
  forms w' !! j = Some fm ->
  handler "Submit" fm = Some (submit_closure f) ->
  step w' (Press j "Submit")
    = Some (call_user (Submitted f text (Last (add_route_loopback (vars w')))) w')
  ∧ cidrField (NewAddRouteForm (vars w')) = text.
Proof.
  intros Hi Hall Hr Hj Hh.
  assert (Last (add_route_cidr (vars w')) = text) as HL.
  { cbn [run] in Hr. destruct (step w (CidrChanged i text)) as [w1|] eqn:Hs; [|discriminate].
    rewrite (run_keeps_cidr evs w1 w' Hall Hr).
    cbn in Hs. unfold on_form in Hs.
    destruct (lookup_lt_is_Some_2 (forms w) i Hi) as [fm0 Hfm0].
    rewrite Hfm0 in Hs. injection Hs as <-. reflexivity. }
  split.
  - cbn. unfold on_form. rewrite Hj, Hh, HL. reflexivity.
  - cbn. exact HL.
Qed.

Lemma set_all_buttons (l : list Setter) :
  forall (fm : AddRouteForm) (hs hc : option Handler),
    form_buttons fm = [{| label := "Submit"; selected := hs |};
                       {| label := "Cancel"; selected := hc |}] ->
    exists fm' : AddRouteForm,
      set_all fm l = Some fm'
      ∧ form_buttons fm' = [{| label := "Submit"; selected := last_submit l hs |};
                            {| label := "Cancel"; selected := last_cancel l hc |}]
      ∧ submitBtn fm' = submitBtn fm ∧ cancelBtn fm' = cancelBtn fm
      ∧ cidrField fm' = cidrField fm ∧ loopbackField fm' = loopbackField fm
      ∧ hintBox fm' = hintBox fm.
Proof.
  induction l as [|s l IH]; intros fm hs hc Hb.
  - exists fm. cbn. repeat split; done.
  - destruct s as [f|g]; cbn [set_all set_one last_submit last_cancel].
    + unfold SetSubmitFunc, set_button. rewrite Hb. cbn.
      destruct (IH (with_buttons [{| label := "Submit"; selected := Some (submit_closure f) |};
                                  {| label := "Cancel"; selected := hc |}] fm)
                  (Some (submit_closure f)) hc eq_refl) as (fm' & H & Hrest).
      exists fm'. split; [exact H|exact Hrest].
    + unfold SetCancelFunc, set_button. rewrite Hb. cbn.
      destruct (IH (with_buttons [{| label := "Submit"; selected := hs |};
                                  {| label := "Cancel"; selected := Some (given g) |}] fm)
                  hs (Some (given g)) eq_refl) as (fm' & H & Hrest).
      exists fm'. split; [exact H|exact Hrest].
Qed.

(** X27: on a form made by [NewAddRouteForm], [SetSubmitFunc] and
    [SetCancelFunc] never panic and each reaches its own button of the
    inner form: after any sequence of them the Submit button runs the
    closure around the function given last to [SetSubmitFunc], the Cancel
    button runs the function given last to [SetCancelFunc], and a button
    whose function was never set does nothing.  The form's two button
    fields never get a function, and what the form shows is not touched. *)
Theorem setters_reach_their_own_button (v : Vars) (l : list Setter) :
  exists fm : AddRouteForm,
    set_all (NewAddRouteForm v) l = Some fm
    ∧ handler "Submit" fm = last_submit l None
    ∧ handler "Cancel" fm = last_cancel l None
    ∧ selected (submitBtn fm) = None
    ∧ selected (cancelBtn fm) = None
    ∧ cidrField fm = Last (add_route_cidr v)
    ∧ loopbackField fm = Last (add_route_loopback v).
Proof.
  destruct (set_all_buttons l (NewAddRouteForm v) None None eq_refl)
    as (fm & Hs & Hb & H1 & H2 & H3 & H4 & _).
  exists fm. split; [exact Hs|].
  unfold handler. rewrite Hb. cbn.
  rewrite H1, H2, H3, H4. repeat split; reflexivity.
Qed.

End RouteFormFacts.

Lemma Submit_passes_the_value_last_changed_in_any_form_witness :
  RouteForm.step RouteForm.sample_after (RouteForm.Press 0 "Submit")
    = Some (RouteForm.call_user (RouteForm.Submitted 7 "10.10.5.0/24" false)
              RouteForm.sample_after)
  ∧ RouteForm.cidrField (RouteForm.NewAddRouteForm (RouteForm.vars RouteForm.sample_after))
    = "10.10.5.0/24"%string.
Proof.
  apply (Submit_passes_the_value_last_changed_in_any_form
           RouteForm.sample_two_forms RouteForm.sample_after 1%nat 0%nat 7%nat
           "10.10.5.0/24" RouteForm.sample_events RouteForm.sample_first_form).
  - cbn. lia.
  - reflexivity.
  - reflexivity.
  - reflexivity.
  - reflexivity.
Defined.
